(** * PygameCommunityBot: the help-forum extension (pcbot/exts/helpforums_pre)

    A shallow embedding of [HelpForumsPreCog] and of the properties its
    specification states about it.

    Conventions of the embedding.
    - A Python [str] is the list of its code points ([PyStr.pystr]).
    - Identifiers (snowflakes) and counters are [Z]; timestamps
      ([time.time()], [datetime.timestamp()]) are exact rationals [Q].
    - The constants imported from [.constants] are not part of the sources
      at hand; they are the fields of [Constants]. *)

From Stdlib Require Import String Ascii ZArith NArith Bool List Lia.
From Stdlib Require Import QArith Lqa DecimalString.
Import ListNotations.

Open Scope Z_scope.

(* ===================================================================== *)
(** * Python strings *)
(* ===================================================================== *)

Module PyStr.

Definition pystr := list N.

(** An ASCII literal as a Python string. *)
Definition lit (s : string) : pystr :=
  map N_of_ascii (list_ascii_of_string s).

(** U+2502, the box-drawing bar of the owner-id marker [f"│{owner_id}"]. *)
Definition BOX : N := 9474%N.

Fixpoint eqb (a b : pystr) : bool :=
  match a, b with
  | [], [] => true
  | x :: a', y :: b' => N.eqb x y && eqb a' b'
  | _, _ => false
  end.

(** [s.startswith(prefix)] *)
Fixpoint startswith (s prefix : pystr) {struct prefix} : bool :=
  match prefix, s with
  | [], _ => true
  | p :: prefix', c :: s' => N.eqb c p && startswith s' prefix'
  | _ :: _, [] => false
  end.

(** [s.startswith((p1, p2, ...))] *)
Definition startswith_any (s : pystr) (prefixes : list pystr) : bool :=
  existsb (startswith s) prefixes.

(** [s.endswith(suffix)] *)
Definition endswith (s suffix : pystr) : bool :=
  startswith (rev s) (rev suffix).

(** [sub in s] *)
Fixpoint contains (s sub : pystr) : bool :=
  startswith s sub ||
  match s with
  | [] => false
  | _ :: s' => contains s' sub
  end.

(** [str.lower()], on the ASCII letters; other code points are kept. *)
Definition lower_cp (c : N) : N :=
  if ((65 <=? c) && (c <=? 90))%N then (c + 32)%N else c.

Definition lower (s : pystr) : pystr := map lower_cp s.

(** [str.isspace()] for one code point: the Unicode white space that
    [str.split()] separates on. *)
Definition isspace (c : N) : bool :=
  (((9 <=? c) && (c <=? 13)) || ((28 <=? c) && (c <=? 32))
   || (c =? 133) || (c =? 160) || (c =? 5760)
   || ((8192 <=? c) && (c <=? 8202))
   || (c =? 8232) || (c =? 8233) || (c =? 8239) || (c =? 8287)
   || (c =? 12288))%N.

(** [s.split()]: the maximal runs of non-space characters. [cur] is the
    run being read, reversed. *)
Fixpoint split_aux (cur : pystr) (s : pystr) : list pystr :=
  match s with
  | [] => match cur with [] => [] | _ => [rev cur] end
  | c :: s' =>
      if isspace c
      then match cur with
           | [] => split_aux [] s'
           | _ => rev cur :: split_aux [] s'
           end
      else split_aux (c :: cur) s'
  end.

Definition split (s : pystr) : list pystr := split_aux [] s.

(** [sep.join(parts)] *)
Fixpoint join (sep : pystr) (parts : list pystr) : pystr :=
  match parts with
  | [] => []
  | [p] => p
  | p :: rest => p ++ sep ++ join sep rest
  end.

(** [s.replace(old, "")]: the occurrences of [old] are removed in one pass
    from the left, without overlap. [skip] counts the characters of a
    found occurrence still to be dropped. *)
Fixpoint remove_aux (old : pystr) (skip : nat) (s : pystr) : pystr :=
  match s with
  | [] => []
  | c :: s' =>
      match skip with
      | S k => remove_aux old k s'
      | O =>
          if startswith s old
          then remove_aux old (length old - 1) s'
          else c :: remove_aux old 0 s'
      end
  end.

Definition remove (s old : pystr) : pystr :=
  match old with
  | [] => s
  | _ => remove_aux old 0 s
  end.

(** [str(n)] for an integer. *)
Definition str_of_int (n : Z) : pystr :=
  lit (NilZero.string_of_int (Z.to_int n)).

End PyStr.

Import PyStr.

(* ===================================================================== *)
(** * Constants and the platform's objects *)
(* ===================================================================== *)

(** The constants of [.constants], which is not among the sources.
    [HELP_FORUM_CHANNEL_IDS_values] is [HELP_FORUM_CHANNEL_IDS.values()] and
    [HELP_FORUM_CHANNEL_IDS_regulars] is [HELP_FORUM_CHANNEL_IDS["regulars"]].
    A title rule is named by its caution type; [title_search c s] says
    whether [INVALID_HELP_THREAD_TITLE_REGEX_PATTERNS[c].search(s)] is not
    [None]. [bot_user_id] is [self.bot.user.id]. *)
Record Constants := {
  HELP_FORUM_CHANNEL_IDS_values : list Z;
  HELP_FORUM_CHANNEL_IDS_regulars : Z;
  FORUM_THREAD_TAG_LIMIT : Z;
  INVALID_HELP_THREAD_TITLE_TYPES : list pystr;
  INVALID_HELP_THREAD_TITLE_SCANNING_ENABLED : pystr -> bool;
  title_search : pystr -> pystr -> bool;
  THREAD_TITLE_TOO_SHORT_SLOWMODE_DELAY : Z;
  THREAD_DELETION_MESSAGE_THRESHOLD : Z;
  bot_user_id : Z
}.

(** [discord.ForumTag] *)
Record ForumTag := {
  tag_id : Z;
  tag_name : pystr
}.

(** [ForumTag.__eq__] compares the ids. *)
Definition tag_eqb (a b : ForumTag) : bool := tag_id a =? tag_id b.

Fixpoint tags_eqb (a b : list ForumTag) : bool :=
  match a, b with
  | [], [] => true
  | x :: a', y :: b' => tag_eqb x y && tags_eqb a' b'
  | _, _ => false
  end.

(** [tag.name.lower().startswith(p)] *)
Definition tag_startswith (p : string) (tag : ForumTag) : bool :=
  startswith (lower (tag_name tag)) (lit p).

Definition tag_startswith_any (ps : list string) (tag : ForumTag) : bool :=
  startswith_any (lower (tag_name tag)) (map lit ps).

(* ===================================================================== *)
(** * Title and tag validators, owner-id marker *)
(* ===================================================================== *)

(** [f"│{thread.owner_id}"] *)
Definition owner_id_suffix (owner_id : Z) : pystr :=
  BOX :: str_of_int owner_id.

(** [" ".join(thread.name.replace(f"│{thread.owner_id}", "").split())] *)
Definition normalized_title (name : pystr) (owner_id : Z) : pystr :=
  join (lit " ") (split (remove name (owner_id_suffix owner_id))).

Section Validators.

Variable K : Constants.

Definition title_rule_matches (title c : pystr) : bool :=
  INVALID_HELP_THREAD_TITLE_SCANNING_ENABLED K c && title_search K c title.

Definition get_help_forum_channel_thread_name_cautions
  (name : pystr) (owner_id : Z) : list pystr :=
  filter (title_rule_matches (normalized_title name owner_id))
         (INVALID_HELP_THREAD_TITLE_TYPES K).

Definition validate_help_forum_channel_thread_name
  (name : pystr) (owner_id : Z) : bool :=
  existsb (title_rule_matches (normalized_title name owner_id))
          (INVALID_HELP_THREAD_TITLE_TYPES K).

End Validators.

Definition validate_regulars_help_forum_channel_thread_tags
  (applied_tags : list ForumTag) : bool :=
  if negb (Nat.eqb (length applied_tags) 0)
     && negb (existsb (tag_startswith_any ["solved"; "invalid"]%string)
                      applied_tags)
  then
    let issue_tags := filter (tag_startswith "issue") applied_tags in
    let aspect_tags :=
      filter (fun tag =>
                negb (tag_startswith_any ["issue"; "unsolved"]%string tag))
             applied_tags in
    if Nat.eqb (length issue_tags) 0
       || Nat.ltb 1 (length issue_tags)
       || Nat.eqb (length aspect_tags) 0
    then false
    else true
  else true.

(** The rule as the specification words it: empty, or exempt by a
    solved/invalid tag, or exactly one issue tag with one to three tags
    that are neither issue nor unsolved tags. *)
Definition validate_topic_tags_spec (applied_tags : list ForumTag) : bool :=
  let issue_tags := filter (tag_startswith "issue") applied_tags in
  let aspect_tags :=
    filter (fun tag =>
              negb (tag_startswith_any ["issue"; "unsolved"]%string tag))
           applied_tags in
  Nat.eqb (length applied_tags) 0
  || existsb (tag_startswith_any ["solved"; "invalid"]%string) applied_tags
  || (Nat.eqb (length issue_tags) 1
      && Nat.leb 1 (length aspect_tags)
      && Nat.leb (length aspect_tags) 3).

(** The title normalisation as the specification words it: the marker is
    stripped where it is the suffix of the name. *)
Definition strip_owner_suffix (name : pystr) (owner_id : Z) : pystr :=
  if endswith name (owner_id_suffix owner_id)
  then firstn (length name - length (owner_id_suffix owner_id)) name
  else name.

Definition normalized_title_spec (name : pystr) (owner_id : Z) : pystr :=
  join (lit " ") (split (strip_owner_suffix name owner_id)).

(** ** The owner-id marker of a thread name

    The same expression occurs in [on_thread_create], in the archived
    branch of [on_thread_update] and in
    [force_help_thread_archive_after_timeout]:
<<
    if not (name.endswith(owner_id_suffix) or str(owner_id) in name):
        thread_edits["name"] = (
            name if len(name) < 72 else name[:72] + "..."
        ) + owner_id_suffix
>> *)
Definition has_owner_id (name : pystr) (owner_id : Z) : bool :=
  endswith name (owner_id_suffix owner_id)
  || contains name (str_of_int owner_id).

Definition truncated_name (name : pystr) : pystr :=
  if Nat.ltb (length name) 72 then name else firstn 72 name ++ lit "...".

(** The value stored under [thread_edits["name"]], if any. *)
Definition owner_suffix_edit (name : pystr) (owner_id : Z) : option pystr :=
  if negb (has_owner_id name owner_id)
  then Some (truncated_name name ++ owner_id_suffix owner_id)
  else None.

Definition on_thread_create_name_edit := owner_suffix_edit.
Definition on_thread_update_archived_name_edit := owner_suffix_edit.
Definition force_archive_name_edit := owner_suffix_edit.

(** The name of the thread once the edit, if any, is applied. *)
Definition apply_owner_suffix_rule (name : pystr) (owner_id : Z) : pystr :=
  match owner_suffix_edit name owner_id with
  | Some name' => name'
  | None => name
  end.

(** ** The unpin guard of [on_raw_reaction_remove]

    [white_check_mark_reaction] is the reaction found on the message
    (its [count]) or [None]; [by_admin] is the value of
    [payload.member and payload.member.guild_permissions.administrator],
    of which only the truth value is used. *)
Definition unpin_guard
  (pinned : bool) (white_check_mark_reaction : option Z) (by_admin : bool)
  : bool :=
  pinned &&
  (match white_check_mark_reaction with
   | None => true
   | Some count => (count <? 4) || ((count <? 2) && by_admin)
   end).

Definition unpin_guard_without_admin
  (pinned : bool) (white_check_mark_reaction : option Z) : bool :=
  pinned &&
  (match white_check_mark_reaction with
   | None => true
   | Some count => count <? 4
   end).

(* ===================================================================== *)
(** * Records of the persistence layer *)
(* ===================================================================== *)

(** [BadHelpThreadData]; the set of message ids is a duplicate-free list. *)
Record BadHelpThreadData := {
  bad_thread_id : Z;
  last_cautioned_ts : Q;
  caution_message_ids : list Z
}.

(** [InactiveHelpThreadData]; [alert_message_id] is [NotRequired]. *)
Record InactiveHelpThreadData := {
  inactive_thread_id : Z;
  last_active_ts : Q;
  alert_message_id : option Z
}.

(** [set(xs)] and [a | b] on sets of ids. *)
Definition id_set (xs : list Z) : list Z := nodup Z.eq_dec xs.

Definition id_union (a b : list Z) : list Z :=
  a ++ filter (fun x => negb (existsb (Z.eqb x) a)) (id_set b).

(** Truth value of an optional id ([if alert_message_id := ...]). *)
Definition truthy_id (o : option Z) : bool :=
  match o with
  | Some i => negb (i =? 0)
  | None => false
  end.

(** ** The two tables

    A table is the list of its rows, in insertion order. *)
Module Table.
Section Table.

Context {Row : Type}.
Variable key : Row -> Z.

(** Modelled from the spec: the table declarations live in [.migrations],
    which is not among the sources. The records are "keyed by thread id":
    [thread_id] is the unique key of both tables, so an inserted row
    conflicts with the stored rows of the same [thread_id]. *)
Definition conflicts (new r : Row) : bool := key r =? key new.

(** [SELECT EXISTS(SELECT 1 FROM t WHERE thread_id == :thread_id LIMIT 1)] *)
Definition select_exists (thread_id : Z) (t : list Row) : bool :=
  existsb (fun r => key r =? thread_id) t.

(** [SELECT * FROM t WHERE thread_id == :thread_id], then [result.first()] *)
Definition select_first (thread_id : Z) (t : list Row) : option Row :=
  find (fun r => key r =? thread_id) t.

(** [INSERT INTO t (cols) VALUES (vals) ON CONFLICT DO UPDATE SET cols = vals
     WHERE t.thread_id == :thread_id]: without a conflict the row is
    appended; on a conflict the conflicting row is updated in place when it
    satisfies the WHERE clause, and nothing is inserted. *)
Fixpoint upsert (new : Row) (t : list Row) : list Row :=
  match t with
  | [] => [new]
  | r :: t' =>
      if conflicts new r
      then (if key r =? key new then new else r) :: t'
      else r :: upsert new t'
  end.

(** [DELETE FROM t WHERE t.thread_id == :thread_id] *)
Definition delete_where (thread_id : Z) (t : list Row) : list Row :=
  filter (fun r => negb (key r =? thread_id)) t.

(** At most one row per thread id. *)
Definition unique_keys (t : list Row) : Prop := NoDup (map key t).

Definition rows_of (thread_id : Z) (t : list Row) : list Row :=
  filter (fun r => key r =? thread_id) t.

End Table.
End Table.

(* ===================================================================== *)
(** * The platform: messages, threads, forums *)
(* ===================================================================== *)

Inductive MessageType :=
| MT_default
| MT_reply
| MT_chat_input_command
| MT_context_menu_command
| MT_thread_starter_message
| MT_system.      (* every other [discord.MessageType] *)

Definition is_default (t : MessageType) : bool :=
  match t with MT_default => true | _ => false end.

(** [discord.Message], as far as the extension reads it. *)
Record Message := {
  message_id : Z;
  message_channel : Z;
  author_id : Z;
  author_bot : bool;
  message_type : MessageType;
  message_created_at : Q
}.

(** [Message.is_system()] *)
Definition is_system (m : Message) : bool :=
  match message_type m with MT_system => true | _ => false end.

(** [discord.Thread]: the snapshot a handler receives. [last_message] and
    [starter_message] are the cached objects, if any. *)
Record Thread := {
  thread_id : Z;
  parent_id : Z;
  name : pystr;
  owner_id : Z;
  applied_tags : list ForumTag;
  archived : bool;
  locked : bool;
  flags_pinned : bool;
  archiver_id : option Z;
  created_at : option Q;
  slowmode_delay : Z;
  auto_archive_duration : Z;
  message_count : Z;
  last_message : option Message;
  last_message_id : option Z;
  starter_message : option Message
}.

(** [discord.ForumChannel]. [archived_threads] lists the archived threads,
    most recent first; [manage_threads m] is
    [forum_channel.permissions_for(member m).manage_threads]. *)
Record ForumChannel := {
  forum_id : Z;
  available_tags : list ForumTag;
  default_thread_slowmode_delay : Z;
  default_auto_archive_duration : Z;
  threads : list Thread;
  archived_threads : list Thread;
  manage_threads : Z -> bool
}.

Inductive Channel :=
| Forum (f : ForumChannel)
| NotAForum.

(** An entry of the guild's audit log ([AuditLogAction.thread_update]). *)
Record AuditLogEntry := {
  target_id : option Z;
  user_id : option Z
}.

(** The keys of the [thread_edits] dictionaries. [e_slowmode_delay] is
    absent also where the code passes [discord.utils.MISSING]. *)
Record ThreadEdits := {
  e_name : option pystr;
  e_applied_tags : option (list ForumTag);
  e_slowmode_delay : option Z;
  e_auto_archive_duration : option Z;
  e_archived : option bool;
  e_reason : option string
}.

Definition no_edits : ThreadEdits :=
  {| e_name := None; e_applied_tags := None; e_slowmode_delay := None;
     e_auto_archive_duration := None; e_archived := None; e_reason := None |}.

(** Truth value of the dictionary: it has a key. *)
Definition has_edits (e : ThreadEdits) : bool :=
  match e_name e, e_applied_tags e, e_slowmode_delay e,
        e_auto_archive_duration e, e_archived e, e_reason e with
  | None, None, None, None, None, None => false
  | _, _, _, _, _, _ => true
  end.

Definition set_name v e :=
  {| e_name := Some v; e_applied_tags := e_applied_tags e;
     e_slowmode_delay := e_slowmode_delay e;
     e_auto_archive_duration := e_auto_archive_duration e;
     e_archived := e_archived e; e_reason := e_reason e |}.

Definition set_applied_tags v e :=
  {| e_name := e_name e; e_applied_tags := Some v;
     e_slowmode_delay := e_slowmode_delay e;
     e_auto_archive_duration := e_auto_archive_duration e;
     e_archived := e_archived e; e_reason := e_reason e |}.

Definition set_slowmode_delay v e :=
  {| e_name := e_name e; e_applied_tags := e_applied_tags e;
     e_slowmode_delay := Some v;
     e_auto_archive_duration := e_auto_archive_duration e;
     e_archived := e_archived e; e_reason := e_reason e |}.

Definition set_auto_archive_duration v e :=
  {| e_name := e_name e; e_applied_tags := e_applied_tags e;
     e_slowmode_delay := e_slowmode_delay e;
     e_auto_archive_duration := Some v;
     e_archived := e_archived e; e_reason := e_reason e |}.

Definition set_archived v e :=
  {| e_name := e_name e; e_applied_tags := e_applied_tags e;
     e_slowmode_delay := e_slowmode_delay e;
     e_auto_archive_duration := e_auto_archive_duration e;
     e_archived := Some v; e_reason := e_reason e |}.

Definition set_reason v e :=
  {| e_name := e_name e; e_applied_tags := e_applied_tags e;
     e_slowmode_delay := e_slowmode_delay e;
     e_auto_archive_duration := e_auto_archive_duration e;
     e_archived := e_archived e; e_reason := Some v |}.

(** What the bot posts. *)
Inductive Content :=
| TitleCaution (caution_type : pystr)  (* help-post-alert, title embed *)
| TagsCaution                          (* help-post-alert, tag embed *)
| SolvedAlert                          (* help-post-solved *)
| InactiveAlert                        (* help-post-inactive *)
| DeletionWarning.                     (* "Post scheduled for deletion" *)

Definition is_caution (c : Content) : bool :=
  match c with
  | TitleCaution _ | TagsCaution => true
  | _ => false
  end.

(** The effects of the bot on the platform, as they succeed. *)
Inductive Event :=
| EvPin (channel message : Z)
| EvSend (channel : Z) (content : Content) (message : Z)
| EvDeleteMessage (channel message : Z)
| EvEdit (thread : Z) (edits : ThreadEdits)
| EvSleep (seconds : Z)
| EvDeleteThread (thread : Z)
| EvCreateTask (thread : Z).  (* a spawned [help_thread_deletion_checks] *)

(** Exceptions. The first three are [discord.HTTPException] and two of its
    subclasses; the others are not HTTP exceptions. *)
Inductive exn :=
| NotFound
| Forbidden
| HTTPException
| LookupError
| AttributeError
| SQLAlchemyError.

Definition is_NotFound (e : exn) : bool :=
  match e with NotFound => true | _ => false end.

Definition is_HTTPException (e : exn) : bool :=
  match e with
  | NotFound | Forbidden | HTTPException => true
  | _ => false
  end.

(* ===================================================================== *)
(** * The world and the monad of the handlers *)
(* ===================================================================== *)

(** The state the extension acts on: its two tables, the messages of the
    platform (most recent first), the clock, and two devices of the model:
    [faults] scripts the outcome of the coming requests to the platform and
    to the database ([Some e]: the request raises [e]), and [log] records
    the effects that succeeded, oldest first. *)
Record World := {
  bad_help_thread_data : list BadHelpThreadData;
  inactive_help_thread_data : list InactiveHelpThreadData;
  messages : list Message;
  now : Q;
  next_message_id : Z;
  faults : list (option exn);
  log : list Event
}.

Definition set_bad v w :=
  {| bad_help_thread_data := v;
     inactive_help_thread_data := inactive_help_thread_data w;
     messages := messages w; now := now w;
     next_message_id := next_message_id w;
     faults := faults w; log := log w |}.

Definition set_inactive v w :=
  {| bad_help_thread_data := bad_help_thread_data w;
     inactive_help_thread_data := v;
     messages := messages w; now := now w;
     next_message_id := next_message_id w;
     faults := faults w; log := log w |}.

Definition set_messages v w :=
  {| bad_help_thread_data := bad_help_thread_data w;
     inactive_help_thread_data := inactive_help_thread_data w;
     messages := v; now := now w;
     next_message_id := next_message_id w;
     faults := faults w; log := log w |}.

Definition set_now v w :=
  {| bad_help_thread_data := bad_help_thread_data w;
     inactive_help_thread_data := inactive_help_thread_data w;
     messages := messages w; now := v;
     next_message_id := next_message_id w;
     faults := faults w; log := log w |}.

Definition set_next_message_id v w :=
  {| bad_help_thread_data := bad_help_thread_data w;
     inactive_help_thread_data := inactive_help_thread_data w;
     messages := messages w; now := now w;
     next_message_id := v;
     faults := faults w; log := log w |}.

Definition set_faults v w :=
  {| bad_help_thread_data := bad_help_thread_data w;
     inactive_help_thread_data := inactive_help_thread_data w;
     messages := messages w; now := now w;
     next_message_id := next_message_id w;
     faults := v; log := log w |}.

Definition emit (ev : Event) w :=
  {| bad_help_thread_data := bad_help_thread_data w;
     inactive_help_thread_data := inactive_help_thread_data w;
     messages := messages w; now := now w;
     next_message_id := next_message_id w;
     faults := faults w; log := log w ++ [ev] |}.

Inductive result (A : Type) :=
| Ok (a : A)
| Raise (e : exn).

Arguments Ok {A} a.
Arguments Raise {A} e.

Definition M (A : Type) : Type := World -> result A * World.

Definition ret {A} (a : A) : M A := fun w => (Ok a, w).

Definition bind {A B} (c : M A) (f : A -> M B) : M B :=
  fun w =>
    match c w with
    | (Ok a, w') => f a w'
    | (Raise e, w') => (Raise e, w')
    end.

Definition raise {A} (e : exn) : M A := fun w => (Raise e, w).

Declare Scope py_scope.
Delimit Scope py_scope with py.

Notation "x <- c ;; k" := (bind c (fun x => k))
  (at level 100, c at next level, right associativity) : py_scope.
Notation "' p <- c ;; k" := (bind c (fun p => k))
  (at level 100, p pattern, c at next level, right associativity) : py_scope.
Notation "c ;;; k" := (bind c (fun _ => k))
  (at level 100, right associativity) : py_scope.

Open Scope py_scope.

(** [try: body  except E: handler], where [catches] decides [E]. *)
Definition try_except {A} (body : M A) (catches : exn -> bool)
  (handler : M A) : M A :=
  fun w =>
    match body w with
    | (Ok a, w') => (Ok a, w')
    | (Raise e, w') => if catches e then handler w' else (Raise e, w')
    end.

(** [try: body  finally: final] *)
Definition try_finally {A} (body : M A) (final : M unit) : M A :=
  fun w =>
    match body w with
    | (r, w') =>
        match final w' with
        | (Ok _, w'') => (r, w'')
        | (Raise e, w'') => (Raise e, w'')
        end
    end.

Definition pass : M unit := ret tt.

(** [if c: body] *)
Definition when (c : bool) (body : M unit) : M unit :=
  if c then body else pass.

(** [for x in xs: body] *)
Fixpoint for_each {A} (xs : list A) (body : A -> M unit) : M unit :=
  match xs with
  | [] => pass
  | x :: rest => body x ;;; for_each rest body
  end.

(** A request to the platform or to the database: the next entry of the
    fault script decides whether it raises. *)
Definition request {A} (k : M A) : M A :=
  fun w =>
    match faults w with
    | Some e :: rest => (Raise e, set_faults rest w)
    | None :: rest => k (set_faults rest w)
    | [] => k w
    end.

(** [time.time()] *)
Definition time_time : M Q := fun w => (Ok (now w), w).

(** [await asyncio.sleep(seconds)] *)
Definition sleep (seconds : Z) : M unit :=
  fun w => (Ok tt, emit (EvSleep seconds) (set_now (now w + inject_Z seconds)%Q w)).

(** ** Requests to the platform *)

Definition in_channel (channel : Z) (m : Message) : bool :=
  message_channel m =? channel.

Definition is_message (channel id : Z) (m : Message) : bool :=
  in_channel channel m && (message_id m =? id).

(** [await thread.fetch_message(id)] *)
Definition fetch_message (channel id : Z) : M Message :=
  request (fun w =>
    match find (is_message channel id) (messages w) with
    | Some m => (Ok m, w)
    | None => (Raise NotFound, w)
    end).

(** [[msg async for msg in thread.history(limit=limit)]] *)
Definition history (channel : Z) (limit : Z) : M (list Message) :=
  request (fun w =>
    (Ok (firstn (Z.to_nat limit) (filter (in_channel channel) (messages w))),
     w)).

(** [await thread.send(...)]: the bot's message gets the next id and the
    current time. *)
Definition send (K : Constants) (channel : Z) (content : Content) : M Message :=
  request (fun w =>
    let m := {| message_id := next_message_id w;
                message_channel := channel;
                author_id := bot_user_id K;
                author_bot := true;
                message_type := MT_default;
                message_created_at := now w |} in
    (Ok m,
     emit (EvSend channel content (message_id m))
       (set_next_message_id (next_message_id w + 1)
          (set_messages (m :: messages w) w)))).

(** [await thread.get_partial_message(id).delete()] *)
Definition delete_message (channel id : Z) : M unit :=
  request (fun w =>
    if existsb (is_message channel id) (messages w)
    then (Ok tt,
          emit (EvDeleteMessage channel id)
            (set_messages
               (filter (fun m => negb (is_message channel id m)) (messages w))
               w))
    else (Raise NotFound, w)).

(** [await message.pin()] *)
Definition pin (m : Message) : M unit :=
  request (fun w => (Ok tt, emit (EvPin (message_channel m) (message_id m)) w)).

(** [await thread.edit(...)] with the keys of [thread_edits] *)
Definition edit (thread : Thread) (edits : ThreadEdits) : M unit :=
  request (fun w => (Ok tt, emit (EvEdit (thread_id thread) edits) w)).

(** [await thread.delete()] *)
Definition delete_thread (thread : Thread) : M unit :=
  request (fun w => (Ok tt, emit (EvDeleteThread (thread_id thread)) w)).

(** [[thr async for thr in forum_channel.archived_threads(limit=20)]] *)
Definition fetch_archived_threads (f : ForumChannel) : M (list Thread) :=
  request (ret (firstn 20 (archived_threads f))).

(** [after.guild.audit_logs(limit=20, action=thread_update)] *)
Definition fetch_audit_logs (audit : list AuditLogEntry)
  : M (list AuditLogEntry) :=
  request (ret (firstn 20 audit)).

(** ** Requests to the database

    The saves run in [async with self.db_engine.begin()], which commits
    when its block ends. The queries and the deletes run in
    [async with self.db_engine.connect()]: a connection of an
    [AsyncEngine] opens a transaction with its first statement and does
    not commit of itself, and no block of the cog calls [commit()], so
    what such a block has written is rolled back when the connection
    closes. The queries write nothing; the deletes do. The pickled set
    of ids is stored as it is. *)

(** [async with self.db_engine.connect() as conn: block], never
    committed: once the block is left the tables are as they were. *)
Definition connect {A} (block : M A) : M A :=
  fun w =>
    match block w with
    | (r, w') =>
        (r, set_inactive (inactive_help_thread_data w)
              (set_bad (bad_help_thread_data w) w'))
    end.

Definition bad_help_thread_data_exists (thread_id : Z) : M bool :=
  request (fun w =>
    (Ok (Table.select_exists bad_thread_id thread_id (bad_help_thread_data w)),
     w)).

Definition fetch_bad_help_thread_data (thread_id : Z) : M BadHelpThreadData :=
  request (fun w =>
    match Table.select_first bad_thread_id thread_id (bad_help_thread_data w)
    with
    | Some row => (Ok row, w)
    | None => (Raise LookupError, w)
    end).

Definition save_bad_help_thread_data (data : BadHelpThreadData) : M unit :=
  request (fun w =>
    (Ok tt,
     set_bad (Table.upsert bad_thread_id data (bad_help_thread_data w)) w)).

(** [DELETE FROM bad_help_thread_data WHERE thread_id == :thread_id] *)
Definition delete_bad_statement (thread_id : Z) : M unit :=
  fun w =>
    (Ok tt,
     set_bad
       (Table.delete_where bad_thread_id thread_id (bad_help_thread_data w))
       w).

Definition delete_bad_help_thread_data (thread_id : Z) : M unit :=
  request (connect (delete_bad_statement thread_id)).

Definition inactive_help_thread_data_exists (thread_id : Z) : M bool :=
  request (fun w =>
    (Ok (Table.select_exists inactive_thread_id thread_id
           (inactive_help_thread_data w)),
     w)).

Definition fetch_inactive_help_thread_data (thread_id : Z)
  : M InactiveHelpThreadData :=
  request (fun w =>
    match Table.select_first inactive_thread_id thread_id
            (inactive_help_thread_data w)
    with
    | Some row => (Ok row, w)
    | None => (Raise LookupError, w)
    end).

Definition save_inactive_help_thread_data (data : InactiveHelpThreadData)
  : M unit :=
  request (fun w =>
    (Ok tt,
     set_inactive
       (Table.upsert inactive_thread_id data (inactive_help_thread_data w))
       w)).

(** [DELETE FROM inactive_help_thread_data WHERE thread_id == :thread_id] *)
Definition delete_inactive_statement (thread_id : Z) : M unit :=
  fun w =>
    (Ok tt,
     set_inactive
       (Table.delete_where inactive_thread_id thread_id
          (inactive_help_thread_data w))
       w).

Definition delete_inactive_help_thread_data (thread_id : Z) : M unit :=
  request (connect (delete_inactive_statement thread_id)).

(* ===================================================================== *)
(** * The cog *)
(* ===================================================================== *)

Definition Qltb (x y : Q) : bool := negb (Qle_bool y x).

(** [datetime.timestamp()] of an optional [datetime]. *)
Definition timestamp (dt : option Q) : M Q :=
  match dt with
  | Some ts => ret ts
  | None => raise AttributeError
  end.

(** [discord.utils.snowflake_time(id).timestamp()], the [created_at] of a
    partial message. *)
Definition snowflake_time (id : Z) : Q :=
  (Z.shiftr id 22 + 1420070400000) # 1000.

Definition opt_id_eqb (o : option Z) (id : Z) : bool :=
  match o with
  | Some i => i =? id
  | None => false
  end.

Definition any_tag (p : string) (tags : list ForumTag) : bool :=
  existsb (tag_startswith p) tags.

(** [for tag in available_tags: if tag.name.lower().startswith("unsolved"):
      new_tags.insert(0, tag); break] *)
Definition insert_unsolved_tag (available new_tags : list ForumTag)
  : list ForumTag :=
  match find (tag_startswith "unsolved") available with
  | Some tag => tag :: new_tags
  | None => new_tags
  end.

Definition thread_title_too_short : pystr := lit "thread_title_too_short".

Definition mem_str (s : pystr) (l : list pystr) : bool :=
  existsb (PyStr.eqb s) l.

Definition nonempty {A} (l : list A) : bool :=
  match l with [] => false | _ => true end.

Section Cog.

Variable K : Constants.

Definition is_help_forum (parent : Z) : bool :=
  existsb (Z.eqb parent) (HELP_FORUM_CHANNEL_IDS_values K).

Definition is_regulars_forum (parent : Z) : bool :=
  parent =? HELP_FORUM_CHANNEL_IDS_regulars K.

(** [fetch_last_thread_message] *)
Definition fetch_last_thread_message (thread : Thread) : M (option Message) :=
  match last_message thread with
  | Some m => ret (Some m)
  | None =>
      found <-
        match last_message_id thread with
        | Some id =>
            try_except
              (m <- fetch_message (thread_id thread) id ;; ret (Some m))
              is_NotFound (ret None)
        | None => ret None
        end ;;
      match found with
      | Some m => ret (Some m)
      | None =>
          try_except
            (last_messages <- history (thread_id thread) 1 ;;
             ret (hd_error last_messages))
            is_HTTPException (ret None)
      end
  end.

(** [fetch_last_thread_activity_dt]: the same search for the last message,
    whose creation time replaces the thread's. *)
Definition fetch_last_thread_activity_dt (thread : Thread) : M (option Q) :=
  match last_message thread with
  | Some m => ret (Some (message_created_at m))
  | None =>
      found <-
        match last_message_id thread with
        | Some id =>
            try_except
              (m <- fetch_message (thread_id thread) id ;; ret (Some m))
              is_NotFound (ret None)
        | None => ret None
        end ;;
      last <-
        match found with
        | Some m => ret (Some m)
        | None =>
            try_except
              (last_messages <- history (thread_id thread) 1 ;;
               ret (hd_error last_messages))
              is_HTTPException (ret None)
        end ;;
      match last with
      | Some m => ret (Some (message_created_at m))
      | None => ret (created_at thread)
      end
  end.

(** [caution_about_help_forum_channel_thread_name(thread, *caution_types)] *)
Fixpoint caution_about_help_forum_channel_thread_name
  (thread : Thread) (caution_types : list pystr) : M (list Message) :=
  match caution_types with
  | [] => ret []
  | caution_type :: rest =>
      m <- send K (thread_id thread) (TitleCaution caution_type) ;;
      ms <- caution_about_help_forum_channel_thread_name thread rest ;;
      ret (m :: ms)
  end.

Definition caution_about_regulars_help_forum_channel_thread_tags
  (thread : Thread) : M Message :=
  send K (thread_id thread) TagsCaution.

Definition send_help_thread_solved_alert (thread : Thread) : M unit :=
  send K (thread_id thread) SolvedAlert ;;; pass.

(** [for msg in history: if not bot and default: count += 1;
      if count >= THRESHOLD: break] *)
Fixpoint count_member_messages (member_msg_count : Z) (msgs : list Message)
  : Z :=
  match msgs with
  | [] => member_msg_count
  | thread_message :: rest =>
      if negb (author_bot thread_message)
         && is_default (message_type thread_message)
      then
        let member_msg_count := member_msg_count + 1 in
        if THREAD_DELETION_MESSAGE_THRESHOLD K <=? member_msg_count
        then member_msg_count
        else count_member_messages member_msg_count rest
      else count_member_messages member_msg_count rest
  end.

(** [help_thread_deletion_checks] *)
Definition help_thread_deletion_checks (thread : Thread) : M unit :=
  try_except
    (msgs <- history (thread_id thread) (Z.max (message_count thread) 100) ;;
     let member_msg_count := count_member_messages 0 msgs in
     if member_msg_count <? THREAD_DELETION_MESSAGE_THRESHOLD K
     then
       send K (thread_id thread) DeletionWarning ;;;
       sleep 300 ;;;
       delete_thread thread
     else pass)
    is_HTTPException pass.

(** [on_message_delete]: the starter message has the id of its thread. *)
Definition on_message_delete (msg : Message) (channel : option Thread)
  : M unit :=
  match channel with
  | Some thread =>
      if is_help_forum (parent_id thread)
         && (message_id msg =? thread_id thread)
      then help_thread_deletion_checks thread
      else pass
  | None => pass
  end.

(** [on_raw_thread_delete] *)
Definition on_raw_thread_delete (thread_id : Z) : M unit :=
  exists_ <- inactive_help_thread_data_exists thread_id ;;
  when exists_ (delete_inactive_help_thread_data thread_id).

(** ** [on_thread_create]

    [parent] is the value of
    [thread.parent or self.bot.get_channel(...) or await ...], taken from
    the cache. The local variables [issues_found], [caution_messages] and
    [thread_edits] are threaded through the steps. *)

(** The title and tag checks of a new thread, with their caution
    messages; the result is [(issues_found, caution_messages,
    thread_edits)]. *)
Definition caution_new_thread (thread : Thread) (thread_edits : ThreadEdits)
  : M (bool * list Message * ThreadEdits) :=
  let caution_types :=
    get_help_forum_channel_thread_name_cautions K
      (name thread) (owner_id thread) in
  ' (issues_found, caution_messages, thread_edits) <-
    (if nonempty caution_types
     then
       msgs <- caution_about_help_forum_channel_thread_name
                 thread caution_types ;;
       ret (true, msgs,
            if mem_str thread_title_too_short caution_types
            then set_reason
                   "Slowmode penalty for the title of this help post being too short."
                   (set_slowmode_delay
                      (THREAD_TITLE_TOO_SHORT_SLOWMODE_DELAY K)
                      thread_edits)
            else thread_edits)
     else ret (false, [], thread_edits)) ;;
  ' (issues_found, caution_messages) <-
    (if is_regulars_forum (parent_id thread)
        && negb (validate_regulars_help_forum_channel_thread_tags
                   (applied_tags thread))
     then
       m <- caution_about_regulars_help_forum_channel_thread_tags thread ;;
       ret (true, caution_messages ++ [m])
     else ret (issues_found, caution_messages)) ;;
  ret (issues_found, caution_messages, thread_edits).

(** [if issues_found and not await self.bad_help_thread_data_exists(...)] *)
Definition record_new_cautions (thread : Thread) (issues_found : bool)
  (caution_messages : list Message) : M unit :=
  if issues_found
  then
    exists_ <- bad_help_thread_data_exists (thread_id thread) ;;
    when (negb exists_)
      (ts <- time_time ;;
       save_bad_help_thread_data
         {| bad_thread_id := thread_id thread;
            last_cautioned_ts := ts;
            caution_message_ids :=
              id_set (map message_id caution_messages) |})
  else pass.

Definition on_thread_create (parent : ForumChannel) (thread : Thread)
  : M unit :=
  when (is_help_forum (parent_id thread))
    (try_except
       (starter <-
          match starter_message thread with
          | Some m =>
              if message_id m =? thread_id thread then ret m
              else fetch_message (thread_id thread) (thread_id thread)
          | None => fetch_message (thread_id thread) (thread_id thread)
          end ;;
        pin starter ;;;
        let tags := applied_tags thread in
        let thread_edits :=
          if (Z.of_nat (length tags) <? FORUM_THREAD_TAG_LIMIT K)
             || ((Z.of_nat (length tags) =? FORUM_THREAD_TAG_LIMIT K)
                 && any_tag "solved" tags)
          then
            set_applied_tags
              (insert_unsolved_tag (available_tags parent)
                 (filter (fun tag => negb (tag_startswith "solved" tag)) tags))
              no_edits
          else no_edits in
        ' (issues_found, caution_messages, thread_edits) <-
          caution_new_thread thread thread_edits ;;
        record_new_cautions thread issues_found caution_messages ;;;
        let thread_edits :=
          match on_thread_create_name_edit (name thread) (owner_id thread) with
          | Some new_name => set_name new_name thread_edits
          | None => thread_edits
          end in
        when (has_edits thread_edits) (edit thread thread_edits))
       is_HTTPException pass).

(** ** [on_thread_update] *)

(** The [async for action in audit_logs] loop: the user of the first entry
    that targets the thread and has a user. *)
Definition find_updater (entries : list AuditLogEntry) (thread : Z)
  : option Z :=
  match
    find (fun action =>
            opt_id_eqb (target_id action) thread
            && match user_id action with Some _ => true | None => false end)
         entries
  with
  | Some action => user_id action
  | None => None
  end.

(** [for msg_id in ids: try: delete() except NotFound: pass] *)
Definition delete_caution_messages (thread : Thread) (ids : list Z) : M unit :=
  for_each ids
    (fun msg_id =>
       try_except (delete_message (thread_id thread) msg_id) is_NotFound pass).

(** "help thread doesn't have issues anymore": the test of the resolution
    branch, [not (caution_types := cautions(after) or (regulars and not
    valid_tags(after)))]. *)
Definition has_no_issues (after : Thread) : bool :=
  negb (nonempty (get_help_forum_channel_thread_name_cautions K
                    (name after) (owner_id after))
        || (is_regulars_forum (parent_id after)
            && negb (validate_regulars_help_forum_channel_thread_tags
                       (applied_tags after)))).

(** The name and tag checks at the head of the open branch; the result is
    [(bad_thread_name, bad_thread_tags, caution_messages, thread_edits)]. *)
Definition check_updated_thread (parent : ForumChannel) (by_other : bool)
  (before after : Thread)
  : M (bool * bool * list Message * ThreadEdits) :=
  if negb (PyStr.eqb (name before) (name after)) && by_other
  then
    let caution_types :=
      get_help_forum_channel_thread_name_cautions K
        (name after) (owner_id after) in
    if nonempty caution_types
    then
      msgs <- caution_about_help_forum_channel_thread_name
                after caution_types ;;
      ret (true, false, msgs,
           if mem_str thread_title_too_short caution_types
              && (slowmode_delay after
                  <? THREAD_TITLE_TOO_SHORT_SLOWMODE_DELAY K)
           then set_reason
                  "Slowmode penalty for the title of this help post being too short."
                  (set_slowmode_delay
                     (THREAD_TITLE_TOO_SHORT_SLOWMODE_DELAY K) no_edits)
           else if negb (mem_str thread_title_too_short caution_types)
                   && (slowmode_delay after
                       =? THREAD_TITLE_TOO_SHORT_SLOWMODE_DELAY K)
           then set_reason
                  "This help post's title is not too short anymore."
                  (set_slowmode_delay
                     (default_thread_slowmode_delay parent) no_edits)
           else no_edits)
    else ret (false, false, [], no_edits)
  else if negb (tags_eqb (applied_tags before) (applied_tags after))
          && by_other
  then
    if is_regulars_forum (parent_id after)
       && negb (validate_regulars_help_forum_channel_thread_tags
                  (applied_tags after))
    then
      m <- caution_about_regulars_help_forum_channel_thread_tags after ;;
      ret (false, true, [m], no_edits)
    else ret (false, false, [], no_edits)
  else ret (false, false, [], no_edits).

(** [if bad_thread_name or bad_thread_tags: ...]: the record is created
    when missing, then rewritten with the union of the ids. *)
Definition record_cautions (after : Thread) (caution_messages : list Message)
  : M unit :=
  exists_ <- bad_help_thread_data_exists (thread_id after) ;;
  when (negb exists_)
    (ts <- time_time ;;
     save_bad_help_thread_data
       {| bad_thread_id := thread_id after;
          last_cautioned_ts := ts;
          caution_message_ids := id_set (map message_id caution_messages) |})
  ;;;
  bad_thread_data <- fetch_bad_help_thread_data (thread_id after) ;;
  ts <- time_time ;;
  save_bad_help_thread_data
    {| bad_thread_id := thread_id after;
       last_cautioned_ts := ts;
       caution_message_ids :=
         id_union (caution_message_ids bad_thread_data)
                  (map message_id caution_messages) |}.

(** The resolution branch: the thread has a record, was not updated by the
    bot and has no issues anymore. *)
Definition resolve_cautions (parent : ForumChannel) (by_other : bool)
  (after : Thread) (thread_edits : ThreadEdits) : M ThreadEdits :=
  exists_ <- bad_help_thread_data_exists (thread_id after) ;;
  if (exists_ && by_other) && has_no_issues after
  then
    let thread_edits :=
      if slowmode_delay after =? THREAD_TITLE_TOO_SHORT_SLOWMODE_DELAY K
      then set_reason
             "This help post's title is not invalid anymore."
             (set_slowmode_delay
                (default_thread_slowmode_delay parent) thread_edits)
      else thread_edits in
    bad_thread_data <- fetch_bad_help_thread_data (thread_id after) ;;
    delete_caution_messages after (caution_message_ids bad_thread_data) ;;;
    delete_bad_help_thread_data (thread_id after) ;;;
    ret thread_edits
  else ret thread_edits.

(** The solved and unsolved transitions. *)
Definition solved_transitions (parent : ForumChannel)
  (before after : Thread) (thread_edits : ThreadEdits) : M ThreadEdits :=
  let solved_in_before := any_tag "solved" (applied_tags before) in
  let solved_in_after := any_tag "solved" (applied_tags after) in
  if negb solved_in_before && solved_in_after
  then
    let new_tags :=
      filter (fun tag => negb (tag_startswith "unsolved" tag))
             (applied_tags after) in
    send_help_thread_solved_alert after ;;;
    let thread_edits :=
      set_applied_tags new_tags
        (set_reason "This help post was marked as solved."
           (set_auto_archive_duration 60 thread_edits)) in
    exists_ <- inactive_help_thread_data_exists (thread_id after) ;;
    when exists_
      (inactive_thread_data <-
         fetch_inactive_help_thread_data (thread_id after) ;;
       try_finally
         (match alert_message_id inactive_thread_data with
          | Some id =>
              when (negb (id =? 0))
                (try_except (delete_message (thread_id after) id)
                   is_NotFound pass)
          | None => pass
          end)
         (delete_inactive_help_thread_data (thread_id after))) ;;;
    ret thread_edits
  else if solved_in_before && negb solved_in_after
  then
    let new_tags :=
      if Z.of_nat (length (applied_tags after)) <? FORUM_THREAD_TAG_LIMIT K
      then insert_unsolved_tag (available_tags parent) (applied_tags after)
      else applied_tags after in
    ret {| e_name := e_name thread_edits;
           e_applied_tags := Some new_tags;
           e_slowmode_delay :=
             if slowmode_delay after =? 60
             then Some (default_thread_slowmode_delay parent)
             else None;
           e_auto_archive_duration :=
             Some (default_auto_archive_duration parent);
           e_archived := e_archived thread_edits;
           e_reason := Some "This help post was unmarked as solved."%string |}
  else ret thread_edits.

Definition on_thread_update (parent : ForumChannel)
  (audit : list AuditLogEntry) (before after : Thread) : M unit :=
  when (is_help_forum (parent_id after))
    (try_except
       (if negb (archived after || locked after)
        then
          entries <- fetch_audit_logs audit ;;
          let updater_id := find_updater entries (thread_id after) in
          let by_other := negb (opt_id_eqb updater_id (bot_user_id K)) in
          ' (bad_thread_name, bad_thread_tags, caution_messages, thread_edits)
            <- check_updated_thread parent by_other before after ;;
          thread_edits <-
            (if bad_thread_name || bad_thread_tags
             then record_cautions after caution_messages ;;; ret thread_edits
             else
               thread_edits <-
                 resolve_cautions parent by_other after thread_edits ;;
               solved_transitions parent before after thread_edits) ;;
          when (has_edits thread_edits)
            (sleep 5 ;;; edit after thread_edits)
        else if archived after && negb (locked after)
        then
          when (any_tag "solved" (applied_tags after))
            (let thread_edits :=
               if slowmode_delay after =? default_thread_slowmode_delay parent
               then set_slowmode_delay 60 no_edits
               else no_edits in
             let thread_edits :=
               match on_thread_update_archived_name_edit
                       (name after) (owner_id after) with
               | Some new_name => set_name new_name thread_edits
               | None => thread_edits
               end in
             when (has_edits thread_edits)
               (edit after (set_archived false no_edits) ;;;
                sleep 5 ;;;
                edit after (set_archived true thread_edits)))
        else pass)
       is_HTTPException pass).

(** ** The hourly sweeps *)

(** The alert is suppressed where the thread was archived by its owner or
    by a member who may manage the forum's threads. *)
Definition alert_suppressed (forum_channel : ForumChannel)
  (help_thread : Thread) : bool :=
  archived help_thread
  && match archiver_id help_thread with
     | Some archiver =>
         negb (archiver =? 0)
         && ((archiver =? owner_id help_thread)
             || manage_threads forum_channel archiver)
     | None => false
     end.

(** The [elif] branch of the sweep: the thread is active again. When the
    recorded alert is older than the last activity and the last message is
    not a system message, the alert is deleted and the record rewritten
    without its [alert_message_id]. *)
Definition clear_inactive_alert (help_thread : Thread) (last_active : Q)
  : M unit :=
  exists_ <- inactive_help_thread_data_exists (thread_id help_thread) ;;
  if exists_
  then
    inactive_thread_data <-
      fetch_inactive_help_thread_data (thread_id help_thread) ;;
    match alert_message_id inactive_thread_data with
    | Some alert_id =>
        if negb (alert_id =? 0)
           && Qltb (snowflake_time alert_id) last_active
        then
          try_except
            (last <- fetch_last_thread_message help_thread ;;
             match last with
             | Some last_msg =>
                 if negb (is_system last_msg)
                 then
                   try_finally
                     (try_except
                        (delete_message (thread_id help_thread) alert_id)
                        is_NotFound pass)
                     (save_inactive_help_thread_data
                        {| inactive_thread_id := thread_id help_thread;
                           last_active_ts := message_created_at last_msg;
                           alert_message_id := None |})
                 else pass
             | None => pass
             end)
            is_NotFound pass
        else pass
    | None => pass
    end
  else pass.

(** One iteration of the loop of [inactive_help_thread_alert]: the body of
    [for help_thread in ...], with its [try ... except HTTPException]. *)
Definition inactive_help_thread_alert_iteration
  (forum_channel : ForumChannel) (now_ts : Q) (help_thread : Thread)
  : M unit :=
  try_except
    (match created_at help_thread with
     | None => pass
     | Some _ =>
         if negb (locked help_thread
                  || flags_pinned help_thread
                  || any_tag "solved" (applied_tags help_thread))
         then
           dt <- fetch_last_thread_activity_dt help_thread ;;
           last_active <- timestamp dt ;;
           if Qltb (inject_Z (3600 * 23 + 1800)) (now_ts - last_active)
           then
             exists_ <-
               inactive_help_thread_data_exists (thread_id help_thread) ;;
             no_fresher_alert <-
               (if negb exists_ then ret true
                else
                  inactive_thread_data <-
                    fetch_inactive_help_thread_data (thread_id help_thread) ;;
                  ret (Qltb (last_active_ts inactive_thread_data)
                            last_active)) ;;
             if no_fresher_alert
                && negb (alert_suppressed forum_channel help_thread)
             then
               alert_message <-
                 send K (thread_id help_thread) InactiveAlert ;;
               save_inactive_help_thread_data
                 {| inactive_thread_id := thread_id help_thread;
                    last_active_ts := message_created_at alert_message;
                    alert_message_id := Some (message_id alert_message) |}
             else pass
           else clear_inactive_alert help_thread last_active
         else pass
     end)
    is_HTTPException pass.

(** [inactive_help_thread_alert]; [channels] are the channels of
    [HELP_FORUM_CHANNEL_IDS.values()]. A channel that is not a forum ends
    the sweep ([return]). *)
Fixpoint inactive_help_thread_alert (channels : list Channel) : M unit :=
  match channels with
  | [] => pass
  | NotAForum :: _ => pass
  | Forum forum_channel :: rest =>
      now_ts <- time_time ;;
      archived_thrs <- fetch_archived_threads forum_channel ;;
      for_each (threads forum_channel ++ archived_thrs)
        (inactive_help_thread_alert_iteration forum_channel now_ts) ;;;
      inactive_help_thread_alert rest
  end.

(** One iteration of [delete_help_threads_without_starter_message]: only
    [discord.NotFound] is handled; the deletion checks run as a task of
    their own. *)
Definition delete_help_threads_without_starter_message_iteration
  (help_thread : Thread) : M unit :=
  starter_exists <-
    try_except
      (match starter_message help_thread with
       | Some _ => ret true
       | None =>
           fetch_message (thread_id help_thread) (thread_id help_thread) ;;;
           ret true
       end)
      is_NotFound (ret false) ;;
  if starter_exists then pass
  else fun w => (Ok tt, emit (EvCreateTask (thread_id help_thread)) w).

(** This sweep does not test the channel: a channel without [threads]
    raises [AttributeError]. *)
Fixpoint delete_help_threads_without_starter_message
  (channels : list Channel) : M unit :=
  match channels with
  | [] => pass
  | NotAForum :: _ => raise AttributeError
  | Forum forum_channel :: rest =>
      archived_thrs <- fetch_archived_threads forum_channel ;;
      for_each (threads forum_channel ++ archived_thrs)
        delete_help_threads_without_starter_message_iteration ;;;
      delete_help_threads_without_starter_message rest
  end.

(** One iteration of [force_help_thread_archive_after_timeout]. *)
Definition force_help_thread_archive_after_timeout_iteration
  (forum_channel : ForumChannel) (now_ts : Q) (help_thread : Thread)
  : M unit :=
  try_except
    (match created_at help_thread with
     | None => pass
     | Some _ =>
         if negb (archived help_thread
                  || locked help_thread
                  || flags_pinned help_thread)
         then
           dt <- fetch_last_thread_activity_dt help_thread ;;
           last_active <- timestamp dt ;;
           if Qltb (inject_Z (auto_archive_duration help_thread))
                   ((now_ts - last_active) / 60)
           then
             let thread_edits := set_archived true no_edits in
             let thread_edits :=
               if any_tag "solved" (applied_tags help_thread)
                  && (slowmode_delay help_thread
                      =? default_thread_slowmode_delay forum_channel)
               then set_slowmode_delay 60 thread_edits
               else thread_edits in
             let thread_edits :=
               match force_archive_name_edit
                       (name help_thread) (owner_id help_thread) with
               | Some new_name =>
                   set_name new_name (set_archived false thread_edits)
               | None => thread_edits
               end in
             edit help_thread
               (set_reason
                  "This help thread has been closed after exceeding its inactivity timeout."
                  thread_edits)
           else pass
         else pass
     end)
    is_HTTPException pass.

Fixpoint force_help_thread_archive_after_timeout (channels : list Channel)
  : M unit :=
  match channels with
  | [] => pass
  | NotAForum :: _ => pass
  | Forum forum_channel :: rest =>
      now_ts <- time_time ;;
      for_each (threads forum_channel)
        (force_help_thread_archive_after_timeout_iteration
           forum_channel now_ts) ;;;
      force_help_thread_archive_after_timeout rest
  end.

End Cog.

(* ===================================================================== *)
(** * Definitions used to state the properties *)
(* ===================================================================== *)

(** The classifier as the specification words it: the marker is stripped
    as a suffix. *)
Definition classify_title_spec (K : Constants) (name : pystr) (owner_id : Z)
  : list pystr :=
  filter (title_rule_matches K (normalized_title_spec name owner_id))
         (INVALID_HELP_THREAD_TITLE_TYPES K).

(** [l] lists elements of [l'] in the order of [l']. *)
Inductive in_order_of {A : Type} : list A -> list A -> Prop :=
| in_order_nil : forall l', in_order_of [] l'
| in_order_keep : forall x l l', in_order_of l l' -> in_order_of (x :: l) (x :: l')
| in_order_skip : forall x l l', in_order_of l l' -> in_order_of l (x :: l').

(** At most one row per thread id, in both tables. *)
Definition at_most_one_row_per_thread (w : World) : Prop :=
  Table.unique_keys bad_thread_id (bad_help_thread_data w)
  /\ Table.unique_keys inactive_thread_id (inactive_help_thread_data w).

(** A message of a member: not a bot's, of the default type. *)
Definition is_member_message (m : Message) : bool :=
  negb (author_bot m) && is_default (message_type m).

(** The messages [help_thread_deletion_checks] scans: the
    [max(message_count, 100)] most recent ones of the thread. *)
Definition scanned_messages (thread : Thread) (w : World) : list Message :=
  firstn (Z.to_nat (Z.max (message_count thread) 100))
         (filter (in_channel (thread_id thread)) (messages w)).

Definition member_message_count (thread : Thread) (w : World) : Z :=
  Z.of_nat (length (filter is_member_message (scanned_messages thread w))).

(** The count as the specification words it: the messages of members that
    are not system messages. *)
Definition member_message_count_spec (thread : Thread) (w : World) : Z :=
  Z.of_nat (length (filter (fun m => negb (author_bot m) && negb (is_system m))
                           (scanned_messages thread w))).

(** The conditions under which the inactivity sweep is to alert, as the
    specification lists them; [last_active] is the observed last
    activity. *)
Definition alert_due (forum_channel : ForumChannel) (now_ts : Q)
  (t : Thread) (last_active : Q) (w : World) : Prop :=
  locked t = false
  /\ flags_pinned t = false
  /\ (forall tag, In tag (applied_tags t) -> tag_startswith "solved" tag = false)
  /\ (inject_Z (23 * 3600 + 30 * 60) < now_ts - last_active)%Q
  /\ (forall r, In r (inactive_help_thread_data w) ->
                inactive_thread_id r = thread_id t ->
                ~ (last_active <= last_active_ts r)%Q)
  /\ ~ (archived t = true
        /\ exists a, archiver_id t = Some a /\ a <> 0
                     /\ (a = owner_id t \/ manage_threads forum_channel a = true)).

(** The alert is posted and its record upserted: the step from [w] to
    [w']. *)
Definition alert_posted (K : Constants) (t : Thread) (w w' : World) : Prop :=
  let alert :=
    {| message_id := next_message_id w;
       message_channel := thread_id t;
       author_id := bot_user_id K;
       author_bot := true;
       message_type := MT_default;
       message_created_at := now w |} in
  messages w' = alert :: messages w
  /\ log w' = log w ++ [EvSend (thread_id t) InactiveAlert (message_id alert)]
  /\ inactive_help_thread_data w'
     = Table.upsert inactive_thread_id
         {| inactive_thread_id := thread_id t;
            last_active_ts := message_created_at alert;
            alert_message_id := Some (message_id alert) |}
         (inactive_help_thread_data w).

(** The conditions of [inactive_help_thread_alert] as it tests them. *)
Definition alert_due_b (forum_channel : ForumChannel) (now_ts : Q)
  (t : Thread) (last_active : Q) (w : World) : bool :=
  negb (locked t || flags_pinned t || any_tag "solved" (applied_tags t))
  && Qltb (inject_Z (3600 * 23 + 1800)) (now_ts - last_active)
  && match Table.select_first inactive_thread_id (thread_id t)
             (inactive_help_thread_data w) with
     | None => true
     | Some r => Qltb (last_active_ts r) last_active
     end
  && negb (alert_suppressed forum_channel t).

(** Every scripted fault is a [discord.HTTPException]. *)
Definition http_only (fs : list (option exn)) : Prop :=
  Forall (fun f => match f with
                   | Some e => is_HTTPException e = true
                   | None => True
                   end) fs.

(** Every scripted fault is a [discord.NotFound]. *)
Definition not_found_only (fs : list (option exn)) : Prop :=
  Forall (fun f => match f with
                   | Some e => is_NotFound e = true
                   | None => True
                   end) fs.

(** [c] contains its errors as HTTP exceptions: run from a world that
    satisfies [P] and whose scripted faults are HTTP exceptions, it raises
    nothing but an HTTP exception, leaves the script so, and a value it
    returns satisfies [Q] with the world it leaves. *)
Definition http_contained {A} (P : World -> Prop) (c : M A)
  (Q : A -> World -> Prop) : Prop :=
  forall w, http_only (faults w) -> P w ->
    http_only (faults (snd (c w)))
    /\ match fst (c w) with
       | Ok a => Q a (snd (c w))
       | Raise e => is_HTTPException e = true
       end.

Definition any_world : World -> Prop := fun _ => True.
Definition any_result {A} : A -> World -> Prop := fun _ _ => True.

(** The ids of the caution messages sent to a thread, and of the messages
    deleted from it, in a list of events. *)
Fixpoint sent_cautions (thread : Z) (evs : list Event) : list Z :=
  match evs with
  | [] => []
  | EvSend channel content m :: rest =>
      if (channel =? thread) && is_caution content
      then m :: sent_cautions thread rest
      else sent_cautions thread rest
  | _ :: rest => sent_cautions thread rest
  end.

Fixpoint deleted_messages (thread : Z) (evs : list Event) : list Z :=
  match evs with
  | [] => []
  | EvDeleteMessage channel m :: rest =>
      if channel =? thread
      then m :: deleted_messages thread rest
      else deleted_messages thread rest
  | _ :: rest => deleted_messages thread rest
  end.

(** [c] leaves the caution state of a thread alone: without faults it
    raises nothing, keeps the bad-thread table and sends no caution. *)
Definition quiet {A} (thread : Z) (c : M A) : Prop :=
  forall w, faults w = [] ->
    faults (snd (c w)) = []
    /\ (exists a, fst (c w) = Ok a)
    /\ bad_help_thread_data (snd (c w)) = bad_help_thread_data w
    /\ exists evs, log (snd (c w)) = log w ++ evs
                   /\ sent_cautions thread evs = [].

(** A word: not empty, without white space. *)
Definition is_word (word : pystr) : Prop :=
  word <> [] /\ forallb (fun c => negb (isspace c)) word = true.

(** ** A configuration and sample data *)

Module Sample.

Definition too_short : pystr := thread_title_too_short.
Definition single_word : pystr := lit "single_word".

(** Two rules in the manner of the configured ones: a title of one to
    fifteen characters is too short; a title without a blank is a single
    word. *)
Definition search (c title : pystr) : bool :=
  if PyStr.eqb c too_short
  then Nat.leb 1 (length title) && Nat.leb (length title) 15
  else if PyStr.eqb c single_word
  then nonempty title && negb (contains title (lit " "))
  else false.

Definition constants : Constants :=
  {| HELP_FORUM_CHANNEL_IDS_values := [100; 200];
     HELP_FORUM_CHANNEL_IDS_regulars := 100;
     FORUM_THREAD_TAG_LIMIT := 5;
     INVALID_HELP_THREAD_TITLE_TYPES := [too_short; single_word];
     INVALID_HELP_THREAD_TITLE_SCANNING_ENABLED := fun _ => true;
     title_search := search;
     THREAD_TITLE_TOO_SHORT_SLOWMODE_DELAY := 300;
     THREAD_DELETION_MESSAGE_THRESHOLD := 2;
     bot_user_id := 1 |}.

Definition tag (id : Z) (n : string) : ForumTag :=
  {| tag_id := id; tag_name := lit n |}.

Definition issue_tag := tag 1 "issue: bug".
Definition unsolved_tag := tag 2 "Unsolved".
Definition solved_tag := tag 3 "Solved".

(** One issue tag and four aspect tags: five tags, the platform's limit. *)
Definition five_tags : list ForumTag :=
  [issue_tag; tag 11 "collisions"; tag 12 "sprites"; tag 13 "audio";
   tag 14 "fonts"].

(** The owner-id marker of owner 42 inside the title, not at its end. *)
Definition marked_inside : pystr :=
  lit "collision bug" ++ owner_id_suffix 42 ++ lit "!".

Definition forum : ForumChannel :=
  {| forum_id := 100;
     available_tags := [issue_tag; unsolved_tag; solved_tag];
     default_thread_slowmode_delay := 0;
     default_auto_archive_duration := 4320;
     threads := [];
     archived_threads := [];
     manage_threads := fun m => m =? 7 |}.

Definition thread (id : Z) (n : pystr) : Thread :=
  {| thread_id := id; parent_id := 200; name := n; owner_id := 42;
     applied_tags := [];
     archived := false; locked := false; flags_pinned := false;
     archiver_id := None; created_at := Some 0%Q;
     slowmode_delay := 0; auto_archive_duration := 4320;
     message_count := 1;
     last_message := None; last_message_id := None;
     starter_message := None |}.

Definition message (id channel : Z) (bot : bool) (ts : Q) : Message :=
  {| message_id := id; message_channel := channel;
     author_id := if bot then 1 else 42; author_bot := bot;
     message_type := MT_default; message_created_at := ts |}.

Definition world (msgs : list Message) (t : Q) (fs : list (option exn))
  : World :=
  {| bad_help_thread_data := [];
     inactive_help_thread_data := [];
     messages := msgs; now := t; next_message_id := 1000;
     faults := fs; log := [] |}.

(** A thread whose last message, of a member, dates from time 0. *)
Definition idle_thread : Thread :=
  {| thread_id := 7; parent_id := 200; name := lit "help with sprites";
     owner_id := 42; applied_tags := [unsolved_tag];
     archived := false; locked := false; flags_pinned := false;
     archiver_id := None; created_at := Some 0%Q;
     slowmode_delay := 0; auto_archive_duration := 4320;
     message_count := 1;
     last_message := Some (message 900 7 false 0%Q);
     last_message_id := Some 900;
     starter_message := None |}.

(** A member's reply: [MessageType.reply], not a system message. *)
Definition reply (id channel : Z) (ts : Q) : Message :=
  {| message_id := id; message_channel := channel;
     author_id := 43; author_bot := false;
     message_type := MT_reply; message_created_at := ts |}.

(** A thread without its starter message, holding two replies of
    members. *)
Definition replied_thread : Thread := thread 8 (lit "blit is slow").

Definition replies : list Message := [reply 802 8 20%Q; reply 801 8 10%Q].

Definition idle_thread2 : Thread :=
  {| thread_id := 9; parent_id := 200; name := lit "help with sounds";
     owner_id := 43; applied_tags := [unsolved_tag];
     archived := false; locked := false; flags_pinned := false;
     archiver_id := None; created_at := Some 0%Q;
     slowmode_delay := 0; auto_archive_duration := 4320;
     message_count := 1;
     last_message := Some (message 901 9 false 0%Q);
     last_message_id := Some 901;
     starter_message := None |}.

(** A forum with the two idle threads, and one with two threads that have
    no cached starter message. *)
Definition idle_forum : ForumChannel :=
  {| forum_id := 200;
     available_tags := [issue_tag; unsolved_tag; solved_tag];
     default_thread_slowmode_delay := 0;
     default_auto_archive_duration := 4320;
     threads := [idle_thread; idle_thread2];
     archived_threads := [];
     manage_threads := fun m => m =? 7 |}.

Definition orphan_forum : ForumChannel :=
  {| forum_id := 200;
     available_tags := [issue_tag; unsolved_tag; solved_tag];
     default_thread_slowmode_delay := 0;
     default_auto_archive_duration := 4320;
     threads := [replied_thread; thread 10 (lit "mixer does not play")];
     archived_threads := [];
     manage_threads := fun m => m =? 7 |}.

Definition idle_messages : list Message :=
  [message 901 9 false 0%Q; message 900 7 false 0%Q].

(** The thread titled "hi" of owner 42, and the thread once renamed. *)
Definition hi_thread : Thread := thread 20 (lit "hi").

Definition renamed_thread : Thread :=
  {| thread_id := 20; parent_id := 200;
     name := lit "How do I fix a collision bug in my platformer";
     owner_id := 42; applied_tags := [unsolved_tag];
     archived := false; locked := false; flags_pinned := false;
     archiver_id := None; created_at := Some 0%Q;
     slowmode_delay := 300; auto_archive_duration := 4320;
     message_count := 3;
     last_message := None; last_message_id := None;
     starter_message := None |}.

(** One day, in seconds. *)
Definition one_day : Q := inject_Z 86400.

End Sample.

(** ** Relations between the worlds before and after a run *)

(** [c] takes every world to a world related to it by [R], whatever the
    faults. *)
Definition preserves {A} (R : World -> World -> Prop) (c : M A) : Prop :=
  forall w, R w (snd (c w)).

(** A relation fit for that: reflexive, transitive, and blind to the fault
    script. *)
Record step_relation (R : World -> World -> Prop) : Prop := {
  step_refl : forall w, R w w;
  step_trans : forall w1 w2 w3, R w1 w2 -> R w2 w3 -> R w1 w3;
  step_faults : forall w fs, R w (set_faults fs w)
}.

(** The run keeps at most one row per thread id. *)
Definition rows_kept (w w' : World) : Prop :=
  at_most_one_row_per_thread w -> at_most_one_row_per_thread w'.

(** The run adds events that satisfy [P] to the log, and nothing else. *)
Definition emits (P : Event -> Prop) (w w' : World) : Prop :=
  exists evs, log w' = log w ++ evs /\ Forall P evs.

Definition same_bad (w w' : World) : Prop :=
  bad_help_thread_data w' = bad_help_thread_data w.

Definition same_inactive (w w' : World) : Prop :=
  inactive_help_thread_data w' = inactive_help_thread_data w.

Definition same_messages (w w' : World) : Prop :=
  messages w' = messages w.

(** Conjunction of relations. *)
Definition both (R1 R2 : World -> World -> Prop) (w w' : World) : Prop :=
  R1 w w' /\ R2 w w'.

(** The rows of the threads other than [thread] are as they were, in both
    tables. *)
Definition other_rows_kept (thread : Z) (w w' : World) : Prop :=
  forall id, id <> thread ->
    Table.rows_of bad_thread_id id (bad_help_thread_data w')
    = Table.rows_of bad_thread_id id (bad_help_thread_data w)
    /\ Table.rows_of inactive_thread_id id (inactive_help_thread_data w')
       = Table.rows_of inactive_thread_id id (inactive_help_thread_data w).

(** The effects within the reach of [on_thread_create] for [thread]. *)
Definition create_event (thread : Z) (ev : Event) : Prop :=
  match ev with
  | EvPin _ _ => True
  | EvSend channel content _ => channel = thread /\ is_caution content = true
  | EvEdit t _ => t = thread
  | _ => False
  end.

(** The effects within the reach of [on_thread_update] for [thread]. *)
Definition update_event (thread : Z) (ev : Event) : Prop :=
  match ev with
  | EvSend channel content _ =>
      channel = thread /\ (is_caution content = true \/ content = SolvedAlert)
  | EvDeleteMessage channel _ => channel = thread
  | EvEdit t _ => t = thread
  | EvSleep _ => True
  | _ => False
  end.

(** The effects within the reach of the three sweeps. *)
Definition alert_event (ev : Event) : Prop :=
  match ev with
  | EvSend _ InactiveAlert _ | EvDeleteMessage _ _ => True
  | _ => False
  end.

Definition archive_event (ev : Event) : Prop :=
  match ev with
  | EvEdit _ _ => True
  | _ => False
  end.

Definition task_event (ev : Event) : Prop :=
  match ev with
  | EvCreateTask _ => True
  | _ => False
  end.

(** The runs of [help_thread_deletion_checks] on [thread], from the
    warning (message [m]) on. *)
Definition deletion_run (thread m : Z) : list Event :=
  [EvSend thread DeletionWarning m; EvSleep 300; EvDeleteThread thread].

(** ** Further sample data *)

(** The first idle thread once its owner has marked it as solved. *)
Definition solved_idle_thread : Thread :=
  {| thread_id := 7; parent_id := 200; name := lit "help with sprites";
     owner_id := 42; applied_tags := [Sample.unsolved_tag; Sample.solved_tag];
     archived := false; locked := false; flags_pinned := false;
     archiver_id := None; created_at := Some 0%Q;
     slowmode_delay := 0; auto_archive_duration := 4320;
     message_count := 1;
     last_message := Some (Sample.message 900 7 false 0%Q);
     last_message_id := Some 900;
     starter_message := None |}.

(** The ids recorded for a thread in the table of cautioned threads. *)
Definition recorded_cautions (thread : Z) (w : World) : list Z :=
  match Table.select_first bad_thread_id thread (bad_help_thread_data w) with
  | Some row => caution_message_ids row
  | None => []
  end.

(** Any effect but the sending of a caution. *)
Definition no_caution_event (ev : Event) : Prop :=
  match ev with
  | EvSend _ content _ => is_caution content = false
  | _ => True
  end.

(** ** The tag edit of [on_raw_reaction_add]

    A check mark on the starter message of a help thread, put by the
    owner of the thread or by an administrator, marks the thread as
    solved. [channel] is the thread of the reaction, [msg_id] the id of
    the message reacted to, [user_id] is [payload.user_id] and
    [by_admin] the truth value of
    [payload.member and payload.member.guild_permissions.administrator]:
<<
    if channel.parent_id in HELP_FORUM_CHANNEL_IDS.values()
       and not channel.flags.pinned:
        by_op = payload.user_id == channel.owner_id
        ...
        if (msg.id == channel.id and (by_op or by_admin)
            and channel.applied_tags
            and not any(tag.name.lower() in ("solved", "invalid")
                        for tag in channel.applied_tags)
        ) and len(channel.applied_tags) < FORUM_THREAD_TAG_LIMIT:
            for tag in parent.available_tags:
                if tag.name.lower().startswith("solved"):
                    new_tags = [tg for tg in channel.applied_tags
                                if tg.name.lower() != "unsolved"]
                    new_tags.append(tag)
                    await channel.edit(reason=..., applied_tags=new_tags)
                    break
>>
    The value is the [applied_tags] of the edit, if there is one. *)

(** [tag.name.lower() in names] *)
Definition tag_named (names : list string) (tag : ForumTag) : bool :=
  existsb (fun n => PyStr.eqb (lower (tag_name tag)) (lit n)) names.

Definition reaction_add_solved_tags (K : Constants)
  (user_id : Z) (by_admin : bool) (msg_id : Z)
  (channel : Thread) (parent : ForumChannel) : option (list ForumTag) :=
  if existsb (Z.eqb (parent_id channel)) (HELP_FORUM_CHANNEL_IDS_values K)
     && negb (flags_pinned channel)
  then
    let by_op := user_id =? owner_id channel in
    if ((msg_id =? thread_id channel)
        && (by_op || by_admin)
        && nonempty (applied_tags channel)
        && negb (existsb (tag_named ["solved"; "invalid"]%string)
                   (applied_tags channel)))
       && (Z.of_nat (length (applied_tags channel))
           <? FORUM_THREAD_TAG_LIMIT K)
    then
      match find (tag_startswith "solved") (available_tags parent) with
      | Some tag =>
          Some (filter (fun tg => negb (tag_named ["unsolved"]%string tg))
                  (applied_tags channel)
                ++ [tag])
      | None => None
      end
    else None
  else None.

(** The effects that concern [thread] alone. *)
Definition thread_event (thread : Z) (ev : Event) : Prop :=
  match ev with
  | EvPin channel _ => channel = thread
  | EvSend channel _ _ => channel = thread
  | EvDeleteMessage channel _ => channel = thread
  | EvEdit t _ => t = thread
  | EvSleep _ => True
  | EvDeleteThread t => t = thread
  | EvCreateTask t => t = thread
  end.

(** An edit of the tags stays within the tag limit of the forum. *)
Definition tags_within_limit (K : Constants) (ev : Event) : Prop :=
  match ev with
  | EvEdit _ e =>
      match e_applied_tags e with
      | Some tags => Z.of_nat (length tags) <= FORUM_THREAD_TAG_LIMIT K
      | None => True
      end
  | _ => True
  end.

Definition edit_within_limit (K : Constants) (e : ThreadEdits) : Prop :=
  match e_applied_tags e with
  | Some tags => Z.of_nat (length tags) <= FORUM_THREAD_TAG_LIMIT K
  | None => True
  end.

(** ** The threads the inactivity sweep comes to

    [itertools.chain(forum_channel.threads,
       [thr async for thr in forum_channel.archived_threads(limit=20)])] *)
Definition sweep_threads (forum_channel : ForumChannel) : list Thread :=
  threads forum_channel ++ firstn 20 (archived_threads forum_channel).

(** A thread that the platform has archived of itself (no archiver), and
    a forum with twenty-one of them and no active thread. *)
Definition archived_thread (id : Z) : Thread :=
  {| thread_id := id; parent_id := 200; name := lit "an old question";
     owner_id := 42; applied_tags := [Sample.unsolved_tag];
     archived := true; locked := false; flags_pinned := false;
     archiver_id := None; created_at := Some 0%Q;
     slowmode_delay := 0; auto_archive_duration := 4320;
     message_count := 1;
     last_message := None; last_message_id := None;
     starter_message := None |}.

Definition crowded_forum : ForumChannel :=
  {| forum_id := 200;
     available_tags :=
       [Sample.issue_tag; Sample.unsolved_tag; Sample.solved_tag];
     default_thread_slowmode_delay := 0;
     default_auto_archive_duration := 4320;
     threads := [];
     archived_threads :=
       map (fun n => archived_thread (100 + Z.of_nat n)) (seq 1 21);
     manage_threads := fun m => m =? 7 |}.

(** Whether an inactivity alert was sent to [thread], in a list of
    events. *)
Definition alerted (thread : Z) (evs : list Event) : bool :=
  existsb (fun ev =>
             match ev with
             | EvSend channel InactiveAlert _ => channel =? thread
             | _ => false
             end) evs.

(* ===================================================================== *)
(** * Properties *)
(* ===================================================================== *)

(** ** Strings *)

Lemma startswith_iff (s p : pystr) :
  startswith s p = true <-> exists r, s = p ++ r.
Proof.
  revert s; induction p as [|c p IH]; intros s; simpl.
  - split; [intros _; now exists s | reflexivity].
  - destruct s as [|d s].
    + split; [discriminate | intros [r Hr]; discriminate].
    + rewrite andb_true_iff, N.eqb_eq, IH. split.
      * intros [-> [r ->]]. now exists r.
      * intros [r Hr]. injection Hr as -> ->. split; [reflexivity | now exists r].
Qed.

Lemma startswith_app (p r : pystr) : startswith (p ++ r) p = true.
Proof. apply startswith_iff. now exists r. Qed.

Lemma endswith_iff (s suf : pystr) :
  endswith s suf = true <-> exists r, s = r ++ suf.
Proof.
  unfold endswith. rewrite startswith_iff. split.
  - intros [r Hr]. exists (rev r).
    rewrite <- (rev_involutive s), Hr, rev_app_distr, rev_involutive.
    reflexivity.
  - intros [r ->]. exists (rev r). apply rev_app_distr.
Qed.

Lemma endswith_app (r suf : pystr) : endswith (r ++ suf) suf = true.
Proof. apply endswith_iff. now exists r. Qed.

Lemma eqb_eq (a b : pystr) : PyStr.eqb a b = true <-> a = b.
Proof.
  revert b; induction a as [|x a IH]; intros [|y b]; simpl;
    try (split; [discriminate | intros H; discriminate]);
    try (split; reflexivity).
  rewrite andb_true_iff, N.eqb_eq, IH. split.
  - intros [-> ->]; reflexivity.
  - intros H; injection H as -> ->; split; reflexivity.
Qed.

(** ** The tag validator *)

(** What the validator computes: the tag list is empty, or a solved or
    invalid tag exempts it, or it has exactly one issue tag and at least
    one aspect tag. The number of aspect tags has no upper bound. *)
Lemma validate_regulars_tags_iff (tags : list ForumTag) :
  validate_regulars_help_forum_channel_thread_tags tags = true <->
  tags = []
  \/ existsb (tag_startswith_any ["solved"; "invalid"]%string) tags = true
  \/ (length (filter (tag_startswith "issue") tags) = 1%nat
      /\ (1 <= length
               (filter (fun tag =>
                          negb (tag_startswith_any
                                  ["issue"; "unsolved"]%string tag))
                       tags))%nat).
Proof.
  unfold validate_regulars_help_forum_channel_thread_tags.
  destruct tags as [|t tags]; [simpl; tauto|].
  set (l := t :: tags).
  assert (Hl : l <> []) by discriminate.
  change (Nat.eqb (length l) 0) with false. cbn [negb andb].
  destruct (existsb _ l) eqn:Hex; cbn [negb].
  - tauto.
  - set (i := length (filter (tag_startswith "issue") l)).
    set (a := length (filter _ l)).
    destruct (Nat.eqb i 0) eqn:Hi; cbn [orb].
    + apply Nat.eqb_eq in Hi. split; [discriminate|].
      intros [H | [H | [H _]]]; [contradiction | discriminate | lia].
    + apply Nat.eqb_neq in Hi.
      destruct (Nat.ltb 1 i) eqn:Hi1; cbn [orb].
      * apply Nat.ltb_lt in Hi1. split; [discriminate|].
        intros [H | [H | [H _]]]; [contradiction | discriminate | lia].
      * apply Nat.ltb_ge in Hi1.
        destruct (Nat.eqb a 0) eqn:Ha.
        -- apply Nat.eqb_eq in Ha. split; [discriminate|].
           intros [H | [H | [_ H]]]; [contradiction | discriminate | lia].
        -- apply Nat.eqb_neq in Ha. split; [|reflexivity].
           intros _. right; right. lia.
Qed.

(** C1. The validator is meant to reject a selection with more than three
    aspect tags (its caution embed asks for "exactly 1 issue tag and 1-3
    aspect tags"), but it tests no upper bound: on one issue tag with four
    aspect tags it answers true, where the rule as specified answers
    false. *)
Theorem validator_accepts_four_aspect_tags :
  validate_regulars_help_forum_channel_thread_tags Sample.five_tags = true
  /\ validate_topic_tags_spec Sample.five_tags = false
  /\ length (filter (tag_startswith "issue") Sample.five_tags) = 1%nat
  /\ length (filter (fun tag =>
                       negb (tag_startswith_any
                               ["issue"; "unsolved"]%string tag))
                    Sample.five_tags) = 4%nat
  /\ Z.of_nat (length Sample.five_tags)
     = FORUM_THREAD_TAG_LIMIT Sample.constants.
Proof. repeat split; vm_compute; reflexivity. Qed.

(** ** The owner-id marker *)

Lemma owner_suffix_edit_has_owner_id (name : pystr) (owner : Z) (new : pystr) :
  owner_suffix_edit name owner = Some new -> has_owner_id new owner = true.
Proof.
  unfold owner_suffix_edit, has_owner_id.
  destruct (negb _); [|discriminate].
  intros H; injection H as <-.
  rewrite endswith_app. reflexivity.
Qed.

(** C5. On a name that ends with the owner-id suffix the rule makes no
    edit, and on every name applying the rule twice is applying it once. *)
Theorem owner_suffix_rule_idempotent (name : pystr) (owner : Z) :
  (endswith name (owner_id_suffix owner) = true ->
   owner_suffix_edit name owner = None
   /\ apply_owner_suffix_rule name owner = name)
  /\ apply_owner_suffix_rule (apply_owner_suffix_rule name owner) owner
     = apply_owner_suffix_rule name owner.
Proof.
  split.
  - intros H. unfold apply_owner_suffix_rule, owner_suffix_edit, has_owner_id.
    rewrite H. simpl. split; reflexivity.
  - unfold apply_owner_suffix_rule at 2 3.
    destruct (owner_suffix_edit name owner) as [new|] eqn:E.
    + apply owner_suffix_edit_has_owner_id in E.
      unfold apply_owner_suffix_rule, owner_suffix_edit. rewrite E.
      reflexivity.
    + unfold apply_owner_suffix_rule. rewrite E. reflexivity.
Qed.

Lemma owner_suffix_rule_idempotent_witness :
  endswith (lit "hi" ++ owner_id_suffix 42) (owner_id_suffix 42) = true
  /\ owner_suffix_edit (lit "hi" ++ owner_id_suffix 42) 42 = None.
Proof.
  split; [vm_compute; reflexivity|].
  apply (owner_suffix_rule_idempotent (lit "hi" ++ owner_id_suffix 42) 42).
  vm_compute; reflexivity.
Defined.



(** ** The unpin guard *)

(** C10. The unpin guard of [on_raw_reaction_remove] is the guard without
    its administrator clause, so the decision is the same for an
    administrator and for any other member. *)
Theorem unpin_guard_ignores_admin
  (pinned : bool) (reaction : option Z) (by_admin by_admin' : bool) :
  unpin_guard pinned reaction by_admin
  = unpin_guard_without_admin pinned reaction
  /\ unpin_guard pinned reaction by_admin
     = unpin_guard pinned reaction by_admin'.
Proof.
  assert (H : forall b, unpin_guard pinned reaction b
                        = unpin_guard_without_admin pinned reaction).
  { intros b. unfold unpin_guard, unpin_guard_without_admin.
    destruct pinned; [|reflexivity]. destruct reaction as [count|];
      [|reflexivity]. cbn [andb].
    destruct (count <? 4) eqn:H4; [reflexivity|].
    destruct (count <? 2) eqn:H2; [|reflexivity].
    apply Z.ltb_lt in H2. apply Z.ltb_ge in H4. lia. }
  split; [apply H | now rewrite !H].
Qed.

(** ** The title classifier *)

Lemma remove_aux_skip (old a b : pystr) :
  remove_aux old (length a) (a ++ b) = remove_aux old 0 b.
Proof. induction a as [|c a IH]; [reflexivity | exact IH]. Qed.

Lemma remove_absent (s old : pystr) :
  contains s old = false -> remove s old = s.
Proof.
  unfold remove. destruct old as [|o old]; [reflexivity|].
  induction s as [|c s IH]; [reflexivity|].
  intros H. cbn [contains] in H. apply orb_false_iff in H as [H1 H2].
  cbn [remove_aux]. rewrite H1, (IH H2). reflexivity.
Qed.

(** A prefix match that runs into a following [b] either stays within
    [x] or meets [b]. *)
Lemma startswith_across (b : N) (x r p : pystr) :
  startswith (x ++ b :: r) p = true -> startswith x p = true \/ In b p.
Proof.
  revert p; induction x as [|y x IH]; intros [|q p]; cbn;
    try (intros _; left; reflexivity).
  - rewrite andb_true_iff, N.eqb_eq. intros [-> _]. right; left; reflexivity.
  - rewrite !andb_true_iff. intros [Hy H]. destruct (IH _ H) as [H'|H'].
    + left; split; assumption.
    + right; right; assumption.
Qed.

Lemma remove_trailing_marker (b : N) (ds body : pystr) :
  ~ In b ds ->
  contains body (b :: ds) = false ->
  remove (body ++ b :: ds) (b :: ds) = body.
Proof.
  intros Hb. unfold remove.
  induction body as [|c body IH]; intros H.
  - assert (R : startswith (b :: ds) (b :: ds) = true).
    { apply startswith_iff. exists []. symmetry; apply app_nil_r. }
    cbn [app remove_aux]. rewrite R.
    replace (length (b :: ds) - 1)%nat with (length ds)
      by (cbn [length]; lia).
    pose proof (remove_aux_skip (b :: ds) ds []) as S.
    rewrite app_nil_r in S. exact S.
  - cbn [contains] in H. apply orb_false_iff in H as [H1 H2].
    change ((c :: body) ++ b :: ds) with (c :: (body ++ b :: ds)).
    cbn [remove_aux].
    destruct (startswith (c :: body ++ b :: ds) (b :: ds)) eqn:E.
    + exfalso. cbn in E, H1. apply andb_true_iff in E as [Ec E].
      destruct (startswith_across _ _ _ _ E) as [E'|E'];
        [|contradiction].
      rewrite Ec, E' in H1. discriminate.
    + rewrite (IH H2). reflexivity.
Qed.

Lemma BOX_not_in_lit (s : string) : ~ In BOX (lit s).
Proof.
  unfold lit. intros H. apply in_map_iff in H as [a [Ha _]].
  pose proof (N_ascii_bounded a) as Hlt. rewrite Ha in Hlt.
  unfold BOX in Hlt. lia.
Qed.

Lemma endswith_firstn (s suf : pystr) :
  endswith s suf = true ->
  s = firstn (length s - length suf) s ++ suf.
Proof.
  intros H. apply endswith_iff in H as [r ->].
  rewrite length_app, Nat.add_sub, firstn_app, Nat.sub_diag, firstn_all.
  cbn [firstn]. rewrite app_nil_r. reflexivity.
Qed.

Lemma in_order_of_filter {A} (f : A -> bool) (l : list A) :
  in_order_of (filter f l) l.
Proof.
  induction l as [|x l IH]; cbn; [constructor|].
  destruct (f x); constructor; assumption.
Qed.

Lemma split_aux_word (w cur s : pystr) :
  forallb (fun c => negb (isspace c)) w = true ->
  split_aux cur (w ++ s) = split_aux (rev w ++ cur) s.
Proof.
  revert cur; induction w as [|c w IH]; intros cur H; [reflexivity|].
  cbn in H. apply andb_true_iff in H as [Hc Hw].
  apply negb_true_iff in Hc. cbn [app split_aux rev]. rewrite Hc.
  rewrite (IH _ Hw), <- app_assoc. reflexivity.
Qed.

Lemma split_aux_words (cur s : pystr) :
  forallb (fun c => negb (isspace c)) cur = true ->
  Forall is_word (split_aux cur s).
Proof.
  assert (R : forall l, l <> [] ->
                forallb (fun c => negb (isspace c)) l = true ->
                is_word (rev l)).
  { intros l Hl Hs. split.
    - intros E. apply (f_equal (@rev N)) in E. rewrite rev_involutive in E.
      contradiction.
    - apply forallb_forall. intros c Hc. apply in_rev in Hc.
      revert c Hc. apply forallb_forall. exact Hs. }
  revert cur; induction s as [|c s IH]; intros cur H; cbn [split_aux].
  - destruct cur as [|x cur]; constructor; [|constructor].
    apply R; [discriminate | exact H].
  - destruct (isspace c) eqn:Ec.
    + destruct cur as [|x cur]; [apply IH; reflexivity|].
      constructor; [apply R; [discriminate | exact H] | apply IH; reflexivity].
    + apply IH. cbn. rewrite Ec. exact H.
Qed.

Lemma split_join (words : list pystr) :
  Forall is_word words -> split (join (lit " ") words) = words.
Proof.
  unfold split. induction 1 as [|p rest [Hp Hs] _ IH]; [reflexivity|].
  destruct rest as [|q rest].
  - cbn [join]. rewrite <- (app_nil_r p) at 1.
    rewrite (split_aux_word _ _ _ Hs), app_nil_r. cbn [split_aux].
    destruct (rev p) eqn:E.
    + apply (f_equal (@rev N)) in E. rewrite rev_involutive in E. contradiction.
    + rewrite <- E, rev_involutive. reflexivity.
  - change (join (lit " ") (p :: q :: rest))
      with (p ++ 32%N :: join (lit " ") (q :: rest)).
    rewrite (split_aux_word _ _ _ Hs), app_nil_r. cbn [split_aux].
    change (isspace 32) with true. cbn iota.
    destruct (rev p) eqn:E.
    + apply (f_equal (@rev N)) in E. rewrite rev_involutive in E. contradiction.
    + rewrite <- E, rev_involutive, IH. reflexivity.
Qed.

(** The normalised text consists of the words of the text, one blank
    between two words; normalising it again changes nothing. *)
Lemma normalized_words (s : pystr) :
  Forall is_word (split s) /\ split (join (lit " ") (split s)) = split s.
Proof.
  assert (H : Forall is_word (split s)) by (apply split_aux_words; reflexivity).
  split; [exact H | apply split_join; exact H].
Qed.

(** C4, as the code has it. The classifier removes the owner-id marker
    wherever it occurs in the name (which is stripping the suffix when the
    marker occurs nowhere else), normalises the white space (the words of
    the text, one blank between two), and returns exactly the enabled
    rules whose pattern matches the result, in the configured order. *)
Theorem title_cautions_characterised
  (K : Constants) (name : pystr) (owner : Z) :
  let title :=
    join (lit " ") (split (remove name (owner_id_suffix owner))) in
  (forall c,
     In c (get_help_forum_channel_thread_name_cautions K name owner) <->
     In c (INVALID_HELP_THREAD_TITLE_TYPES K)
     /\ INVALID_HELP_THREAD_TITLE_SCANNING_ENABLED K c = true
     /\ title_search K c title = true)
  /\ in_order_of (get_help_forum_channel_thread_name_cautions K name owner)
                 (INVALID_HELP_THREAD_TITLE_TYPES K)
  /\ (Forall is_word (split (remove name (owner_id_suffix owner)))
      /\ split title = split (remove name (owner_id_suffix owner)))
  /\ (contains (strip_owner_suffix name owner) (owner_id_suffix owner) = false ->
      get_help_forum_channel_thread_name_cautions K name owner
      = classify_title_spec K name owner).
Proof.
  cbv zeta. split; [|split; [|split]].
  - intros c. unfold get_help_forum_channel_thread_name_cautions.
    rewrite filter_In. unfold title_rule_matches, normalized_title.
    rewrite andb_true_iff. tauto.
  - apply in_order_of_filter.
  - apply normalized_words.
  - intros H.
    unfold get_help_forum_channel_thread_name_cautions, classify_title_spec,
      normalized_title, normalized_title_spec.
    f_equal. f_equal. f_equal. f_equal.
    unfold strip_owner_suffix in *.
    destruct (endswith name (owner_id_suffix owner)) eqn:E.
    + rewrite (endswith_firstn _ _ E) at 1.
      apply remove_trailing_marker; [apply BOX_not_in_lit | exact H].
    + apply remove_absent. exact H.
Qed.

Lemma title_cautions_characterised_witness :
  contains (strip_owner_suffix (lit "hi" ++ owner_id_suffix 42) 42)
           (owner_id_suffix 42) = false
  /\ get_help_forum_channel_thread_name_cautions Sample.constants
       (lit "hi" ++ owner_id_suffix 42) 42
     = classify_title_spec Sample.constants (lit "hi" ++ owner_id_suffix 42) 42
  /\ get_help_forum_channel_thread_name_cautions Sample.constants
       (lit "hi" ++ owner_id_suffix 42) 42
     = [Sample.too_short; Sample.single_word].
Proof.
  split; [vm_compute; reflexivity|]. split.
  - apply (title_cautions_characterised Sample.constants
             (lit "hi" ++ owner_id_suffix 42) 42).
    vm_compute; reflexivity.
  - vm_compute; reflexivity.
Defined.

(** C4, as it is worded, fails: with the marker inside the title the code
    removes it, which stripping a suffix does not; the normalised titles
    differ, and so does the classification under a length rule. *)
Lemma title_cautions_not_suffix_stripping :
  normalized_title Sample.marked_inside 42 = lit "collision bug!"
  /\ normalized_title_spec Sample.marked_inside 42 = Sample.marked_inside
  /\ get_help_forum_channel_thread_name_cautions Sample.constants
       Sample.marked_inside 42 = [Sample.too_short]
  /\ classify_title_spec Sample.constants Sample.marked_inside 42 = []
  /\ get_help_forum_channel_thread_name_cautions Sample.constants
       Sample.marked_inside 42
     <> classify_title_spec Sample.constants Sample.marked_inside 42.
Proof. repeat split; try (vm_compute; reflexivity). vm_compute. discriminate. Qed.

(** ** The tables *)

Section TableFacts.

Context {Row : Type}.
Variable key : Row -> Z.

Lemma select_exists_In (k : Z) (t : list Row) :
  Table.select_exists key k t = true <-> In k (map key t).
Proof.
  unfold Table.select_exists. rewrite existsb_exists, in_map_iff.
  split; intros [r [H1 H2]]; exists r.
  - apply Z.eqb_eq in H2. tauto.
  - rewrite Z.eqb_eq. tauto.
Qed.

Lemma select_exists_first (k : Z) (t : list Row) :
  Table.select_exists key k t = true ->
  exists row, Table.select_first key k t = Some row /\ key row = k.
Proof.
  unfold Table.select_exists, Table.select_first.
  induction t as [|r t IH]; cbn; [discriminate|].
  destruct (key r =? k) eqn:E.
  - intros _. exists r. apply Z.eqb_eq in E. tauto.
  - exact IH.
Qed.

(** A save on an existing key rewrites the row in place; on a new key it
    appends one row. *)
Lemma upsert_keys (new : Row) (t : list Row) :
  map key (Table.upsert key new t)
  = if Table.select_exists key (key new) t
    then map key t
    else map key t ++ [key new].
Proof.
  unfold Table.select_exists.
  induction t as [|r t IH]; cbn; [reflexivity|].
  unfold Table.conflicts. destruct (key r =? key new) eqn:E; cbn.
  - apply Z.eqb_eq in E. rewrite E. reflexivity.
  - rewrite IH. destruct (existsb _ t); reflexivity.
Qed.

Lemma upsert_unique (new : Row) (t : list Row) :
  Table.unique_keys key t -> Table.unique_keys key (Table.upsert key new t).
Proof.
  unfold Table.unique_keys. intros H. rewrite upsert_keys.
  destruct (Table.select_exists key (key new) t) eqn:E; [exact H|].
  apply NoDup_app; [exact H | repeat constructor; intros [] | ].
  intros k Hk [<-|[]].
  apply select_exists_In in Hk. congruence.
Qed.

Lemma upsert_length (new : Row) (t : list Row) :
  Table.select_exists key (key new) t = true ->
  length (Table.upsert key new t) = length t.
Proof.
  intros H. rewrite <- (length_map key), upsert_keys, H.
  apply length_map.
Qed.

Lemma rows_of_absent (k : Z) (t : list Row) :
  ~ In k (map key t) -> Table.rows_of key k t = [].
Proof.
  unfold Table.rows_of. induction t as [|r t IH]; cbn; [reflexivity|].
  intros H. destruct (key r =? k) eqn:E.
  - apply Z.eqb_eq in E. tauto.
  - apply IH. tauto.
Qed.

Lemma upsert_rows_of (new : Row) (t : list Row) :
  Table.unique_keys key t ->
  Table.rows_of key (key new) (Table.upsert key new t) = [new].
Proof.
  unfold Table.unique_keys, Table.rows_of.
  induction t as [|r t IH]; cbn; intros H.
  - rewrite Z.eqb_refl. reflexivity.
  - inversion H as [|? ? Hr Ht]; subst. unfold Table.conflicts.
    destruct (key r =? key new) eqn:E; cbn.
    + rewrite Z.eqb_refl. f_equal. apply Z.eqb_eq in E.
      apply rows_of_absent. congruence.
    + rewrite E. apply IH. exact Ht.
Qed.

Lemma upsert_rows_of_other (k : Z) (new : Row) (t : list Row) :
  k <> key new ->
  Table.rows_of key k (Table.upsert key new t) = Table.rows_of key k t.
Proof.
  unfold Table.rows_of. intros Hk.
  assert (Hn : (key new =? k) = false) by (apply Z.eqb_neq; congruence).
  induction t as [|r t IH]; cbn.
  - rewrite Hn. reflexivity.
  - unfold Table.conflicts. destruct (key r =? key new) eqn:E; cbn.
    + apply Z.eqb_eq in E. rewrite E, Hn. reflexivity.
    + rewrite IH. reflexivity.
Qed.

Lemma delete_where_keys (k : Z) (t : list Row) :
  map key (Table.delete_where key k t)
  = filter (fun k' => negb (k' =? k)) (map key t).
Proof.
  unfold Table.delete_where. induction t as [|r t IH]; cbn; [reflexivity|].
  destruct (key r =? k); cbn; rewrite IH; reflexivity.
Qed.

Lemma delete_where_unique (k : Z) (t : list Row) :
  Table.unique_keys key t ->
  Table.unique_keys key (Table.delete_where key k t).
Proof.
  unfold Table.unique_keys. rewrite delete_where_keys.
  apply NoDup_filter.
Qed.

Lemma delete_where_exists (k : Z) (t : list Row) :
  Table.select_exists key k (Table.delete_where key k t) = false.
Proof.
  destruct (Table.select_exists key k _) eqn:E; [|reflexivity].
  apply select_exists_In in E. rewrite delete_where_keys in E.
  apply filter_In in E as [_ E]. rewrite Z.eqb_refl in E. discriminate.
Qed.

Lemma delete_where_rows_of (k : Z) (t : list Row) :
  Table.rows_of key k (Table.delete_where key k t) = [].
Proof.
  apply rows_of_absent. intros H. apply select_exists_In in H.
  rewrite delete_where_exists in H. discriminate.
Qed.

Lemma delete_where_rows_of_other (k k' : Z) (t : list Row) :
  k <> k' ->
  Table.rows_of key k (Table.delete_where key k' t) = Table.rows_of key k t.
Proof.
  unfold Table.rows_of, Table.delete_where. intros Hk.
  induction t as [|r t IH]; cbn; [reflexivity|].
  destruct (key r =? k') eqn:E; cbn.
  - apply Z.eqb_eq in E.
    assert (Hn : (key r =? k) = false) by (apply Z.eqb_neq; congruence).
    rewrite Hn. exact IH.
  - rewrite IH. reflexivity.
Qed.


Lemma select_first_none (k : Z) (t : list Row) :
  Table.select_exists key k t = false -> Table.select_first key k t = None.
Proof.
  unfold Table.select_exists, Table.select_first.
  induction t as [|r t IH]; cbn; [reflexivity|].
  destruct (key r =? k); [discriminate | exact IH].
Qed.

Lemma select_first_some (k : Z) (t : list Row) (row : Row) :
  Table.select_first key k t = Some row ->
  In row t /\ key row = k /\ Table.select_exists key k t = true.
Proof.
  unfold Table.select_exists, Table.select_first.
  intros H. pose proof (find_some _ _ H) as [H1 H2].
  apply Z.eqb_eq in H2. repeat split; try assumption.
  apply existsb_exists. exists row. rewrite Z.eqb_eq. tauto.
Qed.

Lemma select_first_unique (k : Z) (t : list Row) (r : Row) :
  Table.unique_keys key t -> In r t -> key r = k ->
  Table.select_first key k t = Some r.
Proof.
  unfold Table.unique_keys, Table.select_first.
  induction t as [|x t IH]; cbn; intros U Hin Hk; [contradiction|].
  inversion U as [|? ? Hx Ut]; subst.
  destruct Hin as [->|Hin].
  - rewrite Z.eqb_refl. reflexivity.
  - destruct (key x =? key r) eqn:E.
    + apply Z.eqb_eq in E. exfalso. apply Hx. rewrite E.
      apply in_map. exact Hin.
    + apply IH; auto.
Qed.

End TableFacts.

Arguments Table.select_exists : simpl never.
Arguments Table.select_first : simpl never.
Arguments Table.upsert : simpl never.
Arguments Table.delete_where : simpl never.
Arguments Table.rows_of : simpl never.

(** ** The persistence operations *)

Ltac by_fault w :=
  unfold request; destruct (faults w) as [|[?e|] ?rest]; cbn.

(** What a block under [connect()] leaves of the tables. *)
Lemma connect_tables {A} (block : M A) (w : World) :
  bad_help_thread_data (snd (connect block w)) = bad_help_thread_data w
  /\ inactive_help_thread_data (snd (connect block w))
     = inactive_help_thread_data w
  /\ fst (connect block w) = fst (block w).
Proof. unfold connect. destruct (block w) as [r w1]. cbn. auto. Qed.

(** A delete, as a whole, changes nothing but the fault script. *)
Lemma delete_bad_rolled_back (id : Z) (w : World) :
  let w' := snd (delete_bad_help_thread_data id w) in
  bad_help_thread_data w' = bad_help_thread_data w
  /\ inactive_help_thread_data w' = inactive_help_thread_data w
  /\ messages w' = messages w /\ log w' = log w /\ now w' = now w
  /\ next_message_id w' = next_message_id w.
Proof.
  unfold delete_bad_help_thread_data, connect, delete_bad_statement.
  by_fault w; repeat split; reflexivity.
Qed.

Lemma delete_inactive_rolled_back (id : Z) (w : World) :
  let w' := snd (delete_inactive_help_thread_data id w) in
  bad_help_thread_data w' = bad_help_thread_data w
  /\ inactive_help_thread_data w' = inactive_help_thread_data w
  /\ messages w' = messages w /\ log w' = log w /\ now w' = now w
  /\ next_message_id w' = next_message_id w.
Proof.
  unfold delete_inactive_help_thread_data, connect, delete_inactive_statement.
  by_fault w; repeat split; reflexivity.
Qed.



(** ** The starter-message-deletion check *)

(** The loop with its [break] decides as the plain count does. *)
Lemma count_member_messages_below (K : Constants) (c : Z) (msgs : list Message) :
  (count_member_messages K c msgs <? THREAD_DELETION_MESSAGE_THRESHOLD K)
  = (c + Z.of_nat (length (filter is_member_message msgs))
     <? THREAD_DELETION_MESSAGE_THRESHOLD K).
Proof.
  revert c; induction msgs as [|m msgs IH]; intros c.
  - cbn. rewrite Z.add_0_r. reflexivity.
  - cbn [count_member_messages filter]. fold (is_member_message m).
    destruct (is_member_message m) eqn:Em.
    + cbn [length]. rewrite Nat2Z.inj_succ.
      destruct (THREAD_DELETION_MESSAGE_THRESHOLD K <=? c + 1) eqn:E.
      * apply Z.leb_le in E.
        transitivity false; [apply Z.ltb_ge; lia | symmetry; apply Z.ltb_ge; lia].
      * rewrite IH. f_equal. lia.
    + apply IH.
Qed.

(** X17. What the check does without a failing request: it scans the
    [max(message_count, 100)] most recent messages of the thread and
    counts those that are not a bot's and have the default type. Below the
    threshold it posts the deletion warning, waits 300 seconds and deletes
    the thread; otherwise it does nothing. *)
Lemma deletion_checks_decision (K : Constants) (thread : Thread) (w : World) :
  faults w = [] ->
  (member_message_count thread w < THREAD_DELETION_MESSAGE_THRESHOLD K ->
   fst (help_thread_deletion_checks K thread w) = Ok tt
   /\ log (snd (help_thread_deletion_checks K thread w))
      = log w ++ [EvSend (thread_id thread) DeletionWarning (next_message_id w);
                  EvSleep 300;
                  EvDeleteThread (thread_id thread)])
  /\ (THREAD_DELETION_MESSAGE_THRESHOLD K <= member_message_count thread w ->
      help_thread_deletion_checks K thread w = (Ok tt, w)).
Proof.
  intros Hf.
  pose proof (count_member_messages_below K 0 (scanned_messages thread w)) as Hc.
  rewrite Z.add_0_l in Hc. fold (member_message_count thread w) in Hc.
  unfold help_thread_deletion_checks, try_except, bind, history, request.
  rewrite Hf. fold (scanned_messages thread w). rewrite Hc.
  split; intros H.
  - apply Z.ltb_lt in H. rewrite H.
    unfold send, sleep, delete_thread, request. cbn.
    repeat (rewrite Hf; cbn).
    rewrite <- !app_assoc. split; reflexivity.
  - apply Z.ltb_ge in H. rewrite H. reflexivity.
Qed.

(** ** Running the handlers without faults *)

Lemma bind_ok {A B} (c : M A) (f : A -> M B) (w w' : World) (a : A) :
  c w = (Ok a, w') -> bind c f w = f a w'.
Proof. unfold bind. intros ->. reflexivity. Qed.

Lemma bind_raise {A B} (c : M A) (f : A -> M B) (w w' : World) (e : exn) :
  c w = (Raise e, w') -> bind c f w = (Raise e, w').
Proof. unfold bind. intros ->. reflexivity. Qed.

Lemma request_ok {A} (k : M A) (w : World) :
  faults w = [] -> request k w = k w.
Proof. unfold request. intros ->. reflexivity. Qed.

Lemma Qltb_lt (x y : Q) : Qltb x y = true <-> (x < y)%Q.
Proof.
  unfold Qltb. rewrite negb_true_iff. split.
  - intros H. apply Qnot_le_lt. intros L.
    apply Qle_bool_iff in L. congruence.
  - intros H. destruct (Qle_bool y x) eqn:E; [|reflexivity].
    apply Qle_bool_iff in E. exfalso. exact (Qlt_not_le _ _ H E).
Qed.

Lemma Qltb_ge (x y : Q) : Qltb x y = false <-> (y <= x)%Q.
Proof.
  unfold Qltb. rewrite negb_false_iff. apply Qle_bool_iff.
Qed.

(** C7. The check is to count the messages of members that are not system
    messages (its warning speaks of "messages sent by server members"),
    but it counts only messages of the default type: a member's reply is
    not counted. On a thread holding two replies of members, with a
    threshold of two, it posts the warning, waits 300 seconds and deletes
    the thread, where the count as specified reaches the threshold. *)
Theorem deletion_checks_miss_member_replies :
  let w := Sample.world Sample.replies 100%Q [] in
  THREAD_DELETION_MESSAGE_THRESHOLD Sample.constants = 2
  /\ member_message_count_spec Sample.replied_thread w = 2
  /\ member_message_count Sample.replied_thread w = 0
  /\ fst (help_thread_deletion_checks Sample.constants Sample.replied_thread w)
     = Ok tt
  /\ log (snd (help_thread_deletion_checks Sample.constants
                 Sample.replied_thread w))
     = [EvSend 8 DeletionWarning 1000; EvSleep 300; EvDeleteThread 8].
Proof. repeat split; vm_compute; reflexivity. Qed.

(** ** The inactivity sweep *)

Lemma fetch_last_thread_message_ok (t : Thread) (w : World) :
  faults w = [] -> exists r, fetch_last_thread_message t w = (Ok r, w).
Proof.
  intros Hf. unfold fetch_last_thread_message.
  destruct (last_message t) as [m|]; [eexists; reflexivity|].
  unfold try_except, bind, fetch_message, history, request, ret.
  destruct (last_message_id t) as [id|]; rewrite ?Hf.
  - destruct (find _ _); cbn; rewrite ?Hf; eexists; reflexivity.
  - cbn. rewrite ?Hf. eexists; reflexivity.
Qed.

Lemma fetch_last_thread_activity_dt_ok (t : Thread) (w : World) :
  faults w = [] ->
  exists dt, fetch_last_thread_activity_dt t w = (Ok dt, w)
             /\ (created_at t <> None -> dt <> None).
Proof.
  intros Hf. unfold fetch_last_thread_activity_dt.
  destruct (last_message t) as [m|];
    [eexists; split; [reflexivity | discriminate]|].
  unfold try_except, bind, fetch_message, history, request, ret.
  destruct (last_message_id t) as [id|]; rewrite ?Hf.
  - destruct (find _ _); cbn; rewrite ?Hf; cbn.
    + eexists; split; [reflexivity | discriminate].
    + destruct (hd_error _); eexists; split;
        try reflexivity; try discriminate; auto.
  - cbn. rewrite ?Hf. cbn.
    destruct (hd_error _); eexists; split;
      try reflexivity; try discriminate; auto.
Qed.

Lemma any_tag_false (p : string) (tags : list ForumTag) :
  any_tag p tags = false <->
  forall tag, In tag tags -> tag_startswith p tag = false.
Proof.
  unfold any_tag. split.
  - intros H tag Hin. destruct (tag_startswith p tag) eqn:E; [|reflexivity].
    assert (X : existsb (tag_startswith p) tags = true)
      by (apply existsb_exists; eauto).
    congruence.
  - intros H. destruct (existsb _ tags) eqn:E; [|reflexivity].
    apply existsb_exists in E as [tag [Hin Ht]]. rewrite (H _ Hin) in Ht.
    discriminate.
Qed.

Lemma alert_suppressed_iff (forum_channel : ForumChannel) (t : Thread) :
  alert_suppressed forum_channel t = true <->
  archived t = true
  /\ exists a, archiver_id t = Some a /\ a <> 0
               /\ (a = owner_id t \/ manage_threads forum_channel a = true).
Proof.
  unfold alert_suppressed. destruct (archived t); cbn.
  - destruct (archiver_id t) as [a|].
    + rewrite andb_true_iff, negb_true_iff, Z.eqb_neq, orb_true_iff, Z.eqb_eq.
      split.
      * intros [H1 H2]. split; [reflexivity|]. exists a. tauto.
      * intros [_ [a' [Ha H]]]. injection Ha as <-. tauto.
    + split; [discriminate|]. intros [_ [a [Ha _]]]. discriminate.
  - split; [discriminate|]. intros [H _]. discriminate.
Qed.

Lemma alert_due_b_iff (forum_channel : ForumChannel) (now_ts : Q)
  (t : Thread) (last_active : Q) (w : World) :
  Table.unique_keys inactive_thread_id (inactive_help_thread_data w) ->
  alert_due_b forum_channel now_ts t last_active w = true
  <-> alert_due forum_channel now_ts t last_active w.
Proof.
  intros U. unfold alert_due_b, alert_due.
  rewrite !andb_true_iff, negb_true_iff, !orb_false_iff, Qltb_lt,
    any_tag_false, negb_true_iff.
  change (inject_Z (3600 * 23 + 1800)) with (inject_Z (23 * 3600 + 30 * 60)).
  assert (S : alert_suppressed forum_channel t = false <->
              ~ (archived t = true
                 /\ exists a, archiver_id t = Some a /\ a <> 0
                   /\ (a = owner_id t \/ manage_threads forum_channel a = true))).
  { rewrite <- alert_suppressed_iff.
    destruct (alert_suppressed forum_channel t); split; intros H;
      try reflexivity; try discriminate; try (intros X; discriminate).
    exfalso; apply H; reflexivity. }
  rewrite S.
  assert (R : match Table.select_first inactive_thread_id (thread_id t)
                      (inactive_help_thread_data w) with
              | None => true
              | Some r => Qltb (last_active_ts r) last_active
              end = true <->
              (forall r, In r (inactive_help_thread_data w) ->
                         inactive_thread_id r = thread_id t ->
                         ~ (last_active <= last_active_ts r)%Q)).
  { split.
    - intros H r Hin Hk.
      rewrite (select_first_unique _ _ _ _ U Hin Hk) in H.
      apply Qltb_lt in H. apply Qlt_not_le. exact H.
    - intros H.
      destruct (Table.select_first _ _ _) as [r|] eqn:E; [|reflexivity].
      apply select_first_some in E as [Hin [Hk _]].
      apply Qltb_lt. apply Qnot_le_lt. apply H; assumption. }
  rewrite R. tauto.
Qed.

Lemma app_one_neq {A} (l : list A) (x : A) : l <> l ++ [x].
Proof.
  intros H. apply (f_equal (@length A)) in H.
  rewrite length_app in H. cbn in H. lia.
Qed.

Lemma app_one_inj {A} (l : list A) (x y : A) : l ++ [x] = l ++ [y] -> x = y.
Proof. intros H. apply app_inv_head in H. now injection H. Qed.

Lemma try_except_eq {A} (body : M A) (catches : exn -> bool)
  (handler : M A) (w : World) :
  try_except body catches handler w
  = match body w with
    | (Ok a, w') => (Ok a, w')
    | (Raise e, w') => if catches e then handler w' else (Raise e, w')
    end.
Proof. reflexivity. Qed.

Lemma inactive_exists_ok (id : Z) (w : World) :
  faults w = [] ->
  inactive_help_thread_data_exists id w
  = (Ok (Table.select_exists inactive_thread_id id
           (inactive_help_thread_data w)), w).
Proof. intros Hf. unfold inactive_help_thread_data_exists. now rewrite request_ok. Qed.

Lemma bad_exists_ok (id : Z) (w : World) :
  faults w = [] ->
  bad_help_thread_data_exists id w
  = (Ok (Table.select_exists bad_thread_id id (bad_help_thread_data w)), w).
Proof. intros Hf. unfold bad_help_thread_data_exists. now rewrite request_ok. Qed.

Lemma fetch_inactive_ok (id : Z) (w : World) (row : InactiveHelpThreadData) :
  faults w = [] ->
  Table.select_first inactive_thread_id id (inactive_help_thread_data w)
  = Some row ->
  fetch_inactive_help_thread_data id w = (Ok row, w).
Proof.
  intros Hf H. unfold fetch_inactive_help_thread_data.
  rewrite request_ok by assumption. now rewrite H.
Qed.

Lemma fetch_bad_ok (id : Z) (w : World) (row : BadHelpThreadData) :
  faults w = [] ->
  Table.select_first bad_thread_id id (bad_help_thread_data w) = Some row ->
  fetch_bad_help_thread_data id w = (Ok row, w).
Proof.
  intros Hf H. unfold fetch_bad_help_thread_data.
  rewrite request_ok by assumption. now rewrite H.
Qed.

(** The [elif] branch posts nothing: it leaves the log as it is or adds
    the deletion of the old alert. *)
Lemma clear_inactive_alert_log (t : Thread) (last_active : Q) (w : World) :
  faults w = [] ->
  let w' := snd (clear_inactive_alert t last_active w) in
  log w' = log w
  \/ exists id, log w' = log w ++ [EvDeleteMessage (thread_id t) id].
Proof.
  intros Hf. cbv zeta. unfold clear_inactive_alert.
  rewrite (bind_ok _ _ _ _ _ (inactive_exists_ok _ _ Hf)).
  destruct (Table.select_exists _ _ _) eqn:E; [|left; reflexivity].
  destruct (select_exists_first _ _ _ E) as [row [Hrow _]].
  rewrite (bind_ok _ _ _ _ _ (fetch_inactive_ok _ _ _ Hf Hrow)).
  destruct (alert_message_id row) as [alert_id|]; [|left; reflexivity].
  destruct (_ && _); [|left; reflexivity].
  destruct (fetch_last_thread_message_ok t w Hf) as [last Hlast].
  rewrite try_except_eq, (bind_ok _ _ _ _ _ Hlast).
  destruct last as [m|]; [|left; reflexivity].
  destruct (negb (is_system m)); [|left; reflexivity].
  unfold try_finally, try_except, delete_message,
    save_inactive_help_thread_data, request, pass, ret.
  rewrite Hf. destruct (existsb _ _); cbn; rewrite Hf; cbn.
  - right. eexists. reflexivity.
  - left. reflexivity.
Qed.

(** One iteration of the inactivity sweep. Without a failing request, on
    a thread that has a creation time, the alert is posted and its record
    upserted exactly when the thread is not locked, not pinned, has no
    solved tag, was last active more than 23 h 30 min ago, has no stored
    record at least as fresh as that activity, and the alert is not
    suppressed by an archival by the owner or a forum moderator. *)
Lemma alert_iteration_decision
  (K : Constants) (forum_channel : ForumChannel) (now_ts : Q)
  (t : Thread) (w : World) (c last_active : Q) :
  faults w = [] ->
  Table.unique_keys inactive_thread_id (inactive_help_thread_data w) ->
  created_at t = Some c ->
  fst (fetch_last_thread_activity_dt t w) = Ok (Some last_active) ->
  alert_posted K t w
    (snd (inactive_help_thread_alert_iteration K forum_channel now_ts t w))
  <-> alert_due forum_channel now_ts t last_active w.
Proof.
  intros Hf U Hc Hla.
  rewrite <- (alert_due_b_iff _ _ _ _ _ U).
  assert (Hfetch : fetch_last_thread_activity_dt t w = (Ok (Some last_active), w)).
  { destruct (fetch_last_thread_activity_dt_ok t w Hf) as [dt [E _]].
    rewrite E in Hla |- *. cbn in Hla. congruence. }
  assert (No : forall w0, w0 = w -> ~ alert_posted K t w w0).
  { intros w0 -> (_ & L & _). exact (app_one_neq _ _ L). }
  unfold inactive_help_thread_alert_iteration, try_except, alert_due_b.
  rewrite Hc.
  destruct (locked t || flags_pinned t || any_tag "solved" (applied_tags t));
    cbn [negb andb].
  { split; [intros H; exfalso; exact (No _ eq_refl H) | discriminate]. }
  rewrite (bind_ok _ _ _ _ _ Hfetch). cbn [timestamp].
  rewrite (bind_ok _ _ w w last_active eq_refl).
  destruct (Qltb (inject_Z (3600 * 23 + 1800)) (now_ts - last_active)) eqn:Q1;
    cbn [andb].
  2:{ split; [|discriminate]. intros (_ & L & _). exfalso.
      pose proof (clear_inactive_alert_log t last_active w Hf) as C.
      cbv zeta in C.
      destruct (clear_inactive_alert t last_active w) as [[u|e] w1];
        cbn [snd] in *;
        try (destruct (is_HTTPException e)); cbn [snd pass ret] in *;
        (destruct C as [C|[id C]]; rewrite C in L;
         [exact (app_one_neq _ _ L) | apply app_one_inj in L; discriminate]). }
  rewrite (bind_ok _ _ _ _ _ (inactive_exists_ok _ _ Hf)).
  assert (NF :
             (if negb (Table.select_exists inactive_thread_id (thread_id t)
                         (inactive_help_thread_data w))
              then ret true
              else inactive_thread_data <-
                     fetch_inactive_help_thread_data (thread_id t) ;;
                   ret (Qltb (last_active_ts inactive_thread_data) last_active))
               w
             = (Ok match Table.select_first inactive_thread_id (thread_id t)
                           (inactive_help_thread_data w) with
                   | None => true
                   | Some r => Qltb (last_active_ts r) last_active
                   end, w)).
  { destruct (Table.select_exists _ _ _) eqn:E; cbn [negb].
    - destruct (select_exists_first _ _ _ E) as [row [Hrow _]].
      rewrite (bind_ok _ _ _ _ _ (fetch_inactive_ok _ _ _ Hf Hrow)).
      rewrite Hrow. reflexivity.
    - rewrite (select_first_none _ _ _ E). reflexivity. }
  rewrite (bind_ok _ _ _ _ _ NF).
  destruct (_ && negb (alert_suppressed forum_channel t)) eqn:Q2.
  - split; [reflexivity|]. intros _.
    unfold bind, send, save_inactive_help_thread_data, request.
    rewrite Hf. cbn. rewrite Hf. cbn.
    unfold alert_posted. cbn. repeat split; reflexivity.
  - split; [|discriminate].
    intros H; exfalso; exact (No _ eq_refl H).
Qed.

Example alert_iteration_decision_example :
  let w := Sample.world [Sample.message 900 7 false 0%Q] Sample.one_day [] in
  alert_posted Sample.constants Sample.idle_thread w
    (snd (inactive_help_thread_alert_iteration Sample.constants Sample.forum
            Sample.one_day Sample.idle_thread w)).
Proof.
  cbv zeta.
  apply (alert_iteration_decision Sample.constants Sample.forum
           Sample.one_day Sample.idle_thread _ 0%Q 0%Q).
  - reflexivity.
  - constructor.
  - reflexivity.
  - reflexivity.
  - unfold alert_due. repeat split.
    + cbn. intros tag [<-|[]]. vm_compute. reflexivity.
    + cbn. intros r [].
    + intros [H _]. discriminate.
Qed.

(** ** Errors in the sweeps *)

Lemma http_only_tail (f : option exn) (fs : list (option exn)) :
  http_only (f :: fs) -> http_only fs.
Proof. intros H. inversion H. assumption. Qed.

Lemma http_only_head (e : exn) (fs : list (option exn)) :
  http_only (Some e :: fs) -> is_HTTPException e = true.
Proof. intros H. inversion H. assumption. Qed.

Lemma contained_ret {A} (P : World -> Prop) (Q : A -> World -> Prop) (a : A) :
  (forall w, P w -> Q a w) -> http_contained P (ret a) Q.
Proof. intros H w Hw Pw. cbn. auto. Qed.

Lemma contained_bind {A B} (P : World -> Prop) (R : A -> World -> Prop)
  (Q : B -> World -> Prop) (c : M A) (f : A -> M B) :
  http_contained P c R ->
  (forall a, http_contained (R a) (f a) Q) ->
  http_contained P (bind c f) Q.
Proof.
  intros Hc Hf w Hw Pw. destruct (Hc w Hw Pw) as [H1 H2].
  unfold bind. destruct (c w) as [[a|e] w1]; cbn in *.
  - exact (Hf a w1 H1 H2).
  - auto.
Qed.

Lemma contained_weaken {A} (P P' : World -> Prop) (Q Q' : A -> World -> Prop)
  (c : M A) :
  http_contained P c Q ->
  (forall w, P' w -> P w) -> (forall a w, Q a w -> Q' a w) ->
  http_contained P' c Q'.
Proof.
  intros Hc HP HQ w Hw Pw. destruct (Hc w Hw (HP _ Pw)) as [H1 H2].
  split; [assumption|]. destruct (fst (c w)); auto.
Qed.

Lemma contained_any {A} (P : World -> Prop) (Q : A -> World -> Prop) (c : M A) :
  http_contained any_world c Q -> http_contained P c any_result.
Proof.
  intros H. apply (contained_weaken _ _ _ _ _ H); unfold any_world, any_result; auto.
Qed.

Lemma contained_assume {A} (P : World -> Prop) (Q : A -> World -> Prop)
  (c : M A) (phi : Prop) :
  (forall w, P w -> phi) -> (phi -> http_contained P c Q) ->
  http_contained P c Q.
Proof. intros H1 H2 w Hw Pw. exact (H2 (H1 _ Pw) w Hw Pw). Qed.

Lemma contained_try_except {A} (P : World -> Prop) (Q : A -> World -> Prop)
  (body handler : M A) (catches : exn -> bool) :
  http_contained P body Q ->
  http_contained any_world handler Q ->
  http_contained P (try_except body catches handler) Q.
Proof.
  intros Hb Hh w Hw Pw. destruct (Hb w Hw Pw) as [H1 H2].
  unfold try_except. destruct (body w) as [[a|e] w1]; cbn in *.
  - auto.
  - destruct (catches e); cbn; [exact (Hh w1 H1 I) | auto].
Qed.

Lemma contained_try_finally {A} (P : World -> Prop)
  (body : M A) (final : M unit) :
  http_contained P body any_result ->
  http_contained any_world final any_result ->
  http_contained P (try_finally body final) any_result.
Proof.
  intros Hb Hf w Hw Pw. destruct (Hb w Hw Pw) as [H1 H2].
  unfold try_finally. destruct (body w) as [r w1]; cbn in *.
  destruct (Hf w1 H1 I) as [H3 H4].
  destruct (final w1) as [[u|e] w2]; cbn in *; [|auto].
  split; [assumption|]. destruct r; [exact I | assumption].
Qed.

Lemma contained_for_each {A} (xs : list A) (body : A -> M unit) :
  (forall x, http_contained any_world (body x) any_result) ->
  http_contained any_world (for_each xs body) any_result.
Proof.
  intros H. induction xs as [|x xs IH]; cbn [for_each].
  - apply contained_ret. auto.
  - eapply contained_bind; [apply H | intros u; exact IH].
Qed.

(** A request whose body neither raises nor touches the fault script. *)
Lemma contained_request {A} (P : World -> Prop) (Q : A -> World -> Prop)
  (k : M A) :
  (forall w fs, P w ->
     match k (set_faults fs w) with
     | (Ok a, w') => faults w' = fs /\ Q a w'
     | (Raise e, w') => faults w' = fs /\ is_HTTPException e = true
     end) ->
  http_contained P (request k) Q.
Proof.
  intros H w Hw Pw. unfold request.
  destruct (faults w) as [|[e|] fs] eqn:E.
  - specialize (H w [] Pw).
    replace (set_faults [] w) with w in H
      by (destruct w; cbn in E; subst; reflexivity).
    destruct (k w) as [[a|e] w1]; cbn; destruct H as [H1 H2]; rewrite H1;
      split; try constructor; assumption.
  - cbn. split; [exact (http_only_tail _ _ Hw) | exact (http_only_head _ _ Hw)].
  - specialize (H w fs Pw). apply http_only_tail in Hw.
    destruct (k (set_faults fs w)) as [[a|e] w1]; cbn;
      destruct H as [H1 H2]; rewrite H1; split; assumption.
Qed.

Ltac by_request :=
  apply contained_request; intros ?w ?fs ?Pw; cbn;
  repeat match goal with
         | |- context [match ?x with _ => _ end] =>
             lazymatch x with
             | context [match _ with _ => _ end] => fail
             | _ => destruct x eqn:?; cbn
             end
         end;
  repeat split; auto.

Lemma contained_fetch_message (P : World -> Prop) (channel id : Z) :
  http_contained P (fetch_message channel id) any_result.
Proof. unfold fetch_message. by_request. Qed.

Lemma contained_history (P : World -> Prop) (channel limit : Z) :
  http_contained P (history channel limit) any_result.
Proof. unfold history. by_request. Qed.

Lemma contained_send (P : World -> Prop) (K : Constants) (channel : Z)
  (content : Content) :
  http_contained P (send K channel content) any_result.
Proof. unfold send. by_request. Qed.

Lemma contained_delete_message (P : World -> Prop) (channel id : Z) :
  http_contained P (delete_message channel id) any_result.
Proof. unfold delete_message. by_request. Qed.

Lemma contained_edit (P : World -> Prop) (t : Thread) (e : ThreadEdits) :
  http_contained P (edit t e) any_result.
Proof. unfold edit. by_request. Qed.

Lemma contained_save_inactive (P : World -> Prop)
  (data : InactiveHelpThreadData) :
  http_contained P (save_inactive_help_thread_data data) any_result.
Proof. unfold save_inactive_help_thread_data. by_request. Qed.

Lemma contained_inactive_exists (P : World -> Prop) (id : Z) :
  http_contained P (inactive_help_thread_data_exists id)
    (fun b w => b = Table.select_exists inactive_thread_id id
                      (inactive_help_thread_data w)).
Proof. unfold inactive_help_thread_data_exists. by_request. Qed.

(** After a positive [..._exists], the fetch finds its row: no
    [LookupError]. *)
Lemma contained_fetch_inactive (id : Z) :
  http_contained
    (fun w => Table.select_exists inactive_thread_id id
                (inactive_help_thread_data w) = true)
    (fetch_inactive_help_thread_data id) any_result.
Proof.
  unfold fetch_inactive_help_thread_data.
  apply contained_request. intros w fs Pw. cbn.
  destruct (select_exists_first _ _ _ Pw) as [row [Hrow _]].
  rewrite Hrow. split; [reflexivity | exact I].
Qed.

Lemma contained_fetch_last_thread_message (P : World -> Prop) (t : Thread) :
  http_contained P (fetch_last_thread_message t) any_result.
Proof.
  unfold fetch_last_thread_message.
  destruct (last_message t); [apply contained_ret; constructor|].
  eapply contained_bind with (R := any_result).
  - destruct (last_message_id t).
    + apply contained_try_except; [|apply contained_ret; constructor].
      eapply contained_bind; [apply contained_fetch_message|].
      intros m. apply contained_ret. constructor.
    + apply contained_ret. constructor.
  - intros [m|]; [apply contained_ret; constructor|].
    apply contained_try_except; [|apply contained_ret; constructor].
    eapply contained_bind; [apply contained_history|].
    intros ms. apply contained_ret. constructor.
Qed.

(** A thread with a creation time has a time of last activity. *)
Lemma contained_fetch_last_thread_activity_dt (P : World -> Prop) (t : Thread) :
  http_contained P (fetch_last_thread_activity_dt t)
    (fun dt _ => created_at t <> None -> dt <> None).
Proof.
  unfold fetch_last_thread_activity_dt.
  destruct (last_message t); [apply contained_ret; discriminate|].
  eapply contained_bind with (R := any_result).
  - destruct (last_message_id t).
    + apply contained_try_except; [|apply contained_ret; constructor].
      eapply contained_bind; [apply contained_fetch_message|].
      intros m. apply contained_ret. constructor.
    + apply contained_ret. constructor.
  - intros found. eapply contained_bind with (R := any_result).
    + destruct found; [apply contained_ret; constructor|].
      apply contained_try_except; [|apply contained_ret; constructor].
      eapply contained_bind; [apply contained_history|].
      intros ms. apply contained_ret. constructor.
    + intros [m|]; apply contained_ret; [discriminate | auto].
Qed.

Lemma contained_timestamp (dt : option Q) :
  dt <> None -> http_contained any_world (timestamp dt) any_result.
Proof.
  intros H. destruct dt; [|contradiction]. apply contained_ret. constructor.
Qed.

Lemma contained_clear_inactive_alert (t : Thread) (last_active : Q) :
  http_contained any_world (clear_inactive_alert t last_active) any_result.
Proof.
  unfold clear_inactive_alert.
  eapply contained_bind; [apply contained_inactive_exists|].
  intros [|]; [|apply contained_ret; constructor].
  eapply contained_bind with (R := any_result).
  { eapply contained_weaken; [apply contained_fetch_inactive| |auto].
    cbn. intros w H. symmetry. exact H. }
  intros row. destruct (alert_message_id row); [|apply contained_ret; constructor].
  destruct (_ && _); [|apply contained_ret; constructor].
  apply contained_try_except; [|apply contained_ret; constructor].
  eapply contained_bind; [apply contained_fetch_last_thread_message|].
  intros [m|]; [|apply contained_ret; constructor].
  destruct (negb _); [|apply contained_ret; constructor].
  apply contained_try_finally; [|apply contained_save_inactive].
  apply contained_try_except; [apply contained_delete_message|].
  apply contained_ret. constructor.
Qed.

Lemma contained_inactive_alert_body (K : Constants)
  (forum_channel : ForumChannel) (now_ts : Q) (t : Thread) (c : Q) :
  created_at t = Some c ->
  http_contained any_world
    (dt <- fetch_last_thread_activity_dt t ;;
     last_active <- timestamp dt ;;
     if Qltb (inject_Z (3600 * 23 + 1800)) (now_ts - last_active)
     then
       exists_ <- inactive_help_thread_data_exists (thread_id t) ;;
       no_fresher_alert <-
         (if negb exists_ then ret true
          else
            inactive_thread_data <-
              fetch_inactive_help_thread_data (thread_id t) ;;
            ret (Qltb (last_active_ts inactive_thread_data) last_active)) ;;
       if no_fresher_alert && negb (alert_suppressed forum_channel t)
       then
         alert_message <- send K (thread_id t) InactiveAlert ;;
         save_inactive_help_thread_data
           {| inactive_thread_id := thread_id t;
              last_active_ts := message_created_at alert_message;
              alert_message_id := Some (message_id alert_message) |}
       else pass
     else clear_inactive_alert t last_active)
    any_result.
Proof.
  intros Hc.
  eapply contained_bind; [apply contained_fetch_last_thread_activity_dt|].
  intros dt. cbn beta.
  apply (contained_assume _ _ _ (dt <> None)).
  { intros w H. apply H. congruence. }
  intros Hdt.
  eapply contained_bind with (R := any_result).
  { apply contained_any with (Q := any_result).
    apply contained_timestamp; assumption. }
  intros last_active.
  destruct (Qltb _ _); [|apply contained_clear_inactive_alert].
  eapply contained_bind; [apply contained_inactive_exists|].
  intros ex. eapply contained_bind with (R := any_result).
  { destruct ex; cbn [negb]; [|apply contained_ret; constructor].
    eapply contained_bind with (R := any_result).
    - eapply contained_weaken; [apply contained_fetch_inactive| |auto].
      cbn. intros w H. symmetry. exact H.
    - intros row. apply contained_ret. constructor. }
  intros nf. destruct (_ && _); [|apply contained_ret; constructor].
  eapply contained_bind; [apply contained_send|].
  intros m. apply contained_save_inactive.
Qed.

Lemma contained_archive_body (forum_channel : ForumChannel) (now_ts : Q)
  (t : Thread) (c : Q) :
  created_at t = Some c ->
  http_contained any_world
    (dt <- fetch_last_thread_activity_dt t ;;
     last_active <- timestamp dt ;;
     if Qltb (inject_Z (auto_archive_duration t))
             ((now_ts - last_active) / 60)
     then
       let thread_edits := set_archived true no_edits in
       let thread_edits :=
         if any_tag "solved" (applied_tags t)
            && (slowmode_delay t
                =? default_thread_slowmode_delay forum_channel)
         then set_slowmode_delay 60 thread_edits
         else thread_edits in
       let thread_edits :=
         match force_archive_name_edit (name t) (owner_id t) with
         | Some new_name =>
             set_name new_name (set_archived false thread_edits)
         | None => thread_edits
         end in
       edit t
         (set_reason
            "This help thread has been closed after exceeding its inactivity timeout."
            thread_edits)
     else pass)
    any_result.
Proof.
  intros Hc.
  eapply contained_bind; [apply contained_fetch_last_thread_activity_dt|].
  intros dt. cbn beta.
  apply (contained_assume _ _ _ (dt <> None)).
  { intros w H. apply H. congruence. }
  intros Hdt.
  eapply contained_bind with (R := any_result).
  { apply contained_any with (Q := any_result).
    apply contained_timestamp; assumption. }
  intros last_active.
  destruct (Qltb _ _); [|apply contained_ret; constructor].
  cbv zeta. apply contained_edit.
Qed.

(** An iteration that contains its errors as HTTP exceptions, under
    [try ... except discord.HTTPException: pass], ends normally. *)
Lemma iteration_ends_normally (body : M unit) (w : World) :
  http_contained any_world body any_result ->
  http_only (faults w) ->
  fst (try_except body is_HTTPException pass w) = Ok tt
  /\ http_only (faults (snd (try_except body is_HTTPException pass w))).
Proof.
  intros Hb Hw. destruct (Hb w Hw I) as [H1 H2].
  unfold try_except. destruct (body w) as [[[]|e] w1]; cbn in *.
  - auto.
  - rewrite H2. cbn. auto.
Qed.

Lemma inactive_iteration_ends_normally (K : Constants)
  (forum_channel : ForumChannel) (now_ts : Q) (t : Thread) (w : World) :
  http_only (faults w) ->
  fst (inactive_help_thread_alert_iteration K forum_channel now_ts t w) = Ok tt
  /\ http_only
       (faults (snd (inactive_help_thread_alert_iteration K forum_channel
                       now_ts t w))).
Proof.
  intros Hw. unfold inactive_help_thread_alert_iteration.
  apply iteration_ends_normally; [|assumption].
  destruct (created_at t) as [c|] eqn:Hc; [|apply contained_ret; constructor].
  destruct (negb _); [|apply contained_ret; constructor].
  exact (contained_inactive_alert_body K forum_channel now_ts t c Hc).
Qed.

Lemma archive_iteration_ends_normally (K : Constants)
  (forum_channel : ForumChannel) (now_ts : Q) (t : Thread) (w : World) :
  http_only (faults w) ->
  fst (force_help_thread_archive_after_timeout_iteration forum_channel
         now_ts t w) = Ok tt
  /\ http_only
       (faults (snd (force_help_thread_archive_after_timeout_iteration
                       forum_channel now_ts t w))).
Proof.
  intros Hw. unfold force_help_thread_archive_after_timeout_iteration.
  apply iteration_ends_normally; [|assumption].
  destruct (created_at t) as [c|] eqn:Hc; [|apply contained_ret; constructor].
  destruct (negb _); [|apply contained_ret; constructor].
  exact (contained_archive_body forum_channel now_ts t c Hc).
Qed.

Lemma not_found_only_tail (f : option exn) (fs : list (option exn)) :
  not_found_only (f :: fs) -> not_found_only fs.
Proof. intros H. inversion H. assumption. Qed.

(** The orphan sweep handles [discord.NotFound] only. *)
Lemma orphan_iteration_ends_normally (t : Thread) (w : World) :
  not_found_only (faults w) ->
  fst (delete_help_threads_without_starter_message_iteration t w) = Ok tt
  /\ not_found_only
       (faults (snd (delete_help_threads_without_starter_message_iteration
                       t w))).
Proof.
  intros Hw. unfold delete_help_threads_without_starter_message_iteration.
  destruct (starter_message t); [cbn; auto|].
  unfold bind, try_except, fetch_message, request, ret, pass.
  destruct (faults w) as [|[e|] fs] eqn:E.
  - destruct (find _ _); cbn; rewrite E; split; auto; constructor.
  - inversion Hw as [|? ? He Hfs]; subst. cbn. rewrite He. cbn. auto.
  - apply not_found_only_tail in Hw.
    destruct (find _ _); cbn; auto.
Qed.

Lemma for_each_app {A} (xs ys : list A) (body : A -> M unit) (w : World) :
  fst (for_each xs body w) = Ok tt ->
  for_each (xs ++ ys) body w = for_each ys body (snd (for_each xs body w)).
Proof.
  revert w; induction xs as [|x xs IH]; intros w; cbn [for_each app].
  - reflexivity.
  - unfold bind. destruct (body x w) as [[[]|e] w1]; cbn; [apply IH | discriminate].
Qed.

Lemma for_each_ends_normally {A} (Inv : World -> Prop) (body : A -> M unit) :
  (forall x w, Inv w -> fst (body x w) = Ok tt /\ Inv (snd (body x w))) ->
  forall xs w, Inv w ->
    fst (for_each xs body w) = Ok tt /\ Inv (snd (for_each xs body w)).
Proof.
  intros H xs. induction xs as [|x xs IH]; intros w Hw; cbn [for_each].
  - cbn. auto.
  - unfold bind. destruct (H x w Hw) as [H1 H2].
    destruct (body x w) as [[[]|e] w1]; cbn in *; [apply IH; assumption | discriminate].
Qed.




(** ** Flagging a thread and resolving it *)

Lemma sent_cautions_app (thread : Z) (a b : list Event) :
  sent_cautions thread (a ++ b) = sent_cautions thread a ++ sent_cautions thread b.
Proof.
  induction a as [|ev a IH]; [reflexivity|].
  destruct ev; cbn; try exact IH.
  destruct (_ && _); cbn; rewrite IH; reflexivity.
Qed.

Lemma deleted_messages_app (thread : Z) (a b : list Event) :
  deleted_messages thread (a ++ b)
  = deleted_messages thread a ++ deleted_messages thread b.
Proof.
  induction a as [|ev a IH]; [reflexivity|].
  destruct ev; cbn; try exact IH.
  destruct (_ =? _); cbn; rewrite IH; reflexivity.
Qed.

Lemma quiet_ret {A} (thread : Z) (a : A) : quiet thread (ret a).
Proof.
  intros w Hf. cbn. repeat split; eauto.
  exists []. rewrite app_nil_r. auto.
Qed.

Lemma quiet_bind {A B} (thread : Z) (c : M A) (f : A -> M B) :
  quiet thread c -> (forall a, quiet thread (f a)) -> quiet thread (bind c f).
Proof.
  intros Hc Hf w Hw. destruct (Hc w Hw) as (H1 & [a H2] & H3 & evs & H4 & H5).
  unfold bind. destruct (c w) as [r w1]; cbn in *. subst r.
  destruct (Hf a w1 H1) as (G1 & G2 & G3 & evs' & G4 & G5).
  repeat split; try assumption; try congruence.
  exists (evs ++ evs'). rewrite G4, H4, app_assoc, sent_cautions_app, H5, G5.
  auto.
Qed.

Lemma quiet_try_except {A} (thread : Z) (body handler : M A)
  (catches : exn -> bool) :
  quiet thread body -> quiet thread (try_except body catches handler).
Proof.
  intros Hb w Hw. destruct (Hb w Hw) as (H1 & [a H2] & H3 & H4).
  unfold try_except. destruct (body w) as [r w1]; cbn in *. subst r.
  cbn. repeat split; eauto.
Qed.

Lemma quiet_try_finally {A} (thread : Z) (body : M A) (final : M unit) :
  quiet thread body -> quiet thread final ->
  quiet thread (try_finally body final).
Proof.
  intros Hb Hfin w Hw.
  destruct (Hb w Hw) as (H1 & [a H2] & H3 & evs & H4 & H5).
  unfold try_finally. destruct (body w) as [r w1]; cbn in *. subst r.
  destruct (Hfin w1 H1) as (G1 & [u G2] & G3 & evs' & G4 & G5).
  destruct (final w1) as [r' w2]; cbn in *. subst r'. cbn.
  repeat split; eauto; try congruence.
  exists (evs ++ evs'). rewrite G4, H4, app_assoc, sent_cautions_app, H5, G5.
  auto.
Qed.

Lemma quiet_when (thread : Z) (b : bool) (c : M unit) :
  quiet thread c -> quiet thread (when b c).
Proof. destruct b; [auto | intros _; apply quiet_ret]. Qed.

(** A request that keeps the table, raises nothing and emits [evs]. *)
Lemma quiet_request {A} (thread : Z) (k : M A) :
  (forall w, exists a evs,
     fst (k w) = Ok a
     /\ faults (snd (k w)) = faults w
     /\ bad_help_thread_data (snd (k w)) = bad_help_thread_data w
     /\ log (snd (k w)) = log w ++ evs
     /\ sent_cautions thread evs = []) ->
  quiet thread (request k).
Proof.
  intros H w Hw. rewrite request_ok by assumption.
  destruct (H w) as (a & evs & H1 & H2 & H3 & H4 & H5).
  repeat split; eauto; congruence.
Qed.

Ltac quiet_prim :=
  apply quiet_request; intros ?w; cbn;
  repeat match goal with
         | |- context [match ?x with _ => _ end] =>
             lazymatch x with
             | context [match _ with _ => _ end] => fail
             | _ => destruct x eqn:?; cbn
             end
         end;
  first [ eexists; exists []; rewrite app_nil_r; repeat split; reflexivity
        | eexists; eexists; repeat split; reflexivity ].

Lemma quiet_send (thread : Z) (K : Constants) (channel : Z) (content : Content) :
  is_caution content = false -> quiet thread (send K channel content).
Proof.
  intros H. unfold send. apply quiet_request. intros w. cbn.
  eexists; eexists. repeat split; try reflexivity.
  cbn. rewrite H, andb_false_r. reflexivity.
Qed.

Lemma quiet_edit (thread : Z) (t : Thread) (e : ThreadEdits) :
  quiet thread (edit t e).
Proof. unfold edit. quiet_prim. Qed.

Lemma quiet_sleep (thread : Z) (n : Z) : quiet thread (sleep n).
Proof.
  intros w Hw. cbn. repeat split; eauto.
Qed.

Lemma quiet_inactive_exists (thread id : Z) :
  quiet thread (inactive_help_thread_data_exists id).
Proof. unfold inactive_help_thread_data_exists. quiet_prim. Qed.

Lemma quiet_delete_inactive (thread id : Z) :
  quiet thread (delete_inactive_help_thread_data id).
Proof. unfold delete_inactive_help_thread_data. quiet_prim. Qed.

(** Deleting a message, with [discord.NotFound] handled. *)
Lemma quiet_delete_message (thread channel id : Z) :
  quiet thread (try_except (delete_message channel id) is_NotFound pass).
Proof.
  intros w Hw. unfold try_except, delete_message.
  rewrite request_ok by assumption.
  destruct (existsb _ _); cbn; repeat split; eauto.
  exists []. rewrite app_nil_r. auto.
Qed.

Lemma quiet_exists_fetch {B} (thread id : Z)
  (k : InactiveHelpThreadData -> M unit) (g : unit -> M B) :
  (forall row, quiet thread (k row)) -> (forall u, quiet thread (g u)) ->
  quiet thread
    (exists_ <- inactive_help_thread_data_exists id ;;
     u <- when exists_ (row <- fetch_inactive_help_thread_data id ;; k row) ;;
     g u).
Proof.
  intros Hk Hg w Hw.
  rewrite (bind_ok _ _ _ _ _ (inactive_exists_ok _ _ Hw)).
  destruct (Table.select_exists _ _ _) eqn:E; cbn [when].
  - destruct (select_exists_first _ _ _ E) as [row [Hrow _]].
    pose proof (quiet_bind _ _ _ (Hk row) Hg w Hw) as X.
    unfold bind in X |- *.
    rewrite (fetch_inactive_ok _ _ _ Hw Hrow). exact X.
  - exact (Hg tt w Hw).
Qed.

Lemma quiet_solved_transitions (K : Constants) (parent : ForumChannel)
  (before after : Thread) (thread_edits : ThreadEdits) (thread : Z) :
  quiet thread (solved_transitions K parent before after thread_edits).
Proof.
  unfold solved_transitions. cbv zeta.
  destruct (negb _ && _).
  - apply quiet_bind.
    + unfold send_help_thread_solved_alert.
      apply quiet_bind; [apply quiet_send; reflexivity | intros _; apply quiet_ret].
    + intros _. apply quiet_exists_fetch; [|intros _; apply quiet_ret].
      intros row. apply quiet_try_finally; [|apply quiet_delete_inactive].
      destruct (alert_message_id row); [|apply quiet_ret].
      apply quiet_when. apply quiet_delete_message.
  - destruct (_ && _); apply quiet_ret.
Qed.

Lemma quiet_batch_edit (thread : Z) (after : Thread) (thread_edits : ThreadEdits) :
  quiet thread
    (when (has_edits thread_edits) (sleep 5 ;;; edit after thread_edits)).
Proof.
  apply quiet_when. apply quiet_bind; [apply quiet_sleep|].
  intros _. apply quiet_edit.
Qed.

(** The caution messages of a title: one per caution type, with the ids
    from the counter on. *)
Lemma caution_about_name_ok (K : Constants) (t : Thread)
  (types : list pystr) (w : World) :
  faults w = [] ->
  exists msgs w',
    caution_about_help_forum_channel_thread_name K t types w = (Ok msgs, w')
    /\ faults w' = []
    /\ bad_help_thread_data w' = bad_help_thread_data w
    /\ now w' = now w
    /\ (length msgs = length types)
    /\ (exists evs, log w' = log w ++ evs
                    /\ sent_cautions (thread_id t) evs = map message_id msgs
                    /\ deleted_messages (thread_id t) evs = [])
    /\ (forall m, In m msgs ->
          existsb (is_message (thread_id t) (message_id m)) (messages w') = true)
    /\ (forall id, existsb (is_message (thread_id t) id) (messages w) = true ->
          existsb (is_message (thread_id t) id) (messages w') = true).
Proof.
  revert w; induction types as [|c types IH]; intros w Hf;
    cbn [caution_about_help_forum_channel_thread_name].
  - exists [], w. repeat split; auto; try (intros m []).
    exists []. rewrite app_nil_r. auto.
  - set (m := {| message_id := next_message_id w;
                 message_channel := thread_id t;
                 author_id := bot_user_id K; author_bot := true;
                 message_type := MT_default;
                 message_created_at := now w |}).
    set (w1 := emit (EvSend (thread_id t) (TitleCaution c) (message_id m))
                 (set_next_message_id (next_message_id w + 1)
                    (set_messages (m :: messages w) w))).
    assert (S : send K (thread_id t) (TitleCaution c) w = (Ok m, w1)).
    { unfold send. rewrite request_ok by assumption. reflexivity. }
    rewrite (bind_ok _ _ _ _ _ S).
    destruct (IH w1 Hf) as
      (msgs & w' & E & F1 & F2 & F3 & F4 & (evs & F5 & F6 & F7) & F8 & F9).
    rewrite (bind_ok _ _ _ _ _ E). cbn [ret].
    assert (Hm : existsb (is_message (thread_id t) (message_id m)) (messages w1)
                 = true).
    { cbn. unfold is_message, in_channel. cbn. rewrite !Z.eqb_refl. reflexivity. }
    exists (m :: msgs), w'. repeat split; auto.
    + cbn. congruence.
    + exists (EvSend (thread_id t) (TitleCaution c) (message_id m) :: evs).
      rewrite F5. cbn. rewrite Z.eqb_refl, F6, F7, <- app_assoc. auto.
    + intros m' [<-|H]; [apply F9; exact Hm | apply F8; exact H].
    + intros id H. apply F9. cbn. rewrite H. apply orb_true_r.
Qed.

Lemma send_ok (K : Constants) (channel : Z) (content : Content) (w : World) :
  faults w = [] ->
  send K channel content w
  = (Ok {| message_id := next_message_id w;
           message_channel := channel;
           author_id := bot_user_id K; author_bot := true;
           message_type := MT_default;
           message_created_at := now w |},
     emit (EvSend channel content (next_message_id w))
       (set_next_message_id (next_message_id w + 1)
          (set_messages
             ({| message_id := next_message_id w;
                 message_channel := channel;
                 author_id := bot_user_id K; author_bot := true;
                 message_type := MT_default;
                 message_created_at := now w |} :: messages w) w))).
Proof. intros Hf. unfold send. rewrite request_ok by assumption. reflexivity. Qed.

Lemma caution_new_thread_ok (K : Constants) (t : Thread)
  (thread_edits : ThreadEdits) (w : World) :
  faults w = [] ->
  exists issues msgs edits w',
    caution_new_thread K t thread_edits w = (Ok (issues, msgs, edits), w')
    /\ faults w' = []
    /\ bad_help_thread_data w' = bad_help_thread_data w
    /\ now w' = now w
    /\ (exists evs, log w' = log w ++ evs
                    /\ sent_cautions (thread_id t) evs = map message_id msgs
                    /\ deleted_messages (thread_id t) evs = [])
    /\ (forall m, In m msgs ->
          existsb (is_message (thread_id t) (message_id m)) (messages w') = true).
Proof.
  intros Hf. unfold caution_new_thread. cbv zeta.
  set (types := get_help_forum_channel_thread_name_cautions K (name t) (owner_id t)).
  assert (A : exists issues msgs edits w',
             (if nonempty types
              then
                msgs <- caution_about_help_forum_channel_thread_name K t types ;;
                ret (true, msgs,
                     if mem_str thread_title_too_short types
                     then set_reason
                            "Slowmode penalty for the title of this help post being too short."
                            (set_slowmode_delay
                               (THREAD_TITLE_TOO_SHORT_SLOWMODE_DELAY K)
                               thread_edits)
                     else thread_edits)
              else ret (false, [], thread_edits)) w
             = (Ok (issues, msgs, edits), w')
             /\ faults w' = []
             /\ bad_help_thread_data w' = bad_help_thread_data w
             /\ now w' = now w
             /\ (exists evs, log w' = log w ++ evs
                   /\ sent_cautions (thread_id t) evs = map message_id msgs
                   /\ deleted_messages (thread_id t) evs = [])
             /\ (forall m, In m msgs ->
                   existsb (is_message (thread_id t) (message_id m))
                     (messages w') = true)).
  { destruct (nonempty types).
    - destruct (caution_about_name_ok K t types w Hf)
        as (msgs & w' & E & F1 & F2 & F3 & _ & F5 & F8 & _).
      rewrite (bind_ok _ _ _ _ _ E).
      do 4 eexists. split; [reflexivity|]. auto.
    - exists false, [], thread_edits, w. repeat split; auto; try (intros m []).
      exists []. rewrite app_nil_r. auto. }
  destruct A as (issues & msgs & edits & wA & E & F1 & F2 & F3
                   & (evs & F5 & F6 & F7) & F8).
  rewrite (bind_ok _ _ _ _ _ E). cbn beta iota.
  destruct (_ && _).
  - unfold caution_about_regulars_help_forum_channel_thread_tags, bind.
    rewrite (send_ok K _ _ _ F1). cbn [ret].
    do 4 eexists. split; [reflexivity|]. cbn.
    repeat split; auto.
    + exists (evs ++ [EvSend (thread_id t) TagsCaution (next_message_id wA)]).
      rewrite F5, <- app_assoc, sent_cautions_app, deleted_messages_app,
        F6, F7, map_app.
      cbn. rewrite Z.eqb_refl. auto.
    + intros m Hin. apply in_app_or in Hin as [Hin|[<-|[]]].
      * rewrite (F8 _ Hin). apply orb_true_r.
      * cbn. unfold is_message, in_channel. cbn. rewrite !Z.eqb_refl.
        reflexivity.
  - unfold bind, ret. do 4 eexists. split; [reflexivity|].
    repeat split; auto. exists evs. auto.
Qed.

Lemma upsert_select_first_new {Row : Type} (key : Row -> Z) (new : Row)
  (t : list Row) :
  Table.select_exists key (key new) t = false ->
  Table.select_first key (key new) (Table.upsert key new t) = Some new.
Proof.
  unfold Table.select_exists, Table.select_first, Table.upsert.
  induction t as [|r t IH]; cbn; intros H.
  - rewrite Z.eqb_refl. reflexivity.
  - apply orb_false_iff in H as [H1 H2]. unfold Table.conflicts.
    rewrite H1. cbn. rewrite H1. apply IH. exact H2.
Qed.

Lemma bind_assoc {A B C} (c : M A) (f : A -> M B) (g : B -> M C) (w : World) :
  bind (bind c f) g w = bind c (fun a => bind (f a) g) w.
Proof. unfold bind. destruct (c w) as [[a|e] w1]; reflexivity. Qed.

Lemma time_time_ok (w : World) : time_time w = (Ok (now w), w).
Proof. reflexivity. Qed.

Lemma pin_ok (m : Message) (w : World) :
  faults w = [] ->
  pin m w = (Ok tt, emit (EvPin (message_channel m) (message_id m)) w).
Proof. intros Hf. unfold pin. now rewrite request_ok. Qed.

Lemma edit_ok (t : Thread) (e : ThreadEdits) (w : World) :
  faults w = [] -> edit t e w = (Ok tt, emit (EvEdit (thread_id t) e) w).
Proof. intros Hf. unfold edit. now rewrite request_ok. Qed.

Lemma save_bad_ok (data : BadHelpThreadData) (w : World) :
  faults w = [] ->
  save_bad_help_thread_data data w
  = (Ok tt, set_bad (Table.upsert bad_thread_id data (bad_help_thread_data w)) w).
Proof. intros Hf. unfold save_bad_help_thread_data. now rewrite request_ok. Qed.

(** The [DELETE] is rolled back: the world is as it was. *)
Lemma delete_bad_ok (id : Z) (w : World) :
  faults w = [] -> delete_bad_help_thread_data id w = (Ok tt, w).
Proof.
  intros Hf. unfold delete_bad_help_thread_data.
  rewrite request_ok by assumption.
  unfold connect, delete_bad_statement. destruct w; reflexivity.
Qed.

(** A new thread that [on_thread_create] leaves with a record was
    cautioned, and the record holds the ids of the cautions sent, which
    are in the thread. *)
Lemma on_thread_create_flags (K : Constants) (parent : ForumChannel)
  (t : Thread) (w0 : World) :
  faults w0 = [] ->
  Table.select_exists bad_thread_id (thread_id t) (bad_help_thread_data w0)
  = false ->
  Table.select_exists bad_thread_id (thread_id t)
    (bad_help_thread_data (snd (on_thread_create K parent t w0))) = true ->
  faults (snd (on_thread_create K parent t w0)) = []
  /\ exists ids ts evs,
       Table.select_first bad_thread_id (thread_id t)
         (bad_help_thread_data (snd (on_thread_create K parent t w0)))
       = Some {| bad_thread_id := thread_id t;
                 last_cautioned_ts := ts;
                 caution_message_ids := id_set ids |}
       /\ log (snd (on_thread_create K parent t w0)) = log w0 ++ evs
       /\ sent_cautions (thread_id t) evs = ids
       /\ deleted_messages (thread_id t) evs = []
       /\ (forall id, In id ids ->
             existsb (is_message (thread_id t) id)
               (messages (snd (on_thread_create K parent t w0))) = true).
Proof.
  intros Hf Hnew. unfold on_thread_create.
  destruct (is_help_forum K (parent_id t)); cbn [when pass ret snd];
    [|congruence].
  rewrite try_except_eq.
  set (starter_step :=
         match starter_message t with
         | Some m =>
             if message_id m =? thread_id t then ret m
             else fetch_message (thread_id t) (thread_id t)
         | None => fetch_message (thread_id t) (thread_id t)
         end).
  assert (S : (exists m, starter_step w0 = (Ok m, w0))
              \/ starter_step w0 = (Raise NotFound, w0)).
  { assert (F : (exists m, fetch_message (thread_id t) (thread_id t) w0 = (Ok m, w0))
                \/ fetch_message (thread_id t) (thread_id t) w0
                   = (Raise NotFound, w0)).
    { unfold fetch_message. rewrite request_ok by assumption.
      destruct (find _ _); eauto. }
    subst starter_step. destruct (starter_message t) as [m|]; [|exact F].
    destruct (message_id m =? thread_id t); [left; eexists; reflexivity | exact F]. }
  destruct S as [[m S]|S].
  2:{ rewrite (bind_raise _ _ _ _ _ S). cbn. congruence. }
  rewrite (bind_ok _ _ _ _ _ S).
  rewrite (bind_ok _ _ _ _ _ (pin_ok _ _ Hf)). cbv zeta.
  set (wp := emit (EvPin (message_channel m) (message_id m)) w0).
  match goal with
  | |- context [caution_new_thread K t ?te] =>
      destruct (caution_new_thread_ok K t te wp Hf)
        as (issues & msgs & edits & wA & E & F1 & F2 & F3
              & (evs & F5 & F6 & F7) & F8)
  end.
  rewrite (bind_ok _ _ _ _ _ E). cbn beta iota.
  unfold record_new_cautions.
  destruct issues.
  - rewrite bind_assoc, (bind_ok _ _ _ _ _ (bad_exists_ok _ _ F1)).
    rewrite F2. change (bad_help_thread_data wp) with (bad_help_thread_data w0).
    rewrite Hnew. cbn [negb when].
    rewrite bind_assoc, (bind_ok _ _ _ _ _ (time_time_ok wA)).
    rewrite (bind_ok _ _ _ _ _ (save_bad_ok _ _ F1)).
    set (row := {| bad_thread_id := thread_id t;
                   last_cautioned_ts := now wA;
                   caution_message_ids := id_set (map message_id msgs) |}).
    set (wB := set_bad (Table.upsert bad_thread_id row (bad_help_thread_data wA)) wA).
    assert (R : Table.select_first bad_thread_id (thread_id t)
                  (bad_help_thread_data wB) = Some row).
    { subst wB. cbn. rewrite F2.
      change (bad_help_thread_data wp) with (bad_help_thread_data w0).
      exact (upsert_select_first_new bad_thread_id row _ Hnew). }
    assert (FB : faults wB = []) by exact F1.
    intros _.
    match goal with
    | |- context [when (has_edits ?e) _] => destruct (has_edits e)
    end; cbn [when].
    + rewrite (edit_ok _ _ _ FB). cbn [fst snd].
      split; [exact F1|].
      exists (map message_id msgs), (now wA). eexists.
      split; [exact R|].
      split.
      { cbn. rewrite F5. cbn. rewrite <- !app_assoc. reflexivity. }
      repeat split.
      * cbn. rewrite sent_cautions_app, F6. cbn. apply app_nil_r.
      * cbn. rewrite deleted_messages_app, F7. reflexivity.
      * intros id Hin. apply in_map_iff in Hin as [m' [<- Hin]].
        apply F8. exact Hin.
    + cbn [pass ret fst snd].
      split; [exact F1|].
      exists (map message_id msgs), (now wA),
        ([EvPin (message_channel m) (message_id m)] ++ evs).
      split; [exact R|]. repeat split.
      * cbn. rewrite F5. cbn. rewrite <- !app_assoc. reflexivity.
      * cbn. exact F6.
      * cbn. exact F7.
      * intros id Hin. apply in_map_iff in Hin as [m' [<- Hin]].
        apply F8. exact Hin.
  - rewrite (bind_ok _ _ wA wA tt eq_refl).
    match goal with
    | |- context [when (has_edits ?e) _] => destruct (has_edits e)
    end; cbn [when pass ret].
    + rewrite (edit_ok _ _ _ F1). cbn. rewrite F2. cbn. congruence.
    + cbn. rewrite F2. cbn. congruence.
Qed.

Lemma existsb_filter_other (channel id id' : Z) (l : list Message) :
  id' <> id ->
  existsb (is_message channel id') l = true ->
  existsb (is_message channel id')
    (filter (fun m => negb (is_message channel id m)) l) = true.
Proof.
  intros Hne H. apply existsb_exists in H as [m [Hin Hm]].
  apply existsb_exists. exists m. split; [|exact Hm].
  apply filter_In. split; [exact Hin|].
  unfold is_message in *. apply andb_true_iff in Hm as [_ Hm].
  apply Z.eqb_eq in Hm. apply negb_true_iff, andb_false_iff. right.
  apply Z.eqb_neq. congruence.
Qed.

(** The loop over the recorded ids deletes every recorded message that is
    in the thread. *)
Lemma delete_caution_messages_ok (t : Thread) (ids : list Z) (w : World) :
  faults w = [] ->
  exists w' evs,
    delete_caution_messages t ids w = (Ok tt, w')
    /\ faults w' = []
    /\ bad_help_thread_data w' = bad_help_thread_data w
    /\ log w' = log w ++ evs
    /\ sent_cautions (thread_id t) evs = []
    /\ (forall id, In id ids ->
          existsb (is_message (thread_id t) id) (messages w) = true ->
          In id (deleted_messages (thread_id t) evs)).
Proof.
  unfold delete_caution_messages.
  revert w; induction ids as [|id ids IH]; intros w Hf; cbn [for_each].
  - exists w, []. rewrite app_nil_r. repeat split; auto; try (intros id []).
  - destruct (existsb (is_message (thread_id t) id) (messages w)) eqn:Ex.
    + set (w1 := emit (EvDeleteMessage (thread_id t) id)
                   (set_messages
                      (filter (fun m => negb (is_message (thread_id t) id m))
                              (messages w)) w)).
      assert (D : try_except (delete_message (thread_id t) id) is_NotFound pass w
                  = (Ok tt, w1)).
      { unfold try_except, delete_message. rewrite request_ok by assumption.
        rewrite Ex. reflexivity. }
      rewrite (bind_ok _ _ _ _ _ D).
      destruct (IH w1 Hf) as (w' & evs & E & F1 & F2 & F3 & F4 & F5).
      exists w', (EvDeleteMessage (thread_id t) id :: evs).
      rewrite E. repeat split; auto.
      * rewrite F3. cbn. rewrite <- app_assoc. reflexivity.
      * intros id' Hin Hex. cbn. rewrite Z.eqb_refl.
        destruct (Z.eq_dec id' id) as [->|Hne]; [left; reflexivity|].
        right. destruct Hin as [->|Hin]; [contradiction|].
        apply F5; [exact Hin|]. cbn.
        apply existsb_filter_other; assumption.
    + assert (D : try_except (delete_message (thread_id t) id) is_NotFound pass w
                  = (Ok tt, w)).
      { unfold try_except, delete_message. rewrite request_ok by assumption.
        rewrite Ex. reflexivity. }
      rewrite (bind_ok _ _ _ _ _ D).
      destruct (IH w Hf) as (w' & evs & E & F1 & F2 & F3 & F4 & F5).
      exists w', evs. rewrite E. repeat split; auto.
      intros id' [->|Hin] Hex; [congruence|]. apply F5; assumption.
Qed.

Lemma check_updated_thread_no_issues (K : Constants) (parent : ForumChannel)
  (by_other : bool) (before after : Thread) (w : World) :
  has_no_issues K after = true ->
  check_updated_thread K parent by_other before after w
  = (Ok (false, false, [], no_edits), w).
Proof.
  unfold has_no_issues. rewrite negb_true_iff, orb_false_iff.
  intros [H1 H2]. unfold check_updated_thread.
  rewrite H1, H2.
  destruct (_ && by_other); [reflexivity|].
  destruct (_ && by_other); reflexivity.
Qed.

(** The resolution branch: every recorded message that is in the thread
    is deleted; the [DELETE] of the record is rolled back, so the table is
    as it was. *)
Lemma resolve_cautions_ok (K : Constants) (parent : ForumChannel)
  (after : Thread) (thread_edits : ThreadEdits) (w : World)
  (row : BadHelpThreadData) :
  faults w = [] ->
  Table.select_first bad_thread_id (thread_id after) (bad_help_thread_data w)
  = Some row ->
  has_no_issues K after = true ->
  exists edits w' evs,
    resolve_cautions K parent true after thread_edits w = (Ok edits, w')
    /\ faults w' = []
    /\ bad_help_thread_data w' = bad_help_thread_data w
    /\ log w' = log w ++ evs
    /\ sent_cautions (thread_id after) evs = []
    /\ (forall id, In id (caution_message_ids row) ->
          existsb (is_message (thread_id after) id) (messages w) = true ->
          In id (deleted_messages (thread_id after) evs)).
Proof.
  intros Hf Hrow Hno. unfold resolve_cautions.
  rewrite (bind_ok _ _ _ _ _ (bad_exists_ok _ _ Hf)).
  destruct (select_first_some _ _ _ _ Hrow) as (_ & _ & Hex).
  rewrite Hex, Hno. cbn [andb]. cbv zeta.
  rewrite (bind_ok _ _ _ _ _ (fetch_bad_ok _ _ _ Hf Hrow)).
  destruct (delete_caution_messages_ok after (caution_message_ids row) w Hf)
    as (wd & evs & E & F1 & F2 & F3 & F4 & F5).
  rewrite (bind_ok _ _ _ _ _ E).
  rewrite (bind_ok _ _ _ _ _ (delete_bad_ok _ _ F1)). cbn [ret].
  do 3 eexists. split; [reflexivity|].
  repeat split; [exact F1 | exact F2 | exact F3 | exact F4 | exact F5].
Qed.

Lemma fetch_audit_logs_ok (audit : list AuditLogEntry) (w : World) :
  faults w = [] -> fetch_audit_logs audit w = (Ok (firstn 20 audit), w).
Proof. intros Hf. unfold fetch_audit_logs. now rewrite request_ok. Qed.

(** C3, as the code has it. A new thread is flagged by [on_thread_create]
    (a record is saved where none was; it holds the ids of the caution
    messages sent) and is then updated, open, by another than the bot,
    with no title or tag issue left. Without a failing request,
    [on_thread_update] deletes the recorded messages: every caution
    message sent to the thread has been deleted. It also runs the
    [DELETE] of the record, but on a connection that is never committed:
    the table is as [on_thread_create] left it, and the record of the
    thread remains. *)
Theorem flag_then_resolve_leaves_record
  (K : Constants) (parent : ForumChannel) (audit : list AuditLogEntry)
  (t before after : Thread) (w0 : World) :
  faults w0 = [] ->
  Table.select_exists bad_thread_id (thread_id t) (bad_help_thread_data w0)
  = false ->
  Table.select_exists bad_thread_id (thread_id t)
    (bad_help_thread_data (snd (on_thread_create K parent t w0))) = true ->
  thread_id after = thread_id t ->
  is_help_forum K (parent_id after) = true ->
  archived after = false ->
  locked after = false ->
  opt_id_eqb (find_updater (firstn 20 audit) (thread_id after)) (bot_user_id K)
  = false ->
  has_no_issues K after = true ->
  let w1 := snd (on_thread_create K parent t w0) in
  let w2 := snd (on_thread_update K parent audit before after w1) in
  (exists ts evs1,
     Table.select_first bad_thread_id (thread_id t) (bad_help_thread_data w1)
     = Some {| bad_thread_id := thread_id t;
               last_cautioned_ts := ts;
               caution_message_ids :=
                 id_set (sent_cautions (thread_id t) evs1) |}
     /\ log w1 = log w0 ++ evs1)
  /\ bad_help_thread_data w2 = bad_help_thread_data w1
  /\ Table.select_exists bad_thread_id (thread_id t) (bad_help_thread_data w2)
     = true
  /\ exists evs,
       log w2 = log w0 ++ evs
       /\ forall id, In id (sent_cautions (thread_id t) evs) ->
                     In id (deleted_messages (thread_id t) evs).
Proof.
  intros Hf Hnew Hflag Hid Hforum Harch Hlock Hupd Hno. cbv zeta.
  destruct (on_thread_create_flags K parent t w0 Hf Hnew Hflag)
    as (F1 & ids & ts & evs1 & R & L1 & S1 & D1 & M1).
  set (w1 := snd (on_thread_create K parent t w0)) in *.
  split.
  { exists ts, evs1. rewrite S1. auto. }
  unfold on_thread_update. rewrite Hforum. cbn [when].
  rewrite try_except_eq, Harch, Hlock. cbn [orb negb].
  rewrite (bind_ok _ _ _ _ _ (fetch_audit_logs_ok _ _ F1)). cbv zeta.
  rewrite Hupd. cbn [negb].
  rewrite (bind_ok _ _ _ _ _
             (check_updated_thread_no_issues K parent true before after w1 Hno)).
  cbn beta iota. cbn [orb].
  rewrite <- Hid in R.
  destruct (resolve_cautions_ok K parent after no_edits w1 _ F1 R Hno)
    as (edits & wr & evs2 & E & G1 & G2 & G3 & G4 & G5).
  rewrite !bind_assoc, (bind_ok _ _ _ _ _ E).
  pose proof (quiet_bind (thread_id after) _ _
                (quiet_solved_transitions K parent before after edits
                   (thread_id after))
                (fun te => quiet_batch_edit (thread_id after) after te)
                wr G1) as (_ & [u Hu] & Q3 & evs3 & Q4 & Q5).
  match goal with
  | |- context [bind ?c ?f wr] =>
      destruct (bind c f wr) as [r wf] eqn:Ef
  end.
  cbn [fst snd] in Hu, Q3, Q4. subst r. cbn [snd].
  rewrite Hid in G4, G5, Q5. cbn [caution_message_ids] in G5.
  assert (Hkept : bad_help_thread_data wf = bad_help_thread_data w1)
    by (rewrite Q3; exact G2).
  split; [exact Hkept|]. split; [rewrite Hkept; exact Hflag|].
  exists (evs1 ++ evs2 ++ evs3). split.
  - rewrite Q4, G3, L1, <- !app_assoc. reflexivity.
  - intros id Hin.
    rewrite !sent_cautions_app, G4, Q5, !app_nil_r, S1 in Hin.
    rewrite !deleted_messages_app. apply in_or_app. right.
    apply in_or_app. left.
    apply G5.
    + unfold id_set. apply nodup_In. exact Hin.
    + apply M1. exact Hin.
Qed.

(** The thread titled "hi" of owner 42, flagged at its creation and then
    renamed by a member: both cautions are deleted, and the record with
    their ids is still in the table. *)
Lemma flag_then_resolve_leaves_record_witness :
  let w0 := Sample.world [Sample.message 20 20 false 0%Q] 10%Q [] in
  let w1 := snd (on_thread_create Sample.constants Sample.forum
                   Sample.hi_thread w0) in
  let w2 := snd (on_thread_update Sample.constants Sample.forum []
                   Sample.hi_thread Sample.renamed_thread w1) in
  has_no_issues Sample.constants Sample.renamed_thread = true
  /\ bad_help_thread_data w2 = bad_help_thread_data w1
  /\ Table.select_exists bad_thread_id 20 (bad_help_thread_data w2) = true.
Proof.
  cbv zeta. split; [vm_compute; reflexivity|].
  refine ((fun H => conj (proj1 (proj2 H)) (proj1 (proj2 (proj2 H))))
            (flag_then_resolve_leaves_record Sample.constants
               Sample.forum [] Sample.hi_thread Sample.hi_thread
               Sample.renamed_thread
               (Sample.world [Sample.message 20 20 false 0%Q] 10%Q [])
               _ _ _ _ _ _ _ _ _));
    vm_compute; reflexivity.
Defined.

(** The scenario in full: the two cautions, the slowmode penalty, then
    the deletions and the revert of the slowmode. *)
Example flag_then_resolve_trace :
  log (snd (on_thread_update Sample.constants Sample.forum []
              Sample.hi_thread Sample.renamed_thread
              (snd (on_thread_create Sample.constants Sample.forum
                      Sample.hi_thread
                      (Sample.world [Sample.message 20 20 false 0%Q]
                         10%Q [])))))
  = [EvPin 20 20;
     EvSend 20 (TitleCaution Sample.too_short) 1000;
     EvSend 20 (TitleCaution Sample.single_word) 1001;
     EvEdit 20
       {| e_name := Some (lit "hi" ++ owner_id_suffix 42);
          e_applied_tags := Some [Sample.unsolved_tag];
          e_slowmode_delay := Some 300;
          e_auto_archive_duration := None;
          e_archived := None;
          e_reason :=
            Some "Slowmode penalty for the title of this help post being too short."%string |};
     EvDeleteMessage 20 1000;
     EvDeleteMessage 20 1001;
     EvSleep 5;
     EvEdit 20
       {| e_name := None;
          e_applied_tags := None;
          e_slowmode_delay := Some 0;
          e_auto_archive_duration := None;
          e_archived := None;
          e_reason :=
            Some "This help post's title is not invalid anymore."%string |}].
Proof. vm_compute. reflexivity. Qed.

(* ===================================================================== *)
(** * Further properties of the code *)
(* ===================================================================== *)

(** ** Titles and names *)

Lemma existsb_nonempty_filter {A} (f : A -> bool) (l : list A) :
  existsb f l = nonempty (filter f l).
Proof.
  induction l as [|x l IH]; [reflexivity|]. cbn.
  destruct (f x); [reflexivity | exact IH].
Qed.

(** X1. [validate_help_forum_channel_thread_name] answers true exactly
    when [get_help_forum_channel_thread_name_cautions] returns a caution:
    true means that a rule matches the title, not that the title is
    fine. *)
Theorem validate_name_true_iff_cautioned
  (K : Constants) (name : pystr) (owner : Z) :
  validate_help_forum_channel_thread_name K name owner = true
  <-> get_help_forum_channel_thread_name_cautions K name owner <> [].
Proof.
  unfold validate_help_forum_channel_thread_name,
    get_help_forum_channel_thread_name_cautions.
  rewrite existsb_nonempty_filter.
  destruct (filter _ _); cbn; split; congruence.
Qed.

Lemma contains_of_startswith (s p : pystr) :
  startswith s p = true -> contains s p = true.
Proof. intros H. destruct s; cbn [contains]; rewrite H; reflexivity. Qed.

Lemma contains_cons (s p : pystr) (b : N) :
  contains s (b :: p) = true -> contains s p = true.
Proof.
  induction s as [|c s IH]; cbn [contains].
  - cbn. discriminate.
  - intros H. apply orb_true_iff. right.
    apply orb_true_iff in H as [H|H]; [|exact (IH H)].
    apply startswith_iff in H as [r Hr]. injection Hr as -> ->.
    apply contains_of_startswith, startswith_app.
Qed.

(** X2. The marker the bot appends does not change the classification of
    the title: for a name of fewer than 72 characters that the owner-id
    rule renames, the renamed title has the cautions of the name. *)
Theorem cautions_unchanged_by_owner_suffix
  (K : Constants) (name : pystr) (owner : Z) (new : pystr) :
  owner_suffix_edit name owner = Some new ->
  (length name < 72)%nat ->
  new = name ++ owner_id_suffix owner
  /\ get_help_forum_channel_thread_name_cautions K new owner
     = get_help_forum_channel_thread_name_cautions K name owner.
Proof.
  unfold owner_suffix_edit, has_owner_id, truncated_name.
  intros E L. apply Nat.ltb_lt in L. rewrite L in E.
  destruct (endswith _ _ || contains _ _) eqn:G; [discriminate|].
  injection E as <-. split; [reflexivity|].
  apply orb_false_iff in G as [_ G].
  assert (C : contains name (owner_id_suffix owner) = false).
  { destruct (contains name (owner_id_suffix owner)) eqn:C; [|reflexivity].
    apply contains_cons in C. congruence. }
  unfold get_help_forum_channel_thread_name_cautions, normalized_title.
  unfold owner_id_suffix in *.
  rewrite (remove_trailing_marker BOX (str_of_int owner) name
             (BOX_not_in_lit _) C).
  rewrite (remove_absent _ _ C). reflexivity.
Qed.

Lemma cautions_unchanged_by_owner_suffix_witness :
  get_help_forum_channel_thread_name_cautions Sample.constants
    (lit "hi" ++ owner_id_suffix 42) 42
  = get_help_forum_channel_thread_name_cautions Sample.constants (lit "hi") 42.
Proof.
  apply (cautions_unchanged_by_owner_suffix Sample.constants (lit "hi") 42).
  - vm_compute. reflexivity.
  - vm_compute. lia.
Defined.

(** X3. A name the owner-id rule writes ends with the marker, is left
    alone by the rule from then on, and has at most 76 characters plus the
    digits of the owner id. *)
Theorem owner_suffix_edit_shape (name : pystr) (owner : Z) (new : pystr) :
  owner_suffix_edit name owner = Some new ->
  endswith new (owner_id_suffix owner) = true
  /\ owner_suffix_edit new owner = None
  /\ (length new <= 76 + length (str_of_int owner))%nat.
Proof.
  intros E. pose proof (owner_suffix_edit_has_owner_id _ _ _ E) as H.
  unfold owner_suffix_edit in *. rewrite H. cbn [negb].
  destruct (negb _); [|discriminate]. injection E as <-.
  split; [apply endswith_app|]. split; [reflexivity|].
  rewrite length_app. unfold truncated_name, owner_id_suffix. cbn [length].
  destruct (Nat.ltb (length name) 72) eqn:L.
  - apply Nat.ltb_lt in L. lia.
  - rewrite length_app. pose proof (firstn_le_length 72 name).
    change (length (lit "...")) with 3%nat. lia.
Qed.

Lemma owner_suffix_edit_shape_witness :
  exists new,
    owner_suffix_edit (repeat 97%N 100) 42 = Some new
    /\ (length new <= 76 + length (str_of_int 42))%nat.
Proof.
  eexists. split; [vm_compute; reflexivity|].
  apply (owner_suffix_edit_shape (repeat 97%N 100) 42).
  vm_compute. reflexivity.
Defined.

(** X4. Normalising the white space of a text twice is normalising it
    once, and the normalised text has the words of the text: each is not
    empty and free of white space. *)
Theorem whitespace_normalisation_idempotent (s : pystr) :
  join (lit " ") (split (join (lit " ") (split s))) = join (lit " ") (split s)
  /\ Forall is_word (split s).
Proof.
  destruct (normalized_words s) as [H1 H2]. rewrite H2. auto.
Qed.

(** ** Saving, fetching and deleting records *)

Section TableRoundTrips.

Context {Row : Type}.
Variable key : Row -> Z.

Lemma upsert_select_first (new : Row) (t : list Row) :
  Table.select_first key (key new) (Table.upsert key new t) = Some new.
Proof.
  unfold Table.select_first, Table.upsert, Table.conflicts.
  induction t as [|r t IH]; cbn.
  - rewrite Z.eqb_refl. reflexivity.
  - destruct (key r =? key new) eqn:E; cbn.
    + rewrite Z.eqb_refl. reflexivity.
    + rewrite E. exact IH.
Qed.

Lemma upsert_select_first_other (k : Z) (new : Row) (t : list Row) :
  k <> key new ->
  Table.select_first key k (Table.upsert key new t)
  = Table.select_first key k t.
Proof.
  intros Hk. assert (Hn : (key new =? k) = false) by (apply Z.eqb_neq; congruence).
  unfold Table.select_first, Table.upsert, Table.conflicts.
  induction t as [|r t IH]; cbn.
  - rewrite Hn. reflexivity.
  - destruct (key r =? key new) eqn:E; cbn.
    + apply Z.eqb_eq in E. rewrite E, Hn. reflexivity.
    + destruct (key r =? k); [reflexivity | exact IH].
Qed.

Lemma delete_where_select_first (k : Z) (t : list Row) :
  Table.select_first key k (Table.delete_where key k t) = None.
Proof.
  apply select_first_none. apply delete_where_exists.
Qed.

Lemma delete_where_select_first_other (k k' : Z) (t : list Row) :
  k <> k' ->
  Table.select_first key k (Table.delete_where key k' t)
  = Table.select_first key k t.
Proof.
  intros Hk. unfold Table.select_first, Table.delete_where.
  induction t as [|r t IH]; cbn; [reflexivity|].
  destruct (key r =? k') eqn:E; cbn.
  - apply Z.eqb_eq in E.
    assert (Hn : (key r =? k) = false) by (apply Z.eqb_neq; congruence).
    rewrite Hn. exact IH.
  - destruct (key r =? k); [reflexivity | exact IH].
Qed.

End TableRoundTrips.

Lemma save_inactive_ok (data : InactiveHelpThreadData) (w : World) :
  faults w = [] ->
  save_inactive_help_thread_data data w
  = (Ok tt,
     set_inactive
       (Table.upsert inactive_thread_id data (inactive_help_thread_data w)) w).
Proof. intros Hf. unfold save_inactive_help_thread_data. now rewrite request_ok. Qed.

Lemma delete_inactive_ok (id : Z) (w : World) :
  faults w = [] -> delete_inactive_help_thread_data id w = (Ok tt, w).
Proof.
  intros Hf. unfold delete_inactive_help_thread_data.
  rewrite request_ok by assumption.
  unfold connect, delete_inactive_statement. destruct w; reflexivity.
Qed.

(** X5. Without a failing request, a record that is saved is the record
    that is fetched under its thread id, whatever was stored under that
    id before, and the records of the other threads are fetched as
    before; so for both tables. *)
Theorem save_then_fetch (w : World) :
  faults w = [] ->
  (forall data,
     fetch_bad_help_thread_data (bad_thread_id data)
       (snd (save_bad_help_thread_data data w))
     = (Ok data, snd (save_bad_help_thread_data data w))
     /\ forall id, id <> bad_thread_id data ->
          fst (fetch_bad_help_thread_data id
                 (snd (save_bad_help_thread_data data w)))
          = fst (fetch_bad_help_thread_data id w))
  /\ (forall data,
        fetch_inactive_help_thread_data (inactive_thread_id data)
          (snd (save_inactive_help_thread_data data w))
        = (Ok data, snd (save_inactive_help_thread_data data w))
        /\ forall id, id <> inactive_thread_id data ->
             fst (fetch_inactive_help_thread_data id
                    (snd (save_inactive_help_thread_data data w)))
             = fst (fetch_inactive_help_thread_data id w)).
Proof.
  intros Hf.
  assert (F : forall A (k : M A) w', faults w' = [] -> request k w' = k w')
    by (intros; apply request_ok; assumption).
  split; intros data; split.
  - rewrite (save_bad_ok _ _ Hf). cbn [snd].
    apply fetch_bad_ok; [exact Hf | apply upsert_select_first].
  - intros id Hid. rewrite (save_bad_ok _ _ Hf). cbn [snd].
    unfold fetch_bad_help_thread_data. rewrite !F by exact Hf. cbn.
    rewrite (upsert_select_first_other _ _ _ _ Hid).
    destruct (Table.select_first _ _ _); reflexivity.
  - rewrite (save_inactive_ok _ _ Hf). cbn [snd].
    apply fetch_inactive_ok; [exact Hf | apply upsert_select_first].
  - intros id Hid. rewrite (save_inactive_ok _ _ Hf). cbn [snd].
    unfold fetch_inactive_help_thread_data. rewrite !F by exact Hf. cbn.
    rewrite (upsert_select_first_other _ _ _ _ Hid).
    destruct (Table.select_first _ _ _); reflexivity.
Qed.

Lemma save_then_fetch_witness :
  let old := {| inactive_thread_id := 7; last_active_ts := 5%Q;
                alert_message_id := Some 1000 |} in
  let new := {| inactive_thread_id := 7; last_active_ts := 9%Q;
                alert_message_id := None |} in
  let w := set_inactive [old] (Sample.world [] 0%Q []) in
  fst (fetch_inactive_help_thread_data 7
         (snd (save_inactive_help_thread_data new w))) = Ok new.
Proof.
  cbv zeta.
  set (new := {| inactive_thread_id := 7; last_active_ts := 9%Q;
                 alert_message_id := None |}).
  match goal with
  | |- context [save_inactive_help_thread_data _ ?w] =>
      pose proof (proj1 (proj2 (save_then_fetch w eq_refl) new)) as H
  end.
  cbn [inactive_thread_id new] in H. rewrite H. reflexivity.
Defined.

(** X6. Without a failing request a delete ends normally and is not
    committed: afterwards the query and the fetch answer for every thread
    id as they did before, and a record that is saved and then deleted is
    still the record that is fetched; so for both tables. *)
Theorem delete_then_fetch (w : World) (id : Z) :
  faults w = [] ->
  (fst (delete_bad_help_thread_data id w) = Ok tt
   /\ (forall id',
         fst (bad_help_thread_data_exists id'
                (snd (delete_bad_help_thread_data id w)))
         = fst (bad_help_thread_data_exists id' w)
         /\ fst (fetch_bad_help_thread_data id'
                  (snd (delete_bad_help_thread_data id w)))
            = fst (fetch_bad_help_thread_data id' w))
   /\ forall data,
        fst (fetch_bad_help_thread_data (bad_thread_id data)
               (snd (delete_bad_help_thread_data (bad_thread_id data)
                       (snd (save_bad_help_thread_data data w)))))
        = Ok data)
  /\ (fst (delete_inactive_help_thread_data id w) = Ok tt
      /\ (forall id',
            fst (inactive_help_thread_data_exists id'
                   (snd (delete_inactive_help_thread_data id w)))
            = fst (inactive_help_thread_data_exists id' w)
            /\ fst (fetch_inactive_help_thread_data id'
                     (snd (delete_inactive_help_thread_data id w)))
               = fst (fetch_inactive_help_thread_data id' w))
      /\ forall data,
           fst (fetch_inactive_help_thread_data (inactive_thread_id data)
                  (snd (delete_inactive_help_thread_data
                          (inactive_thread_id data)
                          (snd (save_inactive_help_thread_data data w)))))
           = Ok data).
Proof.
  intros Hf.
  rewrite (delete_bad_ok _ _ Hf), (delete_inactive_ok _ _ Hf). cbn [fst snd].
  repeat match goal with |- _ /\ _ => split end;
    try reflexivity; try (intros; split; reflexivity); intros data.
  - rewrite (save_bad_ok _ _ Hf). cbn [snd].
    set (w1 := set_bad _ w).
    assert (Hf1 : faults w1 = []) by exact Hf.
    rewrite (delete_bad_ok _ _ Hf1). cbn [snd].
    rewrite (fetch_bad_ok _ _ data Hf1); [reflexivity|].
    apply (upsert_select_first bad_thread_id data).
  - rewrite (save_inactive_ok _ _ Hf). cbn [snd].
    set (w1 := set_inactive _ w).
    assert (Hf1 : faults w1 = []) by exact Hf.
    rewrite (delete_inactive_ok _ _ Hf1). cbn [snd].
    rewrite (fetch_inactive_ok _ _ data Hf1); [reflexivity|].
    apply (upsert_select_first inactive_thread_id data).
Qed.

Lemma delete_then_fetch_witness :
  let row := {| bad_thread_id := 5; last_cautioned_ts := 0%Q;
                caution_message_ids := [1000] |} in
  let w := Sample.world [] 0%Q [] in
  fst (fetch_bad_help_thread_data 5
         (snd (delete_bad_help_thread_data 5
                 (snd (save_bad_help_thread_data row w))))) = Ok row.
Proof.
  cbv zeta.
  exact (proj2 (proj2 (proj1 (delete_then_fetch (Sample.world [] 0%Q []) 5
                                eq_refl)))
           {| bad_thread_id := 5; last_cautioned_ts := 0%Q;
              caution_message_ids := [1000] |}).
Defined.

(** X7. In every world the query and the fetch agree: when
    [..._exists] answers true the fetch returns a row of that thread id,
    and when it answers false the fetch raises [LookupError]. Neither
    changes a table. *)
Theorem exists_agrees_with_fetch (w : World) (id : Z) :
  faults w = [] ->
  (if Table.select_exists bad_thread_id id (bad_help_thread_data w)
   then exists row, fetch_bad_help_thread_data id w = (Ok row, w)
                    /\ bad_thread_id row = id
   else fetch_bad_help_thread_data id w = (Raise LookupError, w))
  /\ bad_help_thread_data_exists id w
     = (Ok (Table.select_exists bad_thread_id id (bad_help_thread_data w)), w)
  /\ (if Table.select_exists inactive_thread_id id
           (inactive_help_thread_data w)
      then exists row, fetch_inactive_help_thread_data id w = (Ok row, w)
                       /\ inactive_thread_id row = id
      else fetch_inactive_help_thread_data id w = (Raise LookupError, w))
  /\ inactive_help_thread_data_exists id w
     = (Ok (Table.select_exists inactive_thread_id id
              (inactive_help_thread_data w)), w).
Proof.
  intros Hf. repeat split.
  - destruct (Table.select_exists _ _ _) eqn:E.
    + destruct (select_exists_first _ _ _ E) as [row [H1 H2]].
      exists row. split; [apply fetch_bad_ok; assumption | exact H2].
    + unfold fetch_bad_help_thread_data. rewrite request_ok by assumption.
      rewrite (select_first_none _ _ _ E). reflexivity.
  - apply bad_exists_ok; assumption.
  - destruct (Table.select_exists _ _ _) eqn:E.
    + destruct (select_exists_first _ _ _ E) as [row [H1 H2]].
      exists row. split; [apply fetch_inactive_ok; assumption | exact H2].
    + unfold fetch_inactive_help_thread_data. rewrite request_ok by assumption.
      rewrite (select_first_none _ _ _ E). reflexivity.
  - apply inactive_exists_ok; assumption.
Qed.

Lemma exists_agrees_with_fetch_witness :
  let row := {| bad_thread_id := 5; last_cautioned_ts := 0%Q;
                caution_message_ids := [1000] |} in
  let w := set_bad [row] (Sample.world [] 0%Q []) in
  fetch_bad_help_thread_data 6 w = (Raise LookupError, w)
  /\ bad_help_thread_data_exists 6 w = (Ok false, w).
Proof.
  cbv zeta.
  match goal with
  | |- fetch_bad_help_thread_data _ ?w = _ /\ _ =>
      pose proof (exists_agrees_with_fetch w 6 eq_refl) as (H1 & H2 & _)
  end.
  split; [exact H1 | exact H2].
Defined.

(** ** What a run preserves, whatever the faults *)

Section Preserves.

Variable R : World -> World -> Prop.
Hypothesis HR : step_relation R.

Lemma preserves_ret {A} (a : A) : preserves R (ret a).
Proof. intros w. apply (step_refl R HR). Qed.

Lemma preserves_raise {A} (e : exn) : preserves R (@raise A e).
Proof. intros w. apply (step_refl R HR). Qed.

Lemma preserves_bind {A B} (c : M A) (f : A -> M B) :
  preserves R c -> (forall a, preserves R (f a)) -> preserves R (bind c f).
Proof.
  intros Hc Hf w. specialize (Hc w). unfold bind.
  destruct (c w) as [[a|e] w1]; cbn in *; [|exact Hc].
  exact (step_trans R HR _ _ _ Hc (Hf a w1)).
Qed.

Lemma preserves_try_except {A} (body handler : M A) (catches : exn -> bool) :
  preserves R body -> preserves R handler ->
  preserves R (try_except body catches handler).
Proof.
  intros Hb Hh w. specialize (Hb w). unfold try_except.
  destruct (body w) as [[a|e] w1]; cbn in *; [exact Hb|].
  destruct (catches e); [|exact Hb].
  exact (step_trans R HR _ _ _ Hb (Hh w1)).
Qed.

Lemma preserves_try_finally {A} (body : M A) (final : M unit) :
  preserves R body -> preserves R final ->
  preserves R (try_finally body final).
Proof.
  intros Hb Hf w. specialize (Hb w). unfold try_finally.
  destruct (body w) as [r w1]; cbn in *. specialize (Hf w1).
  destruct (final w1) as [[u|e] w2]; cbn in *;
    exact (step_trans R HR _ _ _ Hb Hf).
Qed.

Lemma preserves_when (b : bool) (c : M unit) :
  preserves R c -> preserves R (when b c).
Proof. destruct b; [auto | intros _; apply preserves_ret]. Qed.

Lemma preserves_for_each {A} (xs : list A) (body : A -> M unit) :
  (forall x, preserves R (body x)) -> preserves R (for_each xs body).
Proof.
  intros H. induction xs as [|x xs IH]; cbn [for_each].
  - apply preserves_ret.
  - apply preserves_bind; [apply H | intros _; exact IH].
Qed.

(** A request preserves what its body preserves. *)
Lemma preserves_request {A} (k : M A) :
  preserves R k -> preserves R (request k).
Proof.
  intros Hk w. unfold request. destruct (faults w) as [|[e|] fs].
  - apply Hk.
  - cbn. apply (step_faults R HR).
  - exact (step_trans R HR _ _ _ (step_faults R HR w fs) (Hk _)).
Qed.

(** A request that only reads. *)
Lemma preserves_read {A} (k : M A) :
  (forall w, snd (k w) = w) -> preserves R (request k).
Proof.
  intros H. apply preserves_request. intros w. rewrite H.
  apply (step_refl R HR).
Qed.

End Preserves.

Ltac pres_step HR prim :=
  lazymatch goal with
  | |- preserves _ pass => apply (preserves_ret _ HR)
  | |- preserves _ (ret _) => apply (preserves_ret _ HR)
  | |- preserves _ (raise _) => apply (preserves_raise _ HR)
  | |- preserves _ (bind _ _) => apply (preserves_bind _ HR); [|intros ?]
  | |- preserves _ (try_except _ _ _) => apply (preserves_try_except _ HR)
  | |- preserves _ (try_finally _ _) => apply (preserves_try_finally _ HR)
  | |- preserves _ (when _ _) => apply (preserves_when _ HR)
  | |- preserves _ (for_each _ _) => apply (preserves_for_each _ HR); intros ?
  | |- preserves _ (match ?x with _ => _ end) => destruct x
  | |- _ => prim
  end.

Ltac pres HR prim := cbv zeta; repeat (pres_step HR prim; cbv zeta).

(** The reads of the cog change nothing. *)
Section Reads.

Variable R : World -> World -> Prop.
Hypothesis HR : step_relation R.

Lemma preserves_time_time : preserves R time_time.
Proof. intros w. apply (step_refl R HR). Qed.

Lemma preserves_fetch_message (channel id : Z) :
  preserves R (fetch_message channel id).
Proof.
  apply (preserves_read R HR). intros w. destruct (find _ _); reflexivity.
Qed.

Lemma preserves_history (channel limit : Z) :
  preserves R (history channel limit).
Proof. apply (preserves_read R HR). reflexivity. Qed.

Lemma preserves_fetch_archived_threads (f : ForumChannel) :
  preserves R (fetch_archived_threads f).
Proof. apply (preserves_read R HR). reflexivity. Qed.

Lemma preserves_fetch_audit_logs (audit : list AuditLogEntry) :
  preserves R (fetch_audit_logs audit).
Proof. apply (preserves_read R HR). reflexivity. Qed.

Lemma preserves_bad_exists (id : Z) :
  preserves R (bad_help_thread_data_exists id).
Proof. apply (preserves_read R HR). reflexivity. Qed.

Lemma preserves_inactive_exists (id : Z) :
  preserves R (inactive_help_thread_data_exists id).
Proof. apply (preserves_read R HR). reflexivity. Qed.

Lemma preserves_fetch_bad (id : Z) :
  preserves R (fetch_bad_help_thread_data id).
Proof.
  apply (preserves_read R HR). intros w.
  destruct (Table.select_first _ _ _); reflexivity.
Qed.

Lemma preserves_fetch_inactive (id : Z) :
  preserves R (fetch_inactive_help_thread_data id).
Proof.
  apply (preserves_read R HR). intros w.
  destruct (Table.select_first _ _ _); reflexivity.
Qed.

Lemma preserves_fetch_last_thread_message (t : Thread) :
  preserves R (fetch_last_thread_message t).
Proof.
  unfold fetch_last_thread_message.
  pres HR ltac:(first [apply preserves_fetch_message | apply preserves_history]).
Qed.

Lemma preserves_fetch_last_thread_activity_dt (t : Thread) :
  preserves R (fetch_last_thread_activity_dt t).
Proof.
  unfold fetch_last_thread_activity_dt.
  pres HR ltac:(first [apply preserves_fetch_message | apply preserves_history]).
Qed.

Lemma preserves_timestamp (dt : option Q) : preserves R (timestamp dt).
Proof. unfold timestamp. pres HR idtac. Qed.

End Reads.

(** The functions of the cog preserve what the requests they make
    preserve. Each lemma depends on the hypotheses for the requests its
    function can make, and on no other. *)
Section Handlers.

Variable K : Constants.
Variable R : World -> World -> Prop.
Hypothesis HR : step_relation R.

(** [S] holds of the threads the requests may act upon. *)
Variable S : Z -> Prop.

Hypothesis H_pin : forall m, preserves R (pin m).
Hypothesis H_title :
  forall channel c, S channel ->
    preserves R (send K channel (TitleCaution c)).
Hypothesis H_tags :
  forall channel, S channel -> preserves R (send K channel TagsCaution).
Hypothesis H_solved :
  forall channel, S channel -> preserves R (send K channel SolvedAlert).
Hypothesis H_inactive :
  forall channel, S channel -> preserves R (send K channel InactiveAlert).
Hypothesis H_warning :
  forall channel, S channel -> preserves R (send K channel DeletionWarning).
Hypothesis H_delete_message :
  forall channel id, S channel -> preserves R (delete_message channel id).
Hypothesis H_edit :
  forall t e, S (thread_id t) -> preserves R (edit t e).
Hypothesis H_delete_thread :
  forall t, S (thread_id t) -> preserves R (delete_thread t).
Hypothesis H_sleep : forall n, preserves R (sleep n).
Hypothesis H_task :
  forall id, S id ->
    preserves R (fun w => (Ok tt, emit (EvCreateTask id) w)).
Hypothesis H_save_bad :
  forall data, S (bad_thread_id data) ->
    preserves R (save_bad_help_thread_data data).
Hypothesis H_delete_bad :
  forall id, S id -> preserves R (delete_bad_help_thread_data id).
Hypothesis H_save_inactive :
  forall data, S (inactive_thread_id data) ->
    preserves R (save_inactive_help_thread_data data).
Hypothesis H_delete_inactive :
  forall id, S id -> preserves R (delete_inactive_help_thread_data id).

Local Ltac reads :=
  first [ apply (preserves_time_time R HR)
        | apply (preserves_fetch_message R HR)
        | apply (preserves_history R HR)
        | apply (preserves_fetch_archived_threads R HR)
        | apply (preserves_fetch_audit_logs R HR)
        | apply (preserves_bad_exists R HR)
        | apply (preserves_inactive_exists R HR)
        | apply (preserves_fetch_bad R HR)
        | apply (preserves_fetch_inactive R HR)
        | apply (preserves_fetch_last_thread_message R HR)
        | apply (preserves_fetch_last_thread_activity_dt R HR)
        | apply (preserves_timestamp R HR) ].

Lemma preserves_caution_about_name (t : Thread) (types : list pystr) :
  S (thread_id t) ->
  preserves R (caution_about_help_forum_channel_thread_name K t types).
Proof.
  intros Ht. induction types as [|c types IH];
    cbn [caution_about_help_forum_channel_thread_name].
  - apply (preserves_ret R HR).
  - pres HR ltac:(first [(apply H_title; assumption) | exact IH]).
Qed.

Lemma preserves_deletion_checks (t : Thread) :
  S (thread_id t) -> preserves R (help_thread_deletion_checks K t).
Proof.
  intros Ht. unfold help_thread_deletion_checks.
  pres HR ltac:(first [reads | (apply H_warning; assumption) | apply H_sleep
                      | (apply H_delete_thread; assumption)]).
Qed.

Lemma preserves_on_message_delete (msg : Message) (channel : option Thread) :
  match channel with Some t => S (thread_id t) | None => True end ->
  preserves R (on_message_delete K msg channel).
Proof.
  intros Ht. unfold on_message_delete.
  destruct channel as [t|]; [|apply (preserves_ret R HR)].
  pres HR ltac:(apply preserves_deletion_checks; assumption).
Qed.

Lemma preserves_on_raw_thread_delete (id : Z) :
  S id -> preserves R (on_raw_thread_delete id).
Proof.
  intros Ht. unfold on_raw_thread_delete.
  pres HR ltac:(first [reads | (apply H_delete_inactive; assumption)]).
Qed.

Lemma preserves_caution_new_thread (t : Thread) (thread_edits : ThreadEdits) :
  S (thread_id t) -> preserves R (caution_new_thread K t thread_edits).
Proof.
  intros Ht. unfold caution_new_thread,
    caution_about_regulars_help_forum_channel_thread_tags.
  pres HR ltac:(first [(apply preserves_caution_about_name; assumption) | (apply H_tags; assumption)]).
Qed.

Lemma preserves_record_new_cautions (t : Thread) (issues_found : bool)
  (msgs : list Message) :
  S (thread_id t) -> preserves R (record_new_cautions t issues_found msgs).
Proof.
  intros Ht. unfold record_new_cautions.
  pres HR ltac:(first [reads | (apply H_save_bad; assumption)]).
Qed.

Lemma preserves_on_thread_create (parent : ForumChannel) (t : Thread) :
  S (thread_id t) -> preserves R (on_thread_create K parent t).
Proof.
  intros Ht. unfold on_thread_create.
  pres HR ltac:(first [reads | apply H_pin | (apply H_edit; assumption)
                      | (apply preserves_caution_new_thread; assumption)
                      | (apply preserves_record_new_cautions; assumption)]).
Qed.

Lemma preserves_delete_caution_messages (t : Thread) (ids : list Z) :
  S (thread_id t) -> preserves R (delete_caution_messages t ids).
Proof.
  intros Ht. unfold delete_caution_messages. pres HR ltac:((apply H_delete_message; assumption)).
Qed.

Lemma preserves_check_updated_thread (parent : ForumChannel) (by_other : bool)
  (before after : Thread) :
  S (thread_id after) ->
  preserves R (check_updated_thread K parent by_other before after).
Proof.
  intros Ht. unfold check_updated_thread,
    caution_about_regulars_help_forum_channel_thread_tags.
  pres HR ltac:(first [(apply preserves_caution_about_name; assumption) | (apply H_tags; assumption)]).
Qed.

Lemma preserves_record_cautions (after : Thread) (msgs : list Message) :
  S (thread_id after) -> preserves R (record_cautions after msgs).
Proof.
  intros Ht. unfold record_cautions. pres HR ltac:(first [reads | (apply H_save_bad; assumption)]).
Qed.

Lemma preserves_resolve_cautions (parent : ForumChannel) (by_other : bool)
  (after : Thread) (thread_edits : ThreadEdits) :
  S (thread_id after) ->
  preserves R (resolve_cautions K parent by_other after thread_edits).
Proof.
  intros Ht. unfold resolve_cautions.
  pres HR ltac:(first [reads | (apply preserves_delete_caution_messages; assumption)
                      | (apply H_delete_bad; assumption)]).
Qed.

Lemma preserves_solved_transitions (parent : ForumChannel)
  (before after : Thread) (thread_edits : ThreadEdits) :
  S (thread_id after) ->
  preserves R (solved_transitions K parent before after thread_edits).
Proof.
  intros Ht. unfold solved_transitions, send_help_thread_solved_alert.
  pres HR ltac:(first [reads | (apply H_solved; assumption) | (apply H_delete_message; assumption)
                      | (apply H_delete_inactive; assumption)]).
Qed.

Lemma preserves_on_thread_update (parent : ForumChannel)
  (audit : list AuditLogEntry) (before after : Thread) :
  S (thread_id after) ->
  preserves R (on_thread_update K parent audit before after).
Proof.
  intros Ht. unfold on_thread_update.
  pres HR ltac:(first [reads | apply H_sleep | (apply H_edit; assumption)
                      | (apply preserves_check_updated_thread; assumption)
                      | (apply preserves_record_cautions; assumption)
                      | (apply preserves_resolve_cautions; assumption)
                      | (apply preserves_solved_transitions; assumption)]).
Qed.

Lemma preserves_clear_inactive_alert (t : Thread) (last_active : Q) :
  S (thread_id t) -> preserves R (clear_inactive_alert t last_active).
Proof.
  intros Ht. unfold clear_inactive_alert.
  pres HR ltac:(first [reads | (apply H_delete_message; assumption)
                      | (apply H_save_inactive; assumption)]).
Qed.

Lemma preserves_inactive_iteration (forum_channel : ForumChannel)
  (now_ts : Q) (t : Thread) :
  S (thread_id t) ->
  preserves R (inactive_help_thread_alert_iteration K forum_channel now_ts t).
Proof.
  intros Ht. unfold inactive_help_thread_alert_iteration.
  pres HR ltac:(first [reads | (apply H_inactive; assumption) | (apply H_save_inactive; assumption)
                      | (apply preserves_clear_inactive_alert; assumption)]).
Qed.

Lemma preserves_inactive_sweep (channels : list Channel) :
  (forall id, S id) -> preserves R (inactive_help_thread_alert K channels).
Proof.
  intros HS. induction channels as [|[f|] channels IH];
    cbn [inactive_help_thread_alert]; try apply (preserves_ret R HR).
  pres HR ltac:(first [reads | (apply preserves_inactive_iteration; apply HS) | exact IH]).
Qed.

Lemma preserves_orphan_iteration (t : Thread) :
  S (thread_id t) ->
  preserves R (delete_help_threads_without_starter_message_iteration t).
Proof.
  intros Ht. unfold delete_help_threads_without_starter_message_iteration.
  pres HR ltac:(first [reads | (apply H_task; assumption)]).
Qed.

Lemma preserves_orphan_sweep (channels : list Channel) :
  (forall id, S id) ->
  preserves R (delete_help_threads_without_starter_message channels).
Proof.
  intros HS. induction channels as [|[f|] channels IH];
    cbn [delete_help_threads_without_starter_message];
    [apply (preserves_ret R HR) | | apply (preserves_raise R HR)].
  pres HR ltac:(first [reads | (apply preserves_orphan_iteration; apply HS) | exact IH]).
Qed.

Lemma preserves_archive_iteration (forum_channel : ForumChannel)
  (now_ts : Q) (t : Thread) :
  S (thread_id t) ->
  preserves R
    (force_help_thread_archive_after_timeout_iteration forum_channel now_ts t).
Proof.
  intros Ht. unfold force_help_thread_archive_after_timeout_iteration.
  pres HR ltac:(first [reads | (apply H_edit; assumption)]).
Qed.

Lemma preserves_archive_sweep (channels : list Channel) :
  (forall id, S id) ->
  preserves R (force_help_thread_archive_after_timeout channels).
Proof.
  intros HS. induction channels as [|[f|] channels IH];
    cbn [force_help_thread_archive_after_timeout];
    try apply (preserves_ret R HR).
  pres HR ltac:(first [reads | (apply preserves_archive_iteration; apply HS) | exact IH]).
Qed.

End Handlers.

(** ** The relations and the requests *)

Lemma rows_kept_step : step_relation rows_kept.
Proof.
  split; unfold rows_kept.
  - auto.
  - auto.
  - intros w fs H. exact H.
Qed.

Lemma emits_step (P : Event -> Prop) : step_relation (emits P).
Proof.
  split; unfold emits.
  - intros w. exists []. split; [symmetry; apply app_nil_r | constructor].
  - intros w1 w2 w3 [e1 [L1 F1]] [e2 [L2 F2]]. exists (e1 ++ e2).
    split; [rewrite L2, L1, app_assoc; reflexivity | apply Forall_app; auto].
  - intros w fs. exists []. split; [symmetry; apply app_nil_r | constructor].
Qed.

Lemma same_bad_step : step_relation same_bad.
Proof.
  split; unfold same_bad; intros; cbn; congruence.
Qed.

Lemma same_inactive_step : step_relation same_inactive.
Proof.
  split; unfold same_inactive; intros; cbn; congruence.
Qed.

Lemma same_messages_step : step_relation same_messages.
Proof.
  split; unfold same_messages; intros; cbn; congruence.
Qed.

Lemma other_rows_kept_step (thread : Z) : step_relation (other_rows_kept thread).
Proof.
  split; unfold other_rows_kept.
  - intros w id _. split; reflexivity.
  - intros w1 w2 w3 H1 H2 id Hid.
    destruct (H1 id Hid) as [A1 B1]. destruct (H2 id Hid) as [A2 B2].
    split; congruence.
  - intros w fs id _. split; reflexivity.
Qed.

Lemma both_step (R1 R2 : World -> World -> Prop) :
  step_relation R1 -> step_relation R2 -> step_relation (both R1 R2).
Proof.
  intros [r1 t1 f1] [r2 t2 f2]. split; unfold both.
  - auto.
  - intros w1 w2 w3 [A1 A2] [B1 B2]. eauto.
  - auto.
Qed.

(** What a request leaves of the world, by the relation asked for. *)
Ltac related :=
  lazymatch goal with
  | |- both _ _ _ _ => split; related
  | |- same_bad _ _ => reflexivity
  | |- same_inactive _ _ => reflexivity
  | |- same_messages _ _ => reflexivity
  | |- rows_kept _ _ =>
      let U := fresh "U" in
      unfold rows_kept, at_most_one_row_per_thread; cbn;
      intros U; destruct U; split;
      auto using upsert_unique, delete_where_unique
  | |- other_rows_kept _ _ _ =>
      let id := fresh "id" in
      let Hid := fresh "Hid" in
      intros id Hid; cbn; split;
      first [ reflexivity
            | apply upsert_rows_of_other; congruence
            | apply delete_where_rows_of_other; congruence ]
  | |- emits _ _ _ =>
      unfold emits; cbn;
      first [ exists []; split; [symmetry; apply app_nil_r | constructor]
            | eexists; split;
              [reflexivity
              | constructor; [|constructor]; cbn;
                first [ solve [auto]
                      | solve [split; auto]
                      | solve [split; [auto | left; auto]]
                      | solve [split; [auto | right; auto]] ] ] ]
  end.

Ltac request_related :=
  let w := fresh "w" in
  intros; cbn beta in *;
  unfold preserves, send, delete_message, pin, edit, delete_thread, sleep,
    save_bad_help_thread_data, delete_bad_help_thread_data,
    save_inactive_help_thread_data, delete_inactive_help_thread_data,
    request;
  intros w; cbn beta;
  destruct (faults w) as [|[?|] ?];
  try destruct (existsb _ (messages _));
  cbn [snd]; related.

(** X8. Whatever requests fail, every handler and every sweep keeps at
    most one row per thread id in both tables. *)
Theorem handlers_keep_one_row_per_thread (K : Constants) (w : World) :
  at_most_one_row_per_thread w ->
  (forall parent thread,
     at_most_one_row_per_thread (snd (on_thread_create K parent thread w)))
  /\ (forall parent audit before after,
        at_most_one_row_per_thread
          (snd (on_thread_update K parent audit before after w)))
  /\ (forall id,
        at_most_one_row_per_thread (snd (on_raw_thread_delete id w)))
  /\ (forall msg channel,
        at_most_one_row_per_thread (snd (on_message_delete K msg channel w)))
  /\ (forall thread,
        at_most_one_row_per_thread
          (snd (help_thread_deletion_checks K thread w)))
  /\ (forall channels,
        at_most_one_row_per_thread
          (snd (inactive_help_thread_alert K channels w)))
  /\ (forall channels,
        at_most_one_row_per_thread
          (snd (delete_help_threads_without_starter_message channels w)))
  /\ (forall channels,
        at_most_one_row_per_thread
          (snd (force_help_thread_archive_after_timeout channels w))).
Proof.
  intros U.
  assert (T : forall id : Z, (fun _ : Z => True) id) by (intros; exact I).
  repeat match goal with |- _ /\ _ => split end; intros.
  - refine (_ U). change (rows_kept w (snd (on_thread_create K parent thread w))).
    generalize w.
    apply preserves_on_thread_create with (S := fun _ => True);
      first [exact rows_kept_step | exact I | request_related].
  - refine (_ U).
    change (rows_kept w (snd (on_thread_update K parent audit before after w))).
    generalize w.
    apply preserves_on_thread_update with (S := fun _ => True);
      first [exact rows_kept_step | exact I | request_related].
  - refine (_ U). change (rows_kept w (snd (on_raw_thread_delete id w))).
    generalize w.
    apply preserves_on_raw_thread_delete with (S := fun _ => True);
      first [exact rows_kept_step | exact I | request_related].
  - refine (_ U). change (rows_kept w (snd (on_message_delete K msg channel w))).
    generalize w.
    apply preserves_on_message_delete with (S := fun _ => True);
      first [exact rows_kept_step | destruct channel; exact I | request_related].
  - refine (_ U).
    change (rows_kept w (snd (help_thread_deletion_checks K thread w))).
    generalize w.
    apply preserves_deletion_checks with (S := fun _ => True);
      first [exact rows_kept_step | exact I | request_related].
  - refine (_ U).
    change (rows_kept w (snd (inactive_help_thread_alert K channels w))).
    generalize w.
    apply preserves_inactive_sweep with (S := fun _ => True);
      first [exact rows_kept_step | exact T | request_related].
  - refine (_ U).
    change (rows_kept w
              (snd (delete_help_threads_without_starter_message channels w))).
    generalize w.
    apply preserves_orphan_sweep with (S := fun _ => True);
      first [exact rows_kept_step | exact T | request_related].
  - refine (_ U).
    change (rows_kept w
              (snd (force_help_thread_archive_after_timeout channels w))).
    generalize w.
    apply preserves_archive_sweep with (S := fun _ => True);
      first [exact rows_kept_step | exact T | request_related].
Qed.

Lemma handlers_keep_one_row_per_thread_witness :
  let w :=
    set_bad [{| bad_thread_id := 20; last_cautioned_ts := 0%Q;
                caution_message_ids := [1000] |}]
      (set_inactive [{| inactive_thread_id := 7; last_active_ts := 0%Q;
                        alert_message_id := Some 1001 |}]
         (Sample.world [Sample.message 20 20 false 0%Q] 0%Q
            [None; Some Forbidden])) in
  at_most_one_row_per_thread w
  /\ at_most_one_row_per_thread
       (snd (on_thread_create Sample.constants Sample.forum
               Sample.hi_thread w)).
Proof.
  cbv zeta.
  assert (U : at_most_one_row_per_thread
                (set_bad [{| bad_thread_id := 20; last_cautioned_ts := 0%Q;
                             caution_message_ids := [1000] |}]
                   (set_inactive
                      [{| inactive_thread_id := 7; last_active_ts := 0%Q;
                          alert_message_id := Some 1001 |}]
                      (Sample.world [Sample.message 20 20 false 0%Q] 0%Q
                         [None; Some Forbidden])))).
  { split; repeat constructor; cbn; tauto. }
  split; [exact U|].
  exact (proj1 (handlers_keep_one_row_per_thread Sample.constants _ U)
           Sample.forum Sample.hi_thread).
Defined.

Ltac steps :=
  repeat first [ apply both_step | apply emits_step | apply same_bad_step
               | apply same_inactive_step | apply same_messages_step
               | apply other_rows_kept_step | apply rows_kept_step ].

(** X9. Whatever requests fail, [on_thread_create] leaves the table of
    inactive threads and the rows of the other threads as they are; it
    pins, sends cautions to its thread and edits its thread, and does
    nothing else: no message or thread is deleted. *)
Theorem on_thread_create_footprint
  (K : Constants) (parent : ForumChannel) (thread : Thread) (w : World) :
  let w' := snd (on_thread_create K parent thread w) in
  inactive_help_thread_data w' = inactive_help_thread_data w
  /\ other_rows_kept (thread_id thread) w w'
  /\ emits (create_event (thread_id thread)) w w'.
Proof.
  cbv zeta.
  change (both same_inactive
            (both (other_rows_kept (thread_id thread))
                  (emits (create_event (thread_id thread))))
            w (snd (on_thread_create K parent thread w))).
  generalize w.
  apply preserves_on_thread_create with (S := fun id => id = thread_id thread);
    first [solve [steps] | reflexivity | request_related].
Qed.

(** X10. Whatever requests fail, [on_thread_update] leaves the rows of the
    other threads as they are; it sends cautions and the solved alert to
    its thread, deletes messages of its thread, edits its thread and
    sleeps, and does nothing else: it pins nothing and
    deletes no thread. *)
Theorem on_thread_update_footprint
  (K : Constants) (parent : ForumChannel) (audit : list AuditLogEntry)
  (before after : Thread) (w : World) :
  let w' := snd (on_thread_update K parent audit before after w) in
  other_rows_kept (thread_id after) w w'
  /\ emits (update_event (thread_id after)) w w'.
Proof.
  cbv zeta.
  change (both (other_rows_kept (thread_id after))
               (emits (update_event (thread_id after)))
            w (snd (on_thread_update K parent audit before after w))).
  generalize w.
  apply preserves_on_thread_update with (S := fun id => id = thread_id after);
    first [solve [steps] | reflexivity | request_related].
Qed.

(** X11. Whatever requests fail, the inactivity sweep leaves the table of
    cautioned threads as it is, and does nothing but send inactivity
    alerts and delete messages: it edits and deletes no thread. *)
Theorem inactivity_sweep_footprint
  (K : Constants) (channels : list Channel) (w : World) :
  let w' := snd (inactive_help_thread_alert K channels w) in
  bad_help_thread_data w' = bad_help_thread_data w
  /\ emits alert_event w w'.
Proof.
  cbv zeta.
  change (both same_bad (emits alert_event)
            w (snd (inactive_help_thread_alert K channels w))).
  generalize w.
  apply preserves_inactive_sweep with (S := fun _ => True);
    first [solve [steps] | intros; exact I | request_related].
Qed.

(** X12. Whatever requests fail, the archive-timeout sweep leaves both
    tables and the messages as they are, and does nothing but edit
    threads. *)
Theorem archive_sweep_footprint (channels : list Channel) (w : World) :
  let w' := snd (force_help_thread_archive_after_timeout channels w) in
  bad_help_thread_data w' = bad_help_thread_data w
  /\ inactive_help_thread_data w' = inactive_help_thread_data w
  /\ messages w' = messages w
  /\ emits archive_event w w'.
Proof.
  cbv zeta.
  change (both same_bad (both same_inactive (both same_messages
                                                  (emits archive_event)))
            w (snd (force_help_thread_archive_after_timeout channels w))).
  generalize w.
  apply preserves_archive_sweep with (S := fun _ => True);
    first [solve [steps] | intros; exact I | request_related].
Qed.

(** X13. Whatever requests fail, the sweep for threads without starter
    message leaves both tables and the messages as they are, and does
    nothing but spawn deletion checks. *)
Theorem orphan_sweep_footprint (channels : list Channel) (w : World) :
  let w' := snd (delete_help_threads_without_starter_message channels w) in
  bad_help_thread_data w' = bad_help_thread_data w
  /\ inactive_help_thread_data w' = inactive_help_thread_data w
  /\ messages w' = messages w
  /\ emits task_event w w'.
Proof.
  cbv zeta.
  change (both same_bad (both same_inactive (both same_messages
                                                  (emits task_event)))
            w (snd (delete_help_threads_without_starter_message channels w))).
  generalize w.
  apply preserves_orphan_sweep with (S := fun _ => True);
    first [solve [steps] | intros; exact I | request_related].
Qed.

(** X14. Whatever requests fail, a deletion check adds to the log nothing,
    or the warning and the sleep of 300 seconds, or these and the
    deletion of its thread: a thread is deleted only after the warning was
    posted and the delay has passed. The check leaves both tables as they
    are and lets no [discord.HTTPException] through. *)
Theorem deletion_checks_runs (K : Constants) (thread : Thread) (w : World) :
  let w' := snd (help_thread_deletion_checks K thread w) in
  bad_help_thread_data w' = bad_help_thread_data w
  /\ inactive_help_thread_data w' = inactive_help_thread_data w
  /\ (exists m,
        log w' = log w
        \/ log w' = log w ++ firstn 2 (deletion_run (thread_id thread) m)
        \/ log w' = log w ++ deletion_run (thread_id thread) m)
  /\ match fst (help_thread_deletion_checks K thread w) with
     | Ok _ => True
     | Raise e => is_HTTPException e = false
     end.
Proof.
  cbv zeta.
  unfold help_thread_deletion_checks, try_except, bind, history, send, sleep,
    delete_thread, request, deletion_run, pass, ret.
  destruct (faults w) as [|[e1|] [|[e2|] [|[e3|] fs]]] eqn:Hf; cbn;
    try (destruct (is_HTTPException e1) eqn:E1; cbn);
    try (destruct (_ <? THREAD_DELETION_MESSAGE_THRESHOLD K); cbn);
    repeat (progress (cbn; rewrite ?Hf));
    try (destruct (is_HTTPException e2) eqn:E2; cbn);
    try (destruct (is_HTTPException e3) eqn:E3; cbn);
    rewrite <- ?app_assoc; cbn;
    (split; [reflexivity | split; [reflexivity | split; [| auto]]]);
    exists (next_message_id w); auto.
Qed.

(** X15. [on_raw_thread_delete] ends normally when no request fails.
    Whatever requests fail, it leaves both tables, the messages and the
    log as they are: the [DELETE] it runs is not committed, so the row of
    the deleted thread stays in the table of inactive threads. *)
Theorem on_raw_thread_delete_keeps_record (id : Z) (w : World) :
  let w' := snd (on_raw_thread_delete id w) in
  (faults w = [] -> fst (on_raw_thread_delete id w) = Ok tt)
  /\ bad_help_thread_data w' = bad_help_thread_data w
  /\ inactive_help_thread_data w' = inactive_help_thread_data w
  /\ messages w' = messages w
  /\ log w' = log w.
Proof.
  cbv zeta.
  unfold on_raw_thread_delete, bind, when, inactive_help_thread_data_exists,
    delete_inactive_help_thread_data, connect, delete_inactive_statement,
    request, pass, ret.
  destruct (faults w) as [|[e1|] [|[e2|] fs]] eqn:Hf; cbn;
    try (destruct (Table.select_exists _ _ _) eqn:E; cbn);
    repeat (progress (cbn; rewrite ?Hf));
    repeat split; auto; discriminate.
Qed.

Lemma on_raw_thread_delete_keeps_record_witness :
  let w :=
    set_inactive [{| inactive_thread_id := 7; last_active_ts := 0%Q;
                     alert_message_id := Some 1001 |}]
      (Sample.world [] 0%Q []) in
  fst (on_raw_thread_delete 7 w) = Ok tt
  /\ Table.select_exists inactive_thread_id 7
       (inactive_help_thread_data (snd (on_raw_thread_delete 7 w))) = true.
Proof.
  cbv zeta.
  pose proof (on_raw_thread_delete_keeps_record 7
                (set_inactive [{| inactive_thread_id := 7;
                                  last_active_ts := 0%Q;
                                  alert_message_id := Some 1001 |}]
                   (Sample.world [] 0%Q []))) as H.
  cbv zeta in H. destruct H as (H1 & _ & H3 & _).
  split; [exact (H1 eq_refl) | rewrite H3; reflexivity].
Defined.

(** X16. [fetch_last_thread_activity_dt] repeats the search of
    [fetch_last_thread_message]: whatever requests fail, it leaves the
    same world, raises what the search raises, and returns the creation
    time of the message found, or that of the thread when none is found. *)
Theorem last_activity_is_last_message (t : Thread) (w : World) :
  snd (fetch_last_thread_activity_dt t w) = snd (fetch_last_thread_message t w)
  /\ fst (fetch_last_thread_activity_dt t w)
     = match fst (fetch_last_thread_message t w) with
       | Ok (Some m) => Ok (Some (message_created_at m))
       | Ok None => Ok (created_at t)
       | Raise e => Raise e
       end.
Proof.
  unfold fetch_last_thread_activity_dt, fetch_last_thread_message.
  destruct (last_message t) as [m|]; [split; reflexivity|].
  unfold bind, try_except, ret.
  destruct (last_message_id t) as [id|].
  - destruct (fetch_message (thread_id t) id w) as [[m|e] w1]; cbn.
    + split; reflexivity.
    + destruct (is_NotFound e); cbn; [|split; reflexivity].
      destruct (history (thread_id t) 1 w1) as [[l|e'] w2]; cbn;
        [destruct (hd_error l) | destruct (is_HTTPException e')];
        split; reflexivity.
  - cbn. destruct (history (thread_id t) 1 w) as [[l|e'] w2]; cbn;
      [destruct (hd_error l) | destruct (is_HTTPException e')];
      split; reflexivity.
Qed.

(** X18. In an iteration of the archive-timeout sweep without a failing
    request, on a thread that has a creation time: a thread that is not
    archived, locked or pinned and whose last activity is older than its
    auto-archive duration (in minutes) gets one edit and nothing else.
    The edit sets [archived] to [True] where the name carries the owner's
    id; where it does not, the edit renames the thread and sets
    [archived] to [False]. It never changes the tags. Any other thread is
    left alone. *)
Theorem archive_timeout_decision
  (forum_channel : ForumChannel) (now_ts : Q) (t : Thread) (w : World)
  (c last_active : Q) :
  faults w = [] ->
  created_at t = Some c ->
  fst (fetch_last_thread_activity_dt t w) = Ok (Some last_active) ->
  let w' :=
    snd (force_help_thread_archive_after_timeout_iteration
           forum_channel now_ts t w) in
  let due :=
    archived t = false /\ locked t = false /\ flags_pinned t = false
    /\ (inject_Z (auto_archive_duration t) < (now_ts - last_active) / 60)%Q in
  (due ->
   exists e,
     w' = emit (EvEdit (thread_id t) e) w
     /\ e_name e = owner_suffix_edit (name t) (owner_id t)
     /\ e_archived e = Some (has_owner_id (name t) (owner_id t))
     /\ e_applied_tags e = None
     /\ e_auto_archive_duration e = None
     /\ e_slowmode_delay e
        = (if any_tag "solved" (applied_tags t)
              && (slowmode_delay t
                  =? default_thread_slowmode_delay forum_channel)
           then Some 60 else None))
  /\ (~ due -> w' = w).
Proof.
  intros Hf Hc Hla. cbv zeta.
  assert (Hfetch : fetch_last_thread_activity_dt t w = (Ok (Some last_active), w)).
  { destruct (fetch_last_thread_activity_dt_ok t w Hf) as [dt [E _]].
    rewrite E in Hla |- *. cbn in Hla. congruence. }
  unfold force_help_thread_archive_after_timeout_iteration.
  rewrite try_except_eq, Hc.
  destruct (archived t) eqn:Ea; cbn [orb negb];
    [split; [intros (X & _); discriminate | reflexivity]|].
  destruct (locked t) eqn:El; cbn [orb negb];
    [split; [intros (_ & X & _); discriminate | reflexivity]|].
  destruct (flags_pinned t) eqn:Ep; cbn [orb negb];
    [split; [intros (_ & _ & X & _); discriminate | reflexivity]|].
  rewrite (bind_ok _ _ _ _ _ Hfetch). cbn [timestamp].
  rewrite (bind_ok _ _ w w last_active eq_refl).
  destruct (Qltb (inject_Z (auto_archive_duration t))
              ((now_ts - last_active) / 60)) eqn:Q1.
  - cbv zeta. rewrite edit_ok by exact Hf. cbn [snd].
    split; [intros _ | intros N; exfalso; apply N; repeat split;
                       apply Qltb_lt; exact Q1].
    eexists. split; [reflexivity|].
    unfold force_archive_name_edit, owner_suffix_edit.
    destruct (has_owner_id (name t) (owner_id t)); cbn;
      destruct (any_tag "solved" (applied_tags t)
                && (slowmode_delay t
                    =? default_thread_slowmode_delay forum_channel));
      cbn; repeat split; reflexivity.
  - cbn [snd pass ret]. split; [|reflexivity].
    intros (_ & _ & _ & X). apply Qltb_lt in X. congruence.
Qed.

Lemma archive_timeout_decision_witness :
  let t := Sample.idle_thread in
  let w := Sample.world [] (inject_Z 864000) [] in
  exists e,
    snd (force_help_thread_archive_after_timeout_iteration
           Sample.idle_forum (inject_Z 864000) t w)
    = emit (EvEdit 7 e) w
    /\ e_archived e = Some false.
Proof.
  cbv zeta.
  destruct (archive_timeout_decision Sample.idle_forum (inject_Z 864000)
              Sample.idle_thread (Sample.world [] (inject_Z 864000) [])
              0%Q 0%Q eq_refl eq_refl eq_refl) as [H _].
  destruct H as (e & H1 & _ & H3 & _).
  - repeat split; reflexivity.
  - exists e. split; [exact H1 | exact H3].
Defined.

(** X19. The clearing of an inactivity alert after new activity. Let the
    thread have a record whose alert is older than the last activity, and
    a last message that is not a system message. Whatever the outcome of
    the request that deletes the alert, the record is rewritten with the
    time of the last message and without an alert id ([finally]). A
    [discord.NotFound] of the deletion is swallowed; any other exception
    is raised again after the record was rewritten. *)
Theorem clear_alert_rewrites_record
  (t : Thread) (last_active : Q) (w : World) (row : InactiveHelpThreadData)
  (alert_id : Z) (m : Message) (f : option exn) :
  Table.select_first inactive_thread_id (thread_id t)
    (inactive_help_thread_data w) = Some row ->
  alert_message_id row = Some alert_id ->
  alert_id <> 0 ->
  (snowflake_time alert_id < last_active)%Q ->
  last_message t = Some m ->
  is_system m = false ->
  faults w = [None; None; f] ->
  let r := clear_inactive_alert t last_active w in
  inactive_help_thread_data (snd r)
  = Table.upsert inactive_thread_id
      {| inactive_thread_id := thread_id t;
         last_active_ts := message_created_at m;
         alert_message_id := None |}
      (inactive_help_thread_data w)
  /\ fst r = match f with
             | Some e => if is_NotFound e then Ok tt else Raise e
             | None => Ok tt
             end.
Proof.
  intros Hrow Hid Hnz Hlt Hm Hsys Hf. cbv zeta.
  destruct (select_first_some _ _ _ _ Hrow) as (_ & _ & Hex).
  apply Z.eqb_neq in Hnz. apply Qltb_lt in Hlt.
  unfold clear_inactive_alert, fetch_last_thread_message, bind, try_except,
    try_finally, inactive_help_thread_data_exists,
    fetch_inactive_help_thread_data, delete_message,
    save_inactive_help_thread_data, request, pass, ret.
  rewrite Hf. cbn. rewrite Hex. cbn. rewrite Hrow, Hid. cbn.
  rewrite Hnz, Hlt, Hm. cbn. rewrite Hsys. cbn.
  destruct f as [e|]; cbn.
  - destruct (is_NotFound e) eqn:E; cbn; rewrite ?E; split; reflexivity.
  - destruct (existsb _ _); cbn; split; reflexivity.
Qed.

Lemma clear_alert_rewrites_record_witness :
  let t := Sample.idle_thread in
  let row := {| inactive_thread_id := 7; last_active_ts := 0%Q;
                alert_message_id := Some 1 |} in
  let w := set_inactive [row]
             (Sample.world [] 0%Q [None; None; Some Forbidden]) in
  inactive_help_thread_data
    (snd (clear_inactive_alert t (inject_Z 1420070401) w))
  = [{| inactive_thread_id := 7; last_active_ts := 0%Q;
        alert_message_id := None |}]
  /\ fst (clear_inactive_alert t (inject_Z 1420070401) w) = Raise Forbidden.
Proof.
  cbv zeta.
  apply (clear_alert_rewrites_record Sample.idle_thread (inject_Z 1420070401)
           (set_inactive [{| inactive_thread_id := 7; last_active_ts := 0%Q;
                             alert_message_id := Some 1 |}]
              (Sample.world [] 0%Q [None; None; Some Forbidden]))
           {| inactive_thread_id := 7; last_active_ts := 0%Q;
              alert_message_id := Some 1 |}
           1 (Sample.message 900 7 false 0%Q) (Some Forbidden));
    try reflexivity.
  discriminate.
Defined.

(** Case analysis on the fault script, request by request, and on the
    tests of the code. *)
Ltac fault_step :=
  cbn [fst snd faults log messages now next_message_id
       bad_help_thread_data inactive_help_thread_data
       set_faults set_bad set_inactive set_messages set_now
       set_next_message_id emit];
  repeat match goal with
         | H : faults ?w = _ |- context [faults ?w] => rewrite H
         end;
  try match goal with
      | |- context [match faults ?w with _ => _ end] =>
          destruct (faults w) as [|[?|] ?] eqn:?
      | |- context [match ?l with [] => _ | _ :: _ => _ end] =>
          is_var l; destruct l as [|[?|] ?]
      | |- context [if ?b then _ else _] => destruct b eqn:?
      | |- context [match ?o with Some _ => _ | None => _ end] =>
          destruct o eqn:?
      end.

Ltac fault_cases := repeat progress fault_step.

(** X20. Whatever requests fail: when a thread has gained a solved tag
    and the solved transition of [on_thread_update] ends normally, the
    solved alert was sent to the thread, and the edits to come drop the
    unsolved tags and set the auto-archive duration to 60 minutes. Both
    tables are as they were: the [DELETE] of the record of inactivity is
    not committed, so a record of the thread stays. *)
Theorem solved_transition_alerts_and_edits
  (K : Constants) (parent : ForumChannel) (before after : Thread)
  (thread_edits edits : ThreadEdits) (w : World) :
  any_tag "solved" (applied_tags before) = false ->
  any_tag "solved" (applied_tags after) = true ->
  fst (solved_transitions K parent before after thread_edits w) = Ok edits ->
  let w' := snd (solved_transitions K parent before after thread_edits w) in
  (exists m evs,
     log w' = log w ++ EvSend (thread_id after) SolvedAlert m :: evs)
  /\ e_applied_tags edits
     = Some (filter (fun tag => negb (tag_startswith "unsolved" tag))
               (applied_tags after))
  /\ e_auto_archive_duration edits = Some 60
  /\ inactive_help_thread_data w' = inactive_help_thread_data w
  /\ bad_help_thread_data w' = bad_help_thread_data w.
Proof.
  intros Hb Ha. cbv zeta.
  unfold solved_transitions. rewrite Hb, Ha. cbn [negb andb].
  unfold send_help_thread_solved_alert, bind, when, try_finally, try_except,
    send, inactive_help_thread_data_exists, fetch_inactive_help_thread_data,
    delete_message, delete_inactive_help_thread_data, connect,
    delete_inactive_statement, request, pass, ret.
  fault_cases; intros H; try discriminate H;
    injection H as <-; cbn [e_applied_tags e_auto_archive_duration
                            set_applied_tags set_reason
                            set_auto_archive_duration];
    rewrite <- ?app_assoc; cbn [app];
    (split; [eexists; eexists; reflexivity | repeat split; reflexivity]).
Qed.

Lemma solved_transition_alerts_and_edits_witness :
  let w :=
    set_inactive [{| inactive_thread_id := 7; last_active_ts := 0%Q;
                     alert_message_id := Some 1001 |}]
      (Sample.world [] 0%Q [None; None; None; Some NotFound]) in
  let r :=
    solved_transitions Sample.constants Sample.idle_forum Sample.idle_thread
      solved_idle_thread no_edits w in
  exists edits,
    fst r = Ok edits
    /\ e_applied_tags edits = Some [Sample.solved_tag]
    /\ inactive_help_thread_data (snd r) = inactive_help_thread_data w.
Proof.
  cbv zeta. eexists. split; [reflexivity|].
  pose proof (solved_transition_alerts_and_edits
                Sample.constants Sample.idle_forum Sample.idle_thread
                solved_idle_thread no_edits _
                (set_inactive [{| inactive_thread_id := 7;
                                  last_active_ts := 0%Q;
                                  alert_message_id := Some 1001 |}]
                   (Sample.world [] 0%Q [None; None; None; Some NotFound]))
                eq_refl eq_refl eq_refl) as H.
  cbv zeta in H. destruct H as (_ & H2 & _ & H4 & _).
  split; [exact H2 | exact H4].
Defined.

Lemma In_id_union (a b : list Z) (x : Z) :
  In x (id_union a b) <-> In x a \/ In x b.
Proof.
  unfold id_union, id_set.
  rewrite in_app_iff, filter_In, nodup_In, negb_true_iff.
  split.
  - tauto.
  - intros [H | H]; [tauto|].
    destruct (existsb (Z.eqb x) a) eqn:E; [|tauto].
    apply existsb_exists in E. destruct E as [y [Hy E]].
    apply Z.eqb_eq in E. subst. tauto.
Qed.

(** X21. Without a failing request, [record_cautions] leaves one record
    for the thread whose ids are those recorded before together with the
    ids of the new caution messages, and whose time is the current one:
    cautions accumulate over successive updates of a thread. *)
Theorem record_cautions_accumulates
  (after : Thread) (caution_messages : list Message) (w : World) :
  faults w = [] ->
  let w' := snd (record_cautions after caution_messages w) in
  fst (record_cautions after caution_messages w) = Ok tt
  /\ exists row,
       Table.select_first bad_thread_id (thread_id after)
         (bad_help_thread_data w') = Some row
       /\ bad_thread_id row = thread_id after
       /\ last_cautioned_ts row = now w
       /\ forall id,
            In id (caution_message_ids row)
            <-> In id (recorded_cautions (thread_id after) w)
                \/ In id (map message_id caution_messages).
Proof.
  intros Hf. cbv zeta. unfold record_cautions, recorded_cautions.
  rewrite (bind_ok _ _ _ _ _ (bad_exists_ok _ _ Hf)).
  destruct (Table.select_exists bad_thread_id (thread_id after)
              (bad_help_thread_data w)) eqn:E; cbn [negb when].
  - destruct (select_exists_first _ _ _ E) as [row [Hrow Hk]].
    unfold pass. rewrite (bind_ok _ _ w w tt eq_refl).
    rewrite (bind_ok _ _ _ _ _ (fetch_bad_ok _ _ _ Hf Hrow)).
    rewrite (bind_ok _ _ _ _ _ (time_time_ok w)).
    rewrite save_bad_ok by exact Hf. cbn [fst snd bad_help_thread_data set_bad].
    split; [reflexivity|]. eexists. split.
    + apply (upsert_select_first bad_thread_id
               {| bad_thread_id := thread_id after;
                  last_cautioned_ts := now w;
                  caution_message_ids :=
                    id_union (caution_message_ids row)
                      (map message_id caution_messages) |}).
    + cbn. rewrite Hrow. repeat split; try apply In_id_union;
        intros H; apply In_id_union; exact H.
  - rewrite (select_first_none _ _ _ E).
    rewrite bind_assoc.
    rewrite (bind_ok _ _ _ _ _ (time_time_ok w)).
    set (first :=
           {| bad_thread_id := thread_id after;
              last_cautioned_ts := now w;
              caution_message_ids :=
                id_set (map message_id caution_messages) |}).
    rewrite (bind_ok _ _ _ _ _ (save_bad_ok first w Hf)).
    set (w1 := set_bad _ w).
    assert (Hf1 : faults w1 = []) by exact Hf.
    assert (Hrow : Table.select_first bad_thread_id (thread_id after)
                     (bad_help_thread_data w1) = Some first)
      by apply (upsert_select_first bad_thread_id first).
    rewrite (bind_ok _ _ _ _ _ (fetch_bad_ok _ _ _ Hf1 Hrow)).
    rewrite (bind_ok _ _ _ _ _ (time_time_ok w1)).
    rewrite save_bad_ok by exact Hf1.
    cbn [fst snd bad_help_thread_data set_bad].
    split; [reflexivity|]. eexists. split.
    + apply (upsert_select_first bad_thread_id
               {| bad_thread_id := thread_id after;
                  last_cautioned_ts := now w1;
                  caution_message_ids :=
                    id_union (caution_message_ids first)
                      (map message_id caution_messages) |}).
    + cbn. repeat split.
      * intros H. apply In_id_union in H. unfold id_set in H.
        rewrite nodup_In in H. tauto.
      * intros [[]|H]. apply In_id_union. tauto.
Qed.

Lemma record_cautions_accumulates_witness :
  let w :=
    set_bad [{| bad_thread_id := 20; last_cautioned_ts := 0%Q;
                caution_message_ids := [1000] |}]
      (Sample.world [] 5%Q []) in
  exists row,
    Table.select_first bad_thread_id 20
      (bad_help_thread_data
         (snd (record_cautions Sample.hi_thread
                 [Sample.message 1001 20 true 5%Q] w))) = Some row
    /\ (In 1000 (caution_message_ids row)
        /\ In 1001 (caution_message_ids row)).
Proof.
  cbv zeta.
  destruct (record_cautions_accumulates Sample.hi_thread
              [Sample.message 1001 20 true 5%Q]
              (set_bad [{| bad_thread_id := 20; last_cautioned_ts := 0%Q;
                           caution_message_ids := [1000] |}]
                 (Sample.world [] 5%Q []))
              eq_refl) as (_ & row & H1 & _ & _ & H4).
  exists row. split; [exact H1|].
  split; apply H4; [left | right]; vm_compute; auto.
Defined.

(** ** Updates made by the bot itself *)

Section OwnUpdates.

Variable K : Constants.
Variable R : World -> World -> Prop.
Hypothesis HR : step_relation R.

Lemma preserves_bind_request_ret {A B} (v : A) (f : A -> M B) :
  preserves R (f v) -> preserves R (bind (request (ret v)) f).
Proof.
  intros H w. unfold bind, request, ret.
  destruct (faults w) as [|[e|] fs]; cbn.
  - apply H.
  - apply (step_faults R HR).
  - exact (step_trans R HR _ _ _ (step_faults R HR w fs) (H _)).
Qed.

Lemma preserves_bind_ret {A B} (v : A) (f : A -> M B) :
  preserves R (f v) -> preserves R (bind (ret v) f).
Proof. intros H w. exact (H w). Qed.

Lemma check_updated_thread_own (parent : ForumChannel)
  (before after : Thread) :
  check_updated_thread K parent false before after
  = ret (false, false, [], no_edits).
Proof.
  unfold check_updated_thread. rewrite !andb_false_r. reflexivity.
Qed.

Lemma preserves_resolve_cautions_own (parent : ForumChannel)
  (after : Thread) (thread_edits : ThreadEdits) :
  preserves R (resolve_cautions K parent false after thread_edits).
Proof.
  unfold resolve_cautions.
  apply (preserves_bind R HR); [apply (preserves_bad_exists R HR)|].
  intros exists_. rewrite andb_false_r. cbn [andb].
  apply (preserves_ret R HR).
Qed.

End OwnUpdates.

(** X22. An update of a thread whose audit-log entry names the bot as its
    author never leads to a caution and never touches the table of
    cautioned threads, whatever requests fail: the bot neither cautions
    nor resolves cautions in response to its own edits. *)
Theorem bot_update_never_cautions
  (K : Constants) (parent : ForumChannel) (audit : list AuditLogEntry)
  (before after : Thread) (w : World) :
  find_updater (firstn 20 audit) (thread_id after) = Some (bot_user_id K) ->
  let w' := snd (on_thread_update K parent audit before after w) in
  bad_help_thread_data w' = bad_help_thread_data w
  /\ emits no_caution_event w w'.
Proof.
  intros Hup. cbv zeta.
  change (both same_bad (emits no_caution_event)
            w (snd (on_thread_update K parent audit before after w))).
  generalize w.
  assert (HR : step_relation (both same_bad (emits no_caution_event)))
    by steps.
  unfold on_thread_update.
  apply (preserves_when _ HR). apply (preserves_try_except _ HR);
    [|apply (preserves_ret _ HR)].
  destruct (negb (archived after || locked after)).
  - unfold fetch_audit_logs.
    apply (preserves_bind_request_ret _ HR). cbv zeta.
    rewrite Hup. cbn [opt_id_eqb]. rewrite Z.eqb_refl. cbn [negb].
    rewrite check_updated_thread_own.
    apply preserves_bind_ret. cbn [orb].
    pres HR ltac:(first
      [ apply (preserves_resolve_cautions_own K _ HR)
      | apply preserves_solved_transitions with (S := fun _ => True);
        first [exact HR | exact I | request_related]
      | request_related ]).
  - pres HR ltac:(request_related).
Qed.

Lemma bot_update_never_cautions_witness :
  let audit := [{| target_id := Some 20; user_id := Some 1 |}] in
  let w := Sample.world [] 0%Q [] in
  bad_help_thread_data
    (snd (on_thread_update Sample.constants Sample.forum audit
            Sample.renamed_thread Sample.hi_thread w))
  = bad_help_thread_data w.
Proof.
  cbv zeta.
  exact (proj1 (bot_update_never_cautions Sample.constants Sample.forum
                  [{| target_id := Some 20; user_id := Some 1 |}]
                  Sample.renamed_thread Sample.hi_thread
                  (Sample.world [] 0%Q []) eq_refl)).
Defined.

(** ** The handlers contain HTTP errors *)

Lemma contained_pin (P : World -> Prop) (m : Message) :
  http_contained P (pin m) any_result.
Proof. unfold pin. by_request. Qed.

Lemma contained_fetch_audit_logs (P : World -> Prop)
  (audit : list AuditLogEntry) :
  http_contained P (fetch_audit_logs audit) any_result.
Proof. unfold fetch_audit_logs. by_request. Qed.

Lemma contained_time_time (P : World -> Prop) :
  http_contained P time_time any_result.
Proof. intros w Hw Pw. cbn. split; [assumption | exact I]. Qed.

Lemma contained_sleep (P : World -> Prop) (seconds : Z) :
  http_contained P (sleep seconds) any_result.
Proof. intros w Hw Pw. cbn. split; [assumption | exact I]. Qed.

Lemma contained_bad_exists (P : World -> Prop) (id : Z) :
  http_contained P (bad_help_thread_data_exists id)
    (fun b w => b = Table.select_exists bad_thread_id id
                      (bad_help_thread_data w)).
Proof. unfold bad_help_thread_data_exists. by_request. Qed.

Lemma contained_fetch_bad (id : Z) :
  http_contained
    (fun w => Table.select_exists bad_thread_id id
                (bad_help_thread_data w) = true)
    (fetch_bad_help_thread_data id) any_result.
Proof.
  unfold fetch_bad_help_thread_data.
  apply contained_request. intros w fs Pw. cbn.
  destruct (select_exists_first _ _ _ Pw) as [row [Hrow _]].
  rewrite Hrow. split; [reflexivity | exact I].
Qed.

(** After a save, the row exists. *)
Lemma contained_save_bad (P : World -> Prop) (data : BadHelpThreadData) :
  http_contained P (save_bad_help_thread_data data)
    (fun _ w => Table.select_exists bad_thread_id (bad_thread_id data)
                  (bad_help_thread_data w) = true).
Proof.
  unfold save_bad_help_thread_data.
  apply contained_request. intros w fs Pw. cbn.
  split; [reflexivity|].
  exact (proj2 (proj2 (select_first_some _ _ _ _
                         (upsert_select_first bad_thread_id data _)))).
Qed.

Lemma contained_delete_bad (P : World -> Prop) (id : Z) :
  http_contained P (delete_bad_help_thread_data id) any_result.
Proof. unfold delete_bad_help_thread_data. by_request. Qed.

Lemma contained_delete_inactive (P : World -> Prop) (id : Z) :
  http_contained P (delete_inactive_help_thread_data id) any_result.
Proof. unfold delete_inactive_help_thread_data. by_request. Qed.

Lemma contained_forget {A} (P : World -> Prop) (Q : A -> World -> Prop)
  (c : M A) :
  http_contained P c Q -> http_contained P c any_result.
Proof.
  intros H. apply (contained_weaken _ _ _ _ _ H); unfold any_result; auto.
Qed.

Section HandlersContained.

Variable K : Constants.

Lemma contained_caution_about_name (P : World -> Prop) (t : Thread)
  (types : list pystr) :
  http_contained P (caution_about_help_forum_channel_thread_name K t types)
    any_result.
Proof.
  revert P. induction types as [|c types IH]; intros P;
    cbn [caution_about_help_forum_channel_thread_name].
  - apply contained_ret. constructor.
  - eapply contained_bind; [apply contained_send|]. intros m.
    eapply contained_bind; [apply IH|]. intros ms.
    apply contained_ret. constructor.
Qed.

Lemma contained_caution_new_thread (P : World -> Prop) (t : Thread)
  (thread_edits : ThreadEdits) :
  http_contained P (caution_new_thread K t thread_edits) any_result.
Proof.
  unfold caution_new_thread,
    caution_about_regulars_help_forum_channel_thread_tags. cbv zeta.
  eapply contained_bind with (R := any_result).
  { destruct (nonempty _); [|apply contained_ret; constructor].
    eapply contained_bind; [apply contained_caution_about_name|].
    intros ms. apply contained_ret. constructor. }
  intros [[issues msgs] edits].
  eapply contained_bind with (R := any_result).
  { destruct (_ && _); [|apply contained_ret; constructor].
    eapply contained_bind; [apply contained_send|].
    intros m. apply contained_ret. constructor. }
  intros [issues' msgs']. apply contained_ret. constructor.
Qed.

(** Where no record exists, one is saved. *)
Lemma contained_ensure_record (P : World -> Prop) (id : Z)
  (data : Q -> BadHelpThreadData) :
  (forall ts, bad_thread_id (data ts) = id) ->
  http_contained P
    (exists_ <- bad_help_thread_data_exists id ;;
     when (negb exists_)
       (ts <- time_time ;; save_bad_help_thread_data (data ts)))
    (fun _ w => Table.select_exists bad_thread_id id
                  (bad_help_thread_data w) = true).
Proof.
  intros Hid.
  eapply contained_bind; [apply contained_bad_exists|].
  intros [|]; cbn [negb when].
  - apply contained_ret. intros w H. symmetry. exact H.
  - eapply contained_bind; [apply contained_time_time|]. intros ts.
    eapply contained_weaken;
      [apply (contained_save_bad any_world) | intros; exact I |].
    cbn. intros _ w H. rewrite Hid in H. exact H.
Qed.

Lemma contained_record_new_cautions (P : World -> Prop) (t : Thread)
  (issues_found : bool) (msgs : list Message) :
  http_contained P (record_new_cautions t issues_found msgs) any_result.
Proof.
  unfold record_new_cautions.
  destruct issues_found; [|apply contained_ret; constructor].
  eapply contained_forget.
  apply (contained_ensure_record P (thread_id t)
           (fun ts => {| bad_thread_id := thread_id t;
                         last_cautioned_ts := ts;
                         caution_message_ids := id_set (map message_id msgs) |})).
  reflexivity.
Qed.

Lemma contained_on_thread_create_body (parent : ForumChannel) (t : Thread) :
  http_contained any_world
    (starter <-
       match starter_message t with
       | Some m =>
           if message_id m =? thread_id t then ret m
           else fetch_message (thread_id t) (thread_id t)
       | None => fetch_message (thread_id t) (thread_id t)
       end ;;
     pin starter ;;;
     let tags := applied_tags t in
     let thread_edits :=
       if (Z.of_nat (length tags) <? FORUM_THREAD_TAG_LIMIT K)
          || ((Z.of_nat (length tags) =? FORUM_THREAD_TAG_LIMIT K)
              && any_tag "solved" tags)
       then
         set_applied_tags
           (insert_unsolved_tag (available_tags parent)
              (filter (fun tag => negb (tag_startswith "solved" tag)) tags))
           no_edits
       else no_edits in
     ' (issues_found, caution_messages, thread_edits) <-
       caution_new_thread K t thread_edits ;;
     record_new_cautions t issues_found caution_messages ;;;
     let thread_edits :=
       match on_thread_create_name_edit (name t) (owner_id t) with
       | Some new_name => set_name new_name thread_edits
       | None => thread_edits
       end in
     when (has_edits thread_edits) (edit t thread_edits))
    any_result.
Proof.
  eapply contained_bind with (R := any_result).
  { destruct (starter_message t) as [m|];
      [destruct (message_id m =? thread_id t);
       [apply contained_ret; constructor|]|];
      apply contained_fetch_message. }
  intros starter.
  eapply contained_bind; [apply contained_pin|]. intros ?. cbv zeta.
  eapply contained_bind; [apply contained_caution_new_thread|].
  intros [[issues msgs] edits].
  eapply contained_bind; [apply contained_record_new_cautions|]. intros ?.
  unfold when. destruct (has_edits _);
    [apply contained_edit | apply contained_ret; constructor].
Qed.

Lemma contained_check_updated_thread (P : World -> Prop)
  (parent : ForumChannel) (by_other : bool) (before after : Thread) :
  http_contained P (check_updated_thread K parent by_other before after)
    any_result.
Proof.
  unfold check_updated_thread,
    caution_about_regulars_help_forum_channel_thread_tags. cbv zeta.
  destruct (_ && by_other).
  - destruct (nonempty _); [|apply contained_ret; constructor].
    eapply contained_bind; [apply contained_caution_about_name|].
    intros ms. apply contained_ret. constructor.
  - destruct (_ && by_other); [|apply contained_ret; constructor].
    destruct (_ && _); [|apply contained_ret; constructor].
    eapply contained_bind; [apply contained_send|].
    intros m. apply contained_ret. constructor.
Qed.

(** The fetch that follows the check for a record finds it: no
    [LookupError]. *)
Lemma contained_record_cautions (P : World -> Prop) (after : Thread)
  (msgs : list Message) :
  http_contained P (record_cautions after msgs) any_result.
Proof.
  unfold record_cautions.
  eapply contained_bind; [apply contained_bad_exists|].
  intros exists_.
  eapply contained_bind
    with (R := fun _ w => Table.select_exists bad_thread_id (thread_id after)
                            (bad_help_thread_data w) = true).
  - destruct exists_; cbn [negb when].
    + apply contained_ret. intros w H. symmetry. exact H.
    + eapply contained_bind; [apply contained_time_time|]. intros ts.
      apply (contained_save_bad _
               {| bad_thread_id := thread_id after;
                  last_cautioned_ts := ts;
                  caution_message_ids := id_set (map message_id msgs) |}).
  - intros ?.
    eapply contained_bind; [apply contained_fetch_bad|]. intros row.
    eapply contained_bind; [apply contained_time_time|]. intros ts.
    eapply contained_forget. apply contained_save_bad.
Qed.

Lemma contained_delete_caution_messages (P : World -> Prop) (t : Thread)
  (ids : list Z) :
  http_contained P (delete_caution_messages t ids) any_result.
Proof.
  apply contained_any with (Q := any_result).
  unfold delete_caution_messages. apply contained_for_each. intros id.
  apply contained_try_except; [apply contained_delete_message|].
  apply contained_ret. constructor.
Qed.

Lemma contained_resolve_cautions (P : World -> Prop) (parent : ForumChannel)
  (by_other : bool) (after : Thread) (thread_edits : ThreadEdits) :
  http_contained P (resolve_cautions K parent by_other after thread_edits)
    any_result.
Proof.
  unfold resolve_cautions.
  eapply contained_bind; [apply contained_bad_exists|].
  intros [|]; cbn [andb]; [|apply contained_ret; constructor].
  destruct (by_other && has_no_issues K after);
    [|apply contained_ret; constructor].
  cbv zeta.
  eapply contained_bind with (R := any_result).
  { eapply contained_weaken; [apply contained_fetch_bad| |auto].
    cbn. intros w H. symmetry. exact H. }
  intros row.
  eapply contained_bind; [apply contained_delete_caution_messages|].
  intros ?.
  eapply contained_bind; [apply contained_delete_bad|]. intros ?.
  apply contained_ret. constructor.
Qed.

Lemma contained_solved_transitions (P : World -> Prop)
  (parent : ForumChannel) (before after : Thread)
  (thread_edits : ThreadEdits) :
  http_contained P (solved_transitions K parent before after thread_edits)
    any_result.
Proof.
  unfold solved_transitions, send_help_thread_solved_alert. cbv zeta.
  destruct (_ && _).
  - eapply contained_bind with (R := any_result).
    { eapply contained_bind; [apply contained_send|]. intros m.
      apply contained_ret. constructor. }
    intros ?.
    eapply contained_bind; [apply contained_inactive_exists|].
    intros [|]; cbn [when].
    + eapply contained_bind with (R := any_result).
      * eapply contained_bind with (R := any_result).
        { eapply contained_weaken; [apply contained_fetch_inactive| |auto].
          cbn. intros w H. symmetry. exact H. }
        intros row.
        apply contained_try_finally; [|apply contained_delete_inactive].
        destruct (alert_message_id row) as [id|];
          [|apply contained_ret; constructor].
        unfold when. destruct (negb _); [|apply contained_ret; constructor].
        apply contained_try_except; [apply contained_delete_message|].
        apply contained_ret. constructor.
      * intros ?. apply contained_ret. constructor.
    + eapply contained_bind with (R := any_result);
        [apply contained_ret; constructor|].
      intros ?. apply contained_ret. constructor.
  - destruct (_ && _); apply contained_ret; constructor.
Qed.

Lemma contained_on_thread_update_body (parent : ForumChannel)
  (audit : list AuditLogEntry) (before after : Thread) :
  http_contained any_world
    (if negb (archived after || locked after)
     then
       entries <- fetch_audit_logs audit ;;
       let updater_id := find_updater entries (thread_id after) in
       let by_other := negb (opt_id_eqb updater_id (bot_user_id K)) in
       ' (bad_thread_name, bad_thread_tags, caution_messages, thread_edits)
         <- check_updated_thread K parent by_other before after ;;
       thread_edits <-
         (if bad_thread_name || bad_thread_tags
          then record_cautions after caution_messages ;;; ret thread_edits
          else
            thread_edits <-
              resolve_cautions K parent by_other after thread_edits ;;
            solved_transitions K parent before after thread_edits) ;;
       when (has_edits thread_edits)
         (sleep 5 ;;; edit after thread_edits)
     else if archived after && negb (locked after)
     then
       when (any_tag "solved" (applied_tags after))
         (let thread_edits :=
            if slowmode_delay after =? default_thread_slowmode_delay parent
            then set_slowmode_delay 60 no_edits
            else no_edits in
          let thread_edits :=
            match on_thread_update_archived_name_edit
                    (name after) (owner_id after) with
            | Some new_name => set_name new_name thread_edits
            | None => thread_edits
            end in
          when (has_edits thread_edits)
            (edit after (set_archived false no_edits) ;;;
             sleep 5 ;;;
             edit after (set_archived true thread_edits)))
     else pass)
    any_result.
Proof.
  destruct (negb _).
  - eapply contained_bind; [apply contained_fetch_audit_logs|].
    intros entries. cbv zeta.
    eapply contained_bind; [apply contained_check_updated_thread|].
    intros [[[bad_name bad_tags] msgs] edits].
    eapply contained_bind with (R := any_result).
    { destruct (bad_name || bad_tags).
      - eapply contained_bind; [apply contained_record_cautions|].
        intros ?. apply contained_ret. constructor.
      - eapply contained_bind; [apply contained_resolve_cautions|].
        intros edits'. apply contained_solved_transitions. }
    intros edits'. unfold when.
    destruct (has_edits _); [|apply contained_ret; constructor].
    eapply contained_bind; [apply contained_sleep|]. intros ?.
    apply contained_edit.
  - destruct (_ && _); [|apply contained_ret; constructor].
    unfold when. destruct (any_tag _ _); [|apply contained_ret; constructor].
    cbv zeta. destruct (has_edits _); [|apply contained_ret; constructor].
    eapply contained_bind; [apply contained_edit|]. intros ?.
    eapply contained_bind; [apply contained_sleep|]. intros ?.
    apply contained_edit.
Qed.

End HandlersContained.

(** X23. When the requests that fail raise a [discord.HTTPException],
    the handlers [on_thread_create] and [on_thread_update] end normally,
    and so does a deletion check: the exception is caught, and no other
    exception is raised; in particular each fetch of a record finds the
    row that the handler has just seen or saved. *)
Theorem handlers_contain_http_errors
  (K : Constants) (parent : ForumChannel) (audit : list AuditLogEntry)
  (before after thread : Thread) (w : World) :
  http_only (faults w) ->
  fst (on_thread_create K parent thread w) = Ok tt
  /\ fst (on_thread_update K parent audit before after w) = Ok tt
  /\ fst (help_thread_deletion_checks K thread w) = Ok tt.
Proof.
  intros Hw. repeat split.
  - unfold on_thread_create, when.
    destruct (is_help_forum K (parent_id thread)); [|reflexivity].
    apply iteration_ends_normally;
      [apply contained_on_thread_create_body | exact Hw].
  - unfold on_thread_update, when.
    destruct (is_help_forum K (parent_id after)); [|reflexivity].
    apply iteration_ends_normally;
      [apply contained_on_thread_update_body | exact Hw].
  - unfold help_thread_deletion_checks.
    apply iteration_ends_normally; [|exact Hw].
    eapply contained_bind; [apply contained_history|]. intros msgs.
    cbv zeta. destruct (_ <? _); [|apply contained_ret; constructor].
    eapply contained_bind; [apply contained_send|]. intros ?.
    eapply contained_bind; [apply contained_sleep|]. intros ?.
    unfold delete_thread. by_request.
Qed.

Lemma handlers_contain_http_errors_witness :
  let w := Sample.world [Sample.message 20 20 false 0%Q] 0%Q
             [None; None; Some Forbidden] in
  fst (on_thread_create Sample.constants Sample.forum Sample.hi_thread w)
  = Ok tt.
Proof.
  cbv zeta.
  refine (proj1 (handlers_contain_http_errors Sample.constants Sample.forum []
                   Sample.hi_thread Sample.hi_thread Sample.hi_thread
                   (Sample.world [Sample.message 20 20 false 0%Q] 0%Q
                      [None; None; Some Forbidden]) _)).
  repeat constructor.
Defined.

(** ** Marking a thread as solved by a reaction *)

Lemma filter_length_le {A} (f : A -> bool) (l : list A) :
  (length (filter f l) <= length l)%nat.
Proof.
  induction l as [|x l IH]; cbn; [lia|]. destruct (f x); cbn; lia.
Qed.

(** X24. The tag edit of [on_raw_reaction_add]. Where the handler edits
    the tags of a thread, the reaction is on the starter message and
    comes from the owner of the thread or from an administrator; the new
    tag list is within the tag limit of the forum, holds no tag named
    "unsolved", and holds a tag whose name starts with "solved", by which
    [on_thread_update] takes the thread for solved. *)
Theorem reaction_add_marks_solved
  (K : Constants) (user_id : Z) (by_admin : bool) (msg_id : Z)
  (channel : Thread) (parent : ForumChannel) (new_tags : list ForumTag) :
  reaction_add_solved_tags K user_id by_admin msg_id channel parent
  = Some new_tags ->
  msg_id = thread_id channel
  /\ (user_id = owner_id channel \/ by_admin = true)
  /\ Z.of_nat (length new_tags) <= FORUM_THREAD_TAG_LIMIT K
  /\ any_tag "solved" new_tags = true
  /\ forall tag, In tag new_tags -> tag_named ["unsolved"]%string tag = false.
Proof.
  unfold reaction_add_solved_tags. cbv zeta.
  destruct (_ && negb (flags_pinned channel)); [|discriminate].
  destruct ((msg_id =? thread_id channel)
            && ((user_id =? owner_id channel) || by_admin)
            && nonempty (applied_tags channel)
            && negb (existsb (tag_named ["solved"; "invalid"]%string)
                       (applied_tags channel))) eqn:C; [|discriminate].
  cbn [andb].
  destruct (Z.of_nat (length (applied_tags channel))
            <? FORUM_THREAD_TAG_LIMIT K) eqn:L; [|discriminate].
  destruct (find (tag_startswith "solved") (available_tags parent))
    as [tag|] eqn:F; [|discriminate].
  intros H. injection H as <-.
  apply andb_true_iff in C. destruct C as [C _].
  apply andb_true_iff in C. destruct C as [C _].
  apply andb_true_iff in C. destruct C as [C1 C2].
  apply Z.eqb_eq in C1. apply orb_true_iff in C2. apply Z.ltb_lt in L.
  apply find_some in F. destruct F as [_ F].
  split; [exact C1|]. split.
  { destruct C2 as [C2|C2]; [left; apply Z.eqb_eq; exact C2 | right; exact C2]. }
  split.
  { rewrite length_app. cbn [length].
    match goal with
    | |- context [filter ?f ?l] => pose proof (filter_length_le f l)
    end.
    lia. }
  split.
  { unfold any_tag. rewrite existsb_app. cbn [existsb]. rewrite F.
    rewrite orb_true_r. reflexivity. }
  intros tg Hin. apply in_app_iff in Hin. destruct Hin as [Hin|[<-|[]]].
  - apply filter_In in Hin. destruct Hin as [_ Hin].
    apply negb_true_iff in Hin. exact Hin.
  - unfold tag_named. cbn [existsb]. rewrite orb_false_r.
    destruct (PyStr.eqb (lower (tag_name tag)) (lit "unsolved")) eqn:E;
      [|reflexivity].
    apply eqb_eq in E. unfold tag_startswith in F. rewrite E in F.
    discriminate F.
Qed.

Lemma reaction_add_marks_solved_witness :
  reaction_add_solved_tags Sample.constants 42 false 7
    Sample.idle_thread Sample.idle_forum = Some [Sample.solved_tag]
  /\ Z.of_nat (length [Sample.solved_tag])
     <= FORUM_THREAD_TAG_LIMIT Sample.constants
  /\ any_tag "solved" [Sample.solved_tag] = true.
Proof.
  split; [reflexivity|].
  destruct (reaction_add_marks_solved Sample.constants 42 false 7
              Sample.idle_thread Sample.idle_forum
              [Sample.solved_tag] eq_refl)
    as (_ & _ & H3 & H4 & _).
  split; [exact H3 | exact H4].
Defined.

(** X25. Whatever requests fail, an iteration of a sweep and a deletion
    check act on their own thread only: the events they add concern that
    thread, and the rows of the other threads stay as they are. *)
Theorem iterations_act_on_their_thread
  (K : Constants) (forum_channel : ForumChannel) (now_ts : Q)
  (thread : Thread) (w : World) :
  let R := both (other_rows_kept (thread_id thread))
                (emits (thread_event (thread_id thread))) in
  R w (snd (inactive_help_thread_alert_iteration K forum_channel now_ts
              thread w))
  /\ R w (snd (force_help_thread_archive_after_timeout_iteration
                 forum_channel now_ts thread w))
  /\ R w (snd (delete_help_threads_without_starter_message_iteration
                 thread w))
  /\ R w (snd (help_thread_deletion_checks K thread w)).
Proof.
  cbv zeta. repeat match goal with |- _ /\ _ => split end; generalize w.
  - apply preserves_inactive_iteration
      with (S := fun id => id = thread_id thread);
      first [solve [steps] | reflexivity | request_related].
  - apply preserves_archive_iteration
      with (S := fun id => id = thread_id thread);
      first [solve [steps] | reflexivity | request_related].
  - apply preserves_orphan_iteration
      with (S := fun id => id = thread_id thread);
      first [solve [steps] | reflexivity | request_related].
  - apply preserves_deletion_checks
      with (S := fun id => id = thread_id thread);
      first [solve [steps] | reflexivity | request_related].
Qed.

(** ** The deletion check on a thread with replies only *)

Lemma deletion_checks_decision_witness :
  let w := Sample.world Sample.replies 0%Q [] in
  member_message_count Sample.replied_thread w
  < THREAD_DELETION_MESSAGE_THRESHOLD Sample.constants
  /\ log (snd (help_thread_deletion_checks Sample.constants
                 Sample.replied_thread w))
     = [EvSend 8 DeletionWarning 1000; EvSleep 300; EvDeleteThread 8].
Proof.
  cbv zeta.
  assert (H : member_message_count Sample.replied_thread
                (Sample.world Sample.replies 0%Q [])
              < THREAD_DELETION_MESSAGE_THRESHOLD Sample.constants)
    by reflexivity.
  split; [exact H|].
  exact (proj2 (proj1 (deletion_checks_decision Sample.constants
                         Sample.replied_thread
                         (Sample.world Sample.replies 0%Q []) eq_refl) H)).
Defined.

(** ** The tag limit *)

Lemma preserves_bind_post {A B} (R : World -> World -> Prop)
  (HR : step_relation R) (Q : A -> Prop) (c : M A) (f : A -> M B) :
  preserves R c ->
  (forall w, match fst (c w) with Ok a => Q a | Raise _ => True end) ->
  (forall a, Q a -> preserves R (f a)) ->
  preserves R (bind c f).
Proof.
  intros Hc Hq Hf w. specialize (Hc w). specialize (Hq w). unfold bind.
  destruct (c w) as [[a|e] w1]; cbn in *; [|exact Hc].
  exact (step_trans R HR _ _ _ Hc (Hf a Hq w1)).
Qed.

(** The cautions of a new thread leave the tags of the edits alone. *)
Lemma caution_new_thread_tags (K : Constants) (t : Thread)
  (thread_edits : ThreadEdits) (w : World) :
  match fst (caution_new_thread K t thread_edits w) with
  | Ok (_, _, edits) => e_applied_tags edits = e_applied_tags thread_edits
  | Raise _ => True
  end.
Proof.
  unfold caution_new_thread, bind, ret. cbv zeta.
  destruct (nonempty _).
  - destruct (caution_about_help_forum_channel_thread_name K t _ w)
      as [[ms|e] w1]; cbn; [|exact I].
    destruct (_ && _); cbn.
    + destruct (caution_about_regulars_help_forum_channel_thread_tags K t w1)
        as [[m|e] w2]; cbn; [|exact I].
      destruct (mem_str _ _); reflexivity.
    + destruct (mem_str _ _); reflexivity.
  - cbn. destruct (_ && _); cbn; [|reflexivity].
    destruct (caution_about_regulars_help_forum_channel_thread_tags K t w)
      as [[m|e] w2]; cbn; [reflexivity | exact I].
Qed.

Lemma insert_unsolved_tag_length (available new_tags : list ForumTag) :
  (length (insert_unsolved_tag available new_tags) <= S (length new_tags))%nat.
Proof.
  unfold insert_unsolved_tag. destruct (find _ _); cbn; lia.
Qed.

Lemma filter_length_lt {A} (f : A -> bool) (l : list A) :
  existsb (fun x => negb (f x)) l = true ->
  (length (filter f l) < length l)%nat.
Proof.
  induction l as [|x l IH]; cbn; [discriminate|].
  pose proof (filter_length_le f l).
  destruct (f x); cbn; [intros H'; apply IH in H'; lia | intros _; lia].
Qed.

(** X26. Whatever requests fail, an edit that [on_thread_create] makes
    never carries more tags than [FORUM_THREAD_TAG_LIMIT]: the unsolved
    tag is added only where there is room for it, or where a solved tag
    is dropped for it. *)
Theorem on_thread_create_respects_tag_limit
  (K : Constants) (parent : ForumChannel) (thread : Thread) (w : World) :
  emits (tags_within_limit K) w (snd (on_thread_create K parent thread w)).
Proof.
  generalize w.
  assert (HR : step_relation (emits (tags_within_limit K)))
    by apply emits_step.
  change (preserves (emits (tags_within_limit K))
            (on_thread_create K parent thread)).
  unfold on_thread_create.
  apply (preserves_when _ HR). apply (preserves_try_except _ HR);
    [|apply (preserves_ret _ HR)].
  apply (preserves_bind _ HR).
  { destruct (starter_message thread) as [m|];
      [destruct (message_id m =? thread_id thread);
       [apply (preserves_ret _ HR)|]|];
      apply (preserves_fetch_message _ HR). }
  intros starter.
  apply (preserves_bind _ HR); [request_related|]. intros _. cbv zeta.
  set (tags := applied_tags thread).
  set (first_edits :=
         if (Z.of_nat (length tags) <? FORUM_THREAD_TAG_LIMIT K)
            || ((Z.of_nat (length tags) =? FORUM_THREAD_TAG_LIMIT K)
                && any_tag "solved" tags)
         then
           set_applied_tags
             (insert_unsolved_tag (available_tags parent)
                (filter (fun tag => negb (tag_startswith "solved" tag)) tags))
             no_edits
         else no_edits).
  assert (Hfirst : match e_applied_tags first_edits with
                   | Some new_tags =>
                       Z.of_nat (length new_tags) <= FORUM_THREAD_TAG_LIMIT K
                   | None => True
                   end).
  { subst first_edits.
    destruct (Z.of_nat (length tags) <? FORUM_THREAD_TAG_LIMIT K) eqn:L;
      cbn [orb].
    - cbn [e_applied_tags set_applied_tags]. apply Z.ltb_lt in L.
      pose proof (insert_unsolved_tag_length (available_tags parent)
                    (filter (fun tag => negb (tag_startswith "solved" tag))
                       tags)).
      pose proof (filter_length_le
                    (fun tag => negb (tag_startswith "solved" tag)) tags).
      lia.
    - destruct (_ && _) eqn:E; cbn [e_applied_tags set_applied_tags no_edits];
        [|exact I].
      apply andb_true_iff in E. destruct E as [E1 E2].
      apply Z.eqb_eq in E1.
      pose proof (insert_unsolved_tag_length (available_tags parent)
                    (filter (fun tag => negb (tag_startswith "solved" tag))
                       tags)).
      assert (length (filter (fun tag => negb (tag_startswith "solved" tag))
                        tags) < length tags)%nat.
      { apply filter_length_lt. unfold any_tag in E2.
        apply existsb_exists in E2. destruct E2 as [tag [Hin Htag]].
        apply existsb_exists. exists tag. split; [exact Hin|].
        rewrite negb_involutive. exact Htag. }
      lia. }
  apply (preserves_bind_post _ HR
           (fun r => e_applied_tags (snd r) = e_applied_tags first_edits)).
  - apply preserves_caution_new_thread with (S := fun _ => True);
      first [exact HR | exact I | request_related].
  - intros w0. pose proof (caution_new_thread_tags K thread first_edits w0) as H.
    destruct (fst (caution_new_thread K thread first_edits w0))
      as [[[issues msgs] edits]|e]; [exact H | exact I].
  - intros [[issues msgs] edits] Hedits. cbn [snd] in Hedits.
    apply (preserves_bind _ HR).
    + apply preserves_record_new_cautions with (S := fun _ => True);
        first [exact HR | exact I | request_related].
    + intros _. cbv zeta. apply (preserves_when _ HR).
      assert (Hlast : forall e,
                 e_applied_tags e = e_applied_tags first_edits ->
                 preserves (emits (tags_within_limit K)) (edit thread e)).
      { intros e He w0. unfold edit, request, emits.
        destruct (faults w0) as [|[x|] fs]; cbn;
          first [ exists []; split; [symmetry; apply app_nil_r | constructor]
                | eexists; split;
                  [reflexivity
                  | constructor; [|constructor]; cbn; rewrite He;
                    exact Hfirst] ]. }
      apply Hlast.
      destruct (on_thread_create_name_edit _ _); [cbn|]; exact Hedits.
Qed.

(** What a computation returns, when it returns. *)
Lemma bind_value {A B} (c : M A) (f : A -> M B)
  (QA : A -> Prop) (QB : B -> Prop) :
  (forall w, match fst (c w) with Ok a => QA a | Raise _ => True end) ->
  (forall a, QA a ->
     forall w, match fst (f a w) with Ok b => QB b | Raise _ => True end) ->
  forall w, match fst (bind c f w) with Ok b => QB b | Raise _ => True end.
Proof.
  intros Hc Hf w. specialize (Hc w). unfold bind.
  destruct (c w) as [[a|e] w1]; cbn in *; [|exact I].
  exact (Hf a Hc w1).
Qed.

Lemma any_value {A} (c : M A) (w : World) :
  match fst (c w) with Ok _ => True | Raise _ => True end.
Proof. destruct (fst (c w)); exact I. Qed.

Section TagLimit.

Variable K : Constants.
Variable parent : ForumChannel.
Variables before after : Thread.
Hypothesis Hafter :
  Z.of_nat (length (applied_tags after)) <= FORUM_THREAD_TAG_LIMIT K.

Lemma check_updated_thread_tags (by_other : bool) (w : World) :
  match fst (check_updated_thread K parent by_other before after w) with
  | Ok (_, _, _, edits) => e_applied_tags edits = None
  | Raise _ => True
  end.
Proof.
  unfold check_updated_thread, bind, ret. cbv zeta.
  destruct (_ && by_other).
  - destruct (nonempty _); [|reflexivity].
    destruct (caution_about_help_forum_channel_thread_name K after _ w)
      as [[ms|e] w1]; cbn; [|exact I].
    destruct (_ && _); [reflexivity|]. destruct (_ && _); reflexivity.
  - destruct (_ && by_other); [|reflexivity].
    destruct (_ && _); [|reflexivity].
    destruct (caution_about_regulars_help_forum_channel_thread_tags K after w)
      as [[m|e] w1]; cbn; [reflexivity | exact I].
Qed.

Lemma resolve_cautions_tags (by_other : bool) (thread_edits : ThreadEdits)
  (w : World) :
  match fst (resolve_cautions K parent by_other after thread_edits w) with
  | Ok edits => e_applied_tags edits = e_applied_tags thread_edits
  | Raise _ => True
  end.
Proof.
  revert w. unfold resolve_cautions.
  apply bind_value with (QA := fun _ => True); [intros; apply any_value|].
  intros exists_ _. destruct (_ && _); [|reflexivity]. cbv zeta.
  apply bind_value with (QA := fun _ => True); [intros; apply any_value|].
  intros row _.
  apply bind_value with (QA := fun _ => True); [intros; apply any_value|].
  intros ? _.
  apply bind_value with (QA := fun _ => True); [intros; apply any_value|].
  intros ? _ w. cbn. destruct (_ =? _); reflexivity.
Qed.

Lemma solved_transitions_tags (thread_edits : ThreadEdits) (w : World) :
  e_applied_tags thread_edits = None ->
  match fst (solved_transitions K parent before after thread_edits w) with
  | Ok edits => edit_within_limit K edits
  | Raise _ => True
  end.
Proof.
  intros Hnone. revert w. unfold solved_transitions. cbv zeta.
  destruct (_ && _).
  - apply bind_value with (QA := fun _ => True); [intros; apply any_value|].
    intros ? _.
    apply bind_value with (QA := fun _ => True); [intros; apply any_value|].
    intros ? _.
    apply bind_value with (QA := fun _ => True); [intros; apply any_value|].
    intros ? _ w. unfold edit_within_limit. cbn.
    match goal with
    | |- context [filter ?f ?l] => pose proof (filter_length_le f l)
    end.
    lia.
  - destruct (_ && _); intros w; unfold edit_within_limit; cbn.
    + destruct (_ <? _) eqn:L; [|exact Hafter].
      apply Z.ltb_lt in L.
      pose proof (insert_unsolved_tag_length (available_tags parent)
                    (applied_tags after)).
      lia.
    + rewrite Hnone. exact I.
Qed.

Lemma preserves_edit_bounded (t : Thread) (e : ThreadEdits) :
  edit_within_limit K e ->
  preserves (emits (tags_within_limit K)) (edit t e).
Proof.
  intros He w. unfold edit, request, emits.
  destruct (faults w) as [|[x|] fs]; cbn;
    first [ exists []; split; [symmetry; apply app_nil_r | constructor]
          | eexists; split;
            [reflexivity | constructor; [|constructor]; exact He] ].
Qed.

(** X27. Whatever requests fail, on a thread whose tags are within
    [FORUM_THREAD_TAG_LIMIT], no edit that [on_thread_update] makes
    carries more tags than the limit: marking as solved only drops tags,
    and the unsolved tag is put back only where there is room for it. *)
Theorem on_thread_update_respects_tag_limit
  (audit : list AuditLogEntry) (w : World) :
  emits (tags_within_limit K) w
    (snd (on_thread_update K parent audit before after w)).
Proof.
  generalize w.
  assert (HR : step_relation (emits (tags_within_limit K)))
    by apply emits_step.
  change (preserves (emits (tags_within_limit K))
            (on_thread_update K parent audit before after)).
  unfold on_thread_update.
  apply (preserves_when _ HR). apply (preserves_try_except _ HR);
    [|apply (preserves_ret _ HR)].
  destruct (negb _).
  - apply (preserves_bind _ HR); [apply (preserves_fetch_audit_logs _ HR)|].
    intros entries. cbv zeta.
    apply (preserves_bind_post _ HR
             (fun r => e_applied_tags (snd r) = None)).
    { apply preserves_check_updated_thread with (S := fun _ => True);
        first [exact HR | exact I | request_related]. }
    { intros w0.
      pose proof (check_updated_thread_tags
                    (negb (opt_id_eqb (find_updater entries (thread_id after))
                             (bot_user_id K))) w0) as H.
      destruct (fst (check_updated_thread K parent _ before after w0))
        as [[[[bn bt] msgs] edits]|e]; [exact H | exact I]. }
    intros [[[bn bt] msgs] edits] Hnone. cbn [snd] in Hnone.
    apply (preserves_bind_post _ HR (edit_within_limit K)).
    + destruct (bn || bt).
      * apply (preserves_bind _ HR); [|intros; apply (preserves_ret _ HR)].
        apply preserves_record_cautions with (S := fun _ => True);
          first [exact HR | exact I | request_related].
      * apply (preserves_bind _ HR); [|intros edits'].
        -- apply preserves_resolve_cautions with (S := fun _ => True);
             first [exact HR | exact I | request_related].
        -- apply preserves_solved_transitions with (S := fun _ => True);
             first [exact HR | exact I | request_related].
    + destruct (bn || bt).
      * apply bind_value with (QA := fun _ => True);
          [intros; apply any_value|].
        intros ? _ w0. unfold edit_within_limit. cbn. rewrite Hnone. exact I.
      * apply bind_value
          with (QA := fun e => e_applied_tags e = None).
        -- intros w0. pose proof (resolve_cautions_tags
                                    (negb (opt_id_eqb
                                             (find_updater entries
                                                (thread_id after))
                                             (bot_user_id K)))
                                    edits w0) as H.
           destruct (fst (resolve_cautions K parent _ after edits w0));
             [congruence | exact I].
        -- intros edits' Hn w0. apply solved_transitions_tags. exact Hn.
    + intros edits' Hb. apply (preserves_when _ HR).
      apply (preserves_bind _ HR); [request_related|]. intros _.
      apply preserves_edit_bounded. exact Hb.
  - destruct (_ && _); [|apply (preserves_ret _ HR)].
    apply (preserves_when _ HR). cbv zeta. apply (preserves_when _ HR).
    assert (Hb : forall e, e_applied_tags e = None -> edit_within_limit K e).
    { intros e He. unfold edit_within_limit. rewrite He. exact I. }
    apply (preserves_bind _ HR);
      [apply preserves_edit_bounded; apply Hb; reflexivity|]. intros _.
    apply (preserves_bind _ HR); [request_related|]. intros _.
    apply preserves_edit_bounded. apply Hb.
    destruct (on_thread_update_archived_name_edit _ _);
      destruct (_ =? _); reflexivity.
Qed.

End TagLimit.

Lemma on_thread_update_respects_tag_limit_witness :
  emits (tags_within_limit Sample.constants)
    (Sample.world [] 0%Q [])
    (snd (on_thread_update Sample.constants Sample.idle_forum []
            Sample.idle_thread solved_idle_thread (Sample.world [] 0%Q []))).
Proof.
  apply (on_thread_update_respects_tag_limit Sample.constants
           Sample.idle_forum Sample.idle_thread solved_idle_thread).
  vm_compute. discriminate.
Defined.

(* ===================================================================== *)
(** * The inactivity sweep as a whole *)
(* ===================================================================== *)

(** ** Without a failing request the sweep runs to its end *)

Lemma quiet_time_time (thread : Z) : quiet thread time_time.
Proof.
  intros w Hw. cbn. repeat split; eauto.
  exists []. rewrite app_nil_r. auto.
Qed.

Lemma quiet_fetch_archived_threads (thread : Z) (f : ForumChannel) :
  quiet thread (fetch_archived_threads f).
Proof. unfold fetch_archived_threads. quiet_prim. Qed.

Lemma quiet_save_inactive (thread : Z) (data : InactiveHelpThreadData) :
  quiet thread (save_inactive_help_thread_data data).
Proof. unfold save_inactive_help_thread_data. quiet_prim. Qed.

Lemma quiet_for_each {A} (thread : Z) (xs : list A) (body : A -> M unit) :
  (forall x, quiet thread (body x)) -> quiet thread (for_each xs body).
Proof.
  intros H. induction xs as [|x xs IH]; cbn [for_each].
  - apply quiet_ret.
  - apply quiet_bind; [apply H | intros _; exact IH].
Qed.

(** A computation that reads only. *)
Lemma quiet_read {A} (thread : Z) (c : M A) :
  (forall w, faults w = [] -> exists a, c w = (Ok a, w)) -> quiet thread c.
Proof.
  intros H w Hw. destruct (H w Hw) as [a E]. rewrite E. cbn.
  repeat split; eauto. exists []. rewrite app_nil_r. auto.
Qed.

Lemma quiet_clear_inactive_alert (thread : Z) (t : Thread) (last_active : Q) :
  quiet thread (clear_inactive_alert t last_active).
Proof.
  intros w Hf. unfold clear_inactive_alert.
  rewrite (bind_ok _ _ _ _ _ (inactive_exists_ok _ _ Hf)).
  destruct (Table.select_exists _ _ _) eqn:E;
    [|exact (quiet_ret thread tt w Hf)].
  destruct (select_exists_first _ _ _ E) as [row [Hrow _]].
  rewrite (bind_ok _ _ _ _ _ (fetch_inactive_ok _ _ _ Hf Hrow)).
  destruct (alert_message_id row) as [alert_id|];
    [|exact (quiet_ret thread tt w Hf)].
  destruct (_ && _); [|exact (quiet_ret thread tt w Hf)].
  clear E Hrow. revert w Hf.
  apply quiet_try_except. apply quiet_bind.
  - apply quiet_read. intros w Hf.
    exact (fetch_last_thread_message_ok t w Hf).
  - intros [m|]; [|apply quiet_ret].
    destruct (negb (is_system m)); [|apply quiet_ret].
    apply quiet_try_finally;
      [apply quiet_delete_message | apply quiet_save_inactive].
Qed.

Lemma quiet_inactive_iteration (K : Constants) (thread : Z)
  (forum_channel : ForumChannel) (now_ts : Q) (t : Thread) :
  quiet thread (inactive_help_thread_alert_iteration K forum_channel now_ts t).
Proof.
  unfold inactive_help_thread_alert_iteration. apply quiet_try_except.
  destruct (created_at t) as [c|] eqn:Hc; [|apply quiet_ret].
  destruct (negb _); [|apply quiet_ret].
  intros w Hf.
  destruct (fetch_last_thread_activity_dt_ok t w Hf) as [dt [E Hdt]].
  rewrite (bind_ok _ _ _ _ _ E).
  destruct dt as [last_active|];
    [|exfalso; apply Hdt; [congruence | reflexivity]].
  cbn [timestamp]. rewrite (bind_ok _ _ w w last_active eq_refl).
  destruct (Qltb _ _); [|exact (quiet_clear_inactive_alert _ _ _ w Hf)].
  rewrite (bind_ok _ _ _ _ _ (inactive_exists_ok _ _ Hf)).
  assert (NF : exists b,
             (if negb (Table.select_exists inactive_thread_id (thread_id t)
                         (inactive_help_thread_data w))
              then ret true
              else inactive_thread_data <-
                     fetch_inactive_help_thread_data (thread_id t) ;;
                   ret (Qltb (last_active_ts inactive_thread_data) last_active))
               w
             = (Ok b, w)).
  { destruct (Table.select_exists _ _ _) eqn:Ex; cbn [negb].
    - destruct (select_exists_first _ _ _ Ex) as [row [Hrow _]].
      rewrite (bind_ok _ _ _ _ _ (fetch_inactive_ok _ _ _ Hf Hrow)).
      eexists. reflexivity.
    - eexists. reflexivity. }
  destruct NF as [b NF]. rewrite (bind_ok _ _ _ _ _ NF).
  destruct (_ && _); [|exact (quiet_ret thread tt w Hf)].
  revert w Hf E NF. intros w Hf _ _. revert w Hf.
  apply quiet_bind; [apply quiet_send; reflexivity|].
  intros m. apply quiet_save_inactive.
Qed.

Lemma quiet_inactive_sweep (K : Constants) (thread : Z)
  (channels : list Channel) :
  quiet thread (inactive_help_thread_alert K channels).
Proof.
  induction channels as [|[f|] channels IH];
    cbn [inactive_help_thread_alert]; try apply quiet_ret.
  apply quiet_bind; [apply quiet_time_time|]. intros now_ts.
  apply quiet_bind; [apply quiet_fetch_archived_threads|]. intros archived_thrs.
  apply quiet_bind; [|intros _; exact IH].
  apply quiet_for_each. intros t. apply quiet_inactive_iteration.
Qed.

(** What a quiet computation gives. *)
Lemma quiet_runs {A} (thread : Z) (c : M A) (w : World) :
  quiet thread c -> faults w = [] ->
  exists a, c w = (Ok a, snd (c w)) /\ faults (snd (c w)) = [].
Proof.
  intros H Hf. destruct (H w Hf) as (H1 & [a H2] & _).
  exists a. split; [|exact H1].
  destruct (c w) as [r w1]. cbn in *. subst r. reflexivity.
Qed.

Lemma fetch_archived_threads_ok (f : ForumChannel) (w : World) :
  faults w = [] ->
  fetch_archived_threads f w = (Ok (firstn 20 (archived_threads f)), w).
Proof. intros Hf. unfold fetch_archived_threads. now rewrite request_ok. Qed.

(** ** The sweep, forum by forum and thread by thread *)

(** The forums that come first are swept first. *)
Lemma inactive_sweep_app (K : Constants) (forums : list ForumChannel)
  (channels : list Channel) (w : World) :
  faults w = [] ->
  inactive_help_thread_alert K (map Forum forums ++ channels) w
  = inactive_help_thread_alert K channels
      (snd (inactive_help_thread_alert K (map Forum forums) w)).
Proof.
  revert w. induction forums as [|f forums IH]; intros w Hf;
    [reflexivity|].
  cbn [map app inactive_help_thread_alert].
  rewrite !(bind_ok _ _ _ _ _ (time_time_ok w)).
  rewrite !(bind_ok _ _ _ _ _ (fetch_archived_threads_ok f w Hf)).
  destruct (quiet_runs 0 _ w
              (quiet_for_each 0 (threads f ++ firstn 20 (archived_threads f)) _
                 (fun t => quiet_inactive_iteration K 0 f (now w) t)) Hf)
    as ([] & E & Hf1).
  rewrite !(bind_ok _ _ _ _ _ E). apply IH. exact Hf1.
Qed.

(** Within a forum the sweep comes to each of its threads in turn. *)
Lemma inactive_sweep_at_thread (K : Constants) (f : ForumChannel)
  (rest : list Channel) (done todo : list Thread) (t : Thread) (w : World) :
  faults w = [] ->
  sweep_threads f = done ++ t :: todo ->
  let iteration := inactive_help_thread_alert_iteration K f (now w) in
  let w_t := snd (for_each done iteration w) in
  faults w_t = []
  /\ inactive_help_thread_alert K (Forum f :: rest) w
     = (for_each todo iteration ;;; inactive_help_thread_alert K rest)
         (snd (iteration t w_t)).
Proof.
  intros Hf Hsplit. cbv zeta.
  set (iteration := inactive_help_thread_alert_iteration K f (now w)).
  assert (Q : forall x, quiet 0 (iteration x))
    by (intros x; apply quiet_inactive_iteration).
  destruct (quiet_runs 0 _ w (quiet_for_each 0 done _ Q) Hf)
    as ([] & Ed & Hfd).
  split; [exact Hfd|].
  destruct (quiet_runs 0 _ _ (Q t) Hfd) as ([] & Et & Hft).
  cbn [inactive_help_thread_alert].
  rewrite (bind_ok _ _ _ _ _ (time_time_ok w)).
  rewrite (bind_ok _ _ _ _ _ (fetch_archived_threads_ok f w Hf)).
  fold (sweep_threads f). rewrite Hsplit. fold iteration.
  unfold bind at 1. rewrite for_each_app by (rewrite Ed; reflexivity).
  cbn [for_each]. rewrite (bind_ok _ _ _ _ _ Et). reflexivity.
Qed.

Lemma sweep_keeps_rows (K : Constants) (channels : list Channel) :
  preserves rows_kept (inactive_help_thread_alert K channels).
Proof.
  apply preserves_inactive_sweep with (S := fun _ => True);
    first [exact rows_kept_step | intros; exact I | request_related].
Qed.

Lemma iterations_keep_rows (K : Constants) (f : ForumChannel) (now_ts : Q)
  (ts : list Thread) :
  preserves rows_kept
    (for_each ts (inactive_help_thread_alert_iteration K f now_ts)).
Proof.
  apply (preserves_for_each _ rows_kept_step). intros t.
  apply preserves_inactive_iteration with (S := fun _ => True);
    first [exact rows_kept_step | exact I | request_related].
Qed.

Lemma sweep_log_grows (K : Constants) (f : ForumChannel) (now_ts : Q)
  (ts : list Thread) (channels : list Channel) :
  preserves (emits (fun _ => True))
    (for_each ts (inactive_help_thread_alert_iteration K f now_ts) ;;;
     inactive_help_thread_alert K channels).
Proof.
  assert (HR : step_relation (emits (fun _ : Event => True)))
    by apply emits_step.
  apply (preserves_bind _ HR).
  - apply (preserves_for_each _ HR). intros t.
    apply preserves_inactive_iteration with (S := fun _ => True);
      first [exact HR | exact I | request_related].
  - intros _. apply preserves_inactive_sweep with (S := fun _ => True);
      first [exact HR | intros; exact I | request_related].
Qed.



